(** * Canton Ecosystem Observatory: confidence model, dataset validator,
      GitHub client and field collectors

    A shallow embedding of the observatory scripts (types.ts,
    utils/confidence.ts, validate-data.ts, utils/github-client.ts and
    collect-github.ts) together with the properties stated for them.

    Conventions.
    - A JavaScript string is a [string]; one [ascii] stands for one UTF-16
      code unit below 256, so white space and line terminators are the
      ones of that range.
    - A JavaScript number that the code only ever reads as an integer
      (byte counts, epoch milliseconds, header counters, test counts) is
      a [Z]; [None] in a [jsnum] is NaN.
    - [null] is [None]; a value of union type [T | null] is an [option T].
    - The [notes] array that the collectors push to is threaded through
      as a list, newest note last. *)

From Stdlib Require Import ZArith QArith List String Ascii Lia Bool DecimalString.
From Stdlib Require Import Sorted Permutation.
From stdpp Require Import gmap strings list.

(** ** JavaScript strings

    The [String.prototype] methods and the regular-expression atoms that
    the scripts use, on [string]. *)

Module Js.

(** A JavaScript number read as an integer; [None] is NaN. *)
Definition jsnum := option Z.

Definition isNaN (n : jsnum) : bool :=
  match n with None => true | Some _ => false end.

Definition code (c : ascii) : N := N_of_ascii c.

Definition in_range (lo hi c : ascii) : bool :=
  (code lo <=? code c)%N && (code c <=? code hi)%N.

(** LineTerminator: LF and CR. A [.] of a regular expression matches
    every code unit but these. *)
Definition is_line_terminator (c : ascii) : bool :=
  (code c =? 10)%N || (code c =? 13)%N.

(** WhiteSpace and LineTerminator, the class [\s] and what [trim]
    strips: TAB, LF, VT, FF, CR, SP and NBSP. *)
Definition is_white_space (c : ascii) : bool :=
  ((9 <=? code c)%N && (code c <=? 13)%N)
  || (code c =? 32)%N || (code c =? 160)%N.

Definition startsWith (s p : string) : bool := String.prefix p s.

Definition endsWith (s p : string) : bool :=
  String.prefix (String.rev p) (String.rev s).

(** [s.includes(p)]. *)
Fixpoint includes (s p : string) : bool :=
  String.prefix p s
  || match s with
     | EmptyString => false
     | String _ s' => includes s' p
     end.

(** Every code unit satisfies [f]. *)
Fixpoint all_chars (f : ascii -> bool) (s : string) : bool :=
  match s with
  | EmptyString => true
  | String c s' => f c && all_chars f s'
  end.

Fixpoint trimStart (s : string) : string :=
  match s with
  | String c s' => if is_white_space c then trimStart s' else s
  | EmptyString => EmptyString
  end.

Definition trim (s : string) : string :=
  String.rev (trimStart (String.rev (trimStart s))).

(** [s.split(sep)] for a one-character separator: the pieces between
    the separators, always at least one. *)
Fixpoint split (sep : ascii) (s : string) : list string :=
  match s with
  | EmptyString => [EmptyString]
  | String c s' =>
      if Ascii.eqb c sep then EmptyString :: split sep s'
      else match split sep s' with
           | piece :: pieces => String c piece :: pieces
           | [] => [String c EmptyString]
           end
  end.

(** The text from the last occurrence of [c] on, or [None] when [c]
    does not occur: [s.substring(s.lastIndexOf(c))], [lastIndexOf]
    being -1 in the second case. *)
Fixpoint from_last (c : ascii) (s : string) : option string :=
  match s with
  | EmptyString => None
  | String d s' =>
      match from_last c s' with
      | Some t => Some t
      | None => if Ascii.eqb d c then Some s else None
      end
  end.

(** One double-quote character. *)
Definition dq : string := String "034"%char EmptyString.

(** Template-literal rendering of an integer. *)
Definition string_of_Z (z : Z) : string :=
  NilZero.string_of_int (Z.to_int z).

Definition string_of_nat (n : nat) : string :=
  NilZero.string_of_uint (Nat.to_uint n).

(** [arr.join(sep)]. *)
Fixpoint join (sep : string) (l : list string) : string :=
  match l with
  | [] => EmptyString
  | [x] => x
  | x :: rest => x +:+ sep +:+ join sep rest
  end.

(** The string without its first [n] code units. *)
Fixpoint drop_chars (n : nat) (s : string) : string :=
  match n, s with
  | O, _ => s
  | S n', String _ s' => drop_chars n' s'
  | S _, EmptyString => EmptyString
  end.

Definition no_line_terminator (s : string) : bool :=
  all_chars (fun c => negb (is_line_terminator c)) s.

(** [s] matches [.*] followed by the literal [suffix] and the end of the
    input. *)
Definition dot_star_ends (s suffix : string) : bool :=
  endsWith s suffix
  && no_line_terminator
       (substring 0 (String.length s - String.length suffix) s).

(** Some suffix of [s], [s] itself and the empty one included,
    satisfies [f]: a pattern that is not anchored at the start is tried
    at every position. *)
Fixpoint some_suffix (f : string -> bool) (s : string) : bool :=
  f s
  || match s with
     | EmptyString => false
     | String _ s' => some_suffix f s'
     end.

(** [Array.prototype.sort]. [in_order x y] says that the comparison
    does not put [y] before [x] (the comparator's answer is not
    positive, NaN counting as zero). When the comparison is a
    consistent ordering every conforming sort returns the list computed
    here, the sort being stable; otherwise the order is left to the
    engine. *)
Fixpoint sort_insert {A} (in_order : A -> A -> bool) (x : A) (l : list A)
    : list A :=
  match l with
  | [] => [x]
  | y :: l' =>
      if in_order x y then x :: l else y :: sort_insert in_order x l'
  end.

Fixpoint sort {A} (in_order : A -> A -> bool) (l : list A) : list A :=
  match l with
  | [] => []
  | x :: l' => sort_insert in_order x (sort in_order l')
  end.

(** [x] and [y] are in order. *)
Definition ordered {A} (in_order : A -> A -> bool) (x y : A) : Prop :=
  in_order x y = true.

(** [[...new Set(l)]]: the first occurrence of each string, in order. *)
Fixpoint unique_from (seen : list string) (l : list string) : list string :=
  match l with
  | [] => []
  | x :: l' =>
      if bool_decide (x ∈ seen) then unique_from seen l'
      else x :: unique_from (x :: seen) l'
  end.

Definition unique (l : list string) : list string := unique_from [] l.

(** The names every plain object inherits from [Object.prototype]; the
    [in] operator and a property read see them besides the object's own
    properties, and the inherited values are functions (for [__proto__]
    the prototype object), never null and never strings. *)
Definition Object_prototype_names : list string :=
  [ "constructor"; "__defineGetter__"; "__defineSetter__";
    "hasOwnProperty"; "__lookupGetter__"; "__lookupSetter__";
    "isPrototypeOf"; "propertyIsEnumerable"; "toString"; "valueOf";
    "__proto__"; "toLocaleString" ].

Definition inherited (name : string) : bool :=
  bool_decide (name ∈ Object_prototype_names).

End Js.

(** ** Dates

    [Date.parse] is a built-in whose answer on a string outside the
    ECMAScript date-time format is left to the engine, so the scripts
    are embedded over an arbitrary [Date_parse : string -> jsnum]. The
    function below is the one used to run them on examples: it reads
    [YYYY-MM-DD] and [YYYY-MM-DDTHH:mm:ss(.sss)Z] with a valid calendar
    date as epoch milliseconds and answers NaN on everything else. *)

Module JsDate.
Import Js.

Definition digit (c : ascii) : option Z :=
  if in_range "0" "9" c then Some (Z.of_N (code c) - 48)%Z else None.

Fixpoint digits_from (acc : Z) (s : string) : option Z :=
  match s with
  | EmptyString => Some acc
  | String c s' =>
      match digit c with
      | Some d => digits_from (acc * 10 + d)%Z s'
      | None => None
      end
  end.

(** The value of a non-empty run of decimal digits. *)
Definition decimal (s : string) : option Z :=
  match s with
  | EmptyString => None
  | _ => digits_from 0%Z s
  end.

Definition is_leap (y : Z) : bool :=
  ((y mod 4 =? 0) && negb (y mod 100 =? 0) || (y mod 400 =? 0))%Z.

Definition days_in_month (y m : Z) : Z :=
  if (m =? 2)%Z then (if is_leap y then 29 else 28)%Z
  else if ((m =? 4) || (m =? 6) || (m =? 9) || (m =? 11))%Z then 30%Z
  else 31%Z.

(** Days from 1970-01-01 to the given civil date. *)
Definition days_from_civil (y m d : Z) : Z :=
  let y' := (if m <=? 2 then y - 1 else y)%Z in
  let era := (y' / 400)%Z in
  let yoe := (y' - era * 400)%Z in
  let mp := (if m >? 2 then m - 3 else m + 9)%Z in
  let doy := ((153 * mp + 2) / 5 + d - 1)%Z in
  let doe := (yoe * 365 + yoe / 4 - yoe / 100 + doy)%Z in
  (era * 146097 + doe - 719468)%Z.

Definition MS_PER_DAY : Z := (1000 * 60 * 60 * 24)%Z.

Definition between (lo x hi : Z) : bool := ((lo <=? x) && (x <=? hi))%Z.

Definition parse_date (s : string) : option Z :=
  if (String.length s =? 10)%nat
     && String.eqb (substring 4 1 s) "-"
     && String.eqb (substring 7 1 s) "-"
  then
    match decimal (substring 0 4 s), decimal (substring 5 2 s),
          decimal (substring 8 2 s) with
    | Some y, Some m, Some d =>
        if between 1 m 12 && between 1 d (days_in_month y m)
        then Some (days_from_civil y m d * MS_PER_DAY)%Z
        else None
    | _, _, _ => None
    end
  else None.

(** [HH:mm:ss] or [HH:mm:ss.sss], in milliseconds. *)
Definition parse_time (s : string) : option Z :=
  let hms :=
    if String.eqb (substring 2 1 s) ":" && String.eqb (substring 5 1 s) ":"
    then
      match decimal (substring 0 2 s), decimal (substring 3 2 s),
            decimal (substring 6 2 s) with
      | Some h, Some m, Some sec =>
          if between 0 h 23 && between 0 m 59 && between 0 sec 59
          then Some (((h * 60 + m) * 60 + sec) * 1000)%Z
          else None
      | _, _, _ => None
      end
    else None in
  if (String.length s =? 8)%nat then hms
  else if (String.length s =? 12)%nat
          && String.eqb (substring 8 1 s) "."
  then match hms, decimal (substring 9 3 s) with
       | Some t, Some ms => Some (t + ms)%Z
       | _, _ => None
       end
  else None.

Definition Date_parse (s : string) : jsnum :=
  let n := String.length s in
  if (n =? 10)%nat then parse_date s
  else if ((n =? 20) || (n =? 24))%nat
          && String.eqb (substring 10 1 s) "T"
          && String.eqb (substring (n - 1) 1 s) "Z"
  then match parse_date (substring 0 10 s),
             parse_time (substring 11 (n - 12) s) with
       | Some d, Some t => Some (d + t)%Z
       | _, _ => None
       end
  else None.

End JsDate.

(** ** types.ts *)

Module Types.

Inductive ConfidenceTier := verified | self_reported | auto_detected.

#[global] Instance ConfidenceTier_eq_dec : EqDecision ConfidenceTier.
Proof. solve_decision. Defined.

(** The string a tier is in the source. *)
Definition tier_string (t : ConfidenceTier) : string :=
  match t with
  | verified => "verified"
  | self_reported => "self_reported"
  | auto_detected => "auto_detected"
  end.

Definition OBSERVATORY_MANAGED_FIELDS : gset string :=
  list_to_set
    [ "project_id"; "category"; "created_at"; "updated_at"; "claimed";
      "claimed_by"; "claimed_at"; "data_confidence"; "last_auto_refresh";
      "notes"; "partnerships" ].

Definition AUTO_DETECTED_FIELDS : gset string :=
  list_to_set
    [ "last_verified_activity"; "canton_sdk_version"; "license_type";
      "has_tests"; "test_count"; "has_ci"; "ci_status";
      "has_documentation"; "documentation_url"; "tech_stack" ].

Definition MANUALLY_VERIFIED_FIELDS : gset string :=
  list_to_set
    [ "foundation_member"; "validator_status"; "featured_app";
      "security_audit"; "status" ].

Definition VALID_CATEGORIES : list string :=
  [ "tokenized-assets"; "data-analytics"; "naas"; "developer-tools";
    "wallets"; "exchanges"; "liquidity"; "interoperability";
    "forensics-security"; "custody"; "stablecoins"; "payments";
    "financing"; "compliance" ].

Record SecurityAudit := {
  auditor : string;
  date : string;
  report_url : option string;
  scope : string;
}.

(** The interface [ObservatoryProject], field by field. The string
    unions ([validator_status], [status], [network], [category],
    [ci_status]) are kept as strings: at run time nothing but the schema
    restricts them. *)
Record ObservatoryProject := {
  (* Identity & Governance *)
  project_id : string;
  display_name : string;
  entity_name : option string;
  entity_jurisdiction : option string;
  foundation_member : bool;
  validator_status : string;
  website_url : option string;
  contact_url : option string;
  description : string;
  category : list string;
  partnerships : list string;
  (* Operational Status *)
  status : string;
  network : list string;
  canton_sdk_version : option string;
  last_verified_activity : option string;
  launch_date : option string;
  featured_app : option bool;
  (* Technical Posture *)
  open_source : bool;
  repo_url : option string;
  license_type : option string;
  security_audit : option SecurityAudit;
  has_tests : option bool;
  test_count : option Z;
  has_ci : option bool;
  ci_status : option string;
  has_documentation : bool;
  documentation_url : option string;
  tech_stack : list string;
  (* On-Chain Footprint (Phase 2) *)
  tx_count_30d : option Z;
  tx_count_90d : option Z;
  unique_parties_30d : option Z;
  cc_burned_30d : option Z;
  featured_markers_30d : option Z;
  onchain_since : option string;
  (* Metadata *)
  created_at : string;
  updated_at : string;
  claimed : bool;
  claimed_by : option string;
  claimed_at : option string;
  data_confidence : list (string * option ConfidenceTier);
  last_auto_refresh : option string;
  notes : option string;
}.

(** *** A project as [Record<string, unknown>]

    The value a property read yields: one of the field types of the
    interface, or [JInherited], a value found on [Object.prototype]. *)
Inductive jsval :=
| JNull
| JBool (b : bool)
| JNum (n : Z)
| JStr (s : string)
| JStrings (items : list string)
| JAudit (a : SecurityAudit)
| JConfidence (c : list (string * option ConfidenceTier))
| JInherited (name : string).

Definition is_null (v : jsval) : bool :=
  match v with JNull => true | _ => false end.

Definition nullable {A} (f : A -> jsval) (o : option A) : jsval :=
  match o with Some a => f a | None => JNull end.

(** The own properties of a project, in declaration order. *)
Definition own_properties (p : ObservatoryProject)
    : list (string * jsval) :=
  [ ("project_id", JStr (project_id p));
    ("display_name", JStr (display_name p));
    ("entity_name", nullable JStr (entity_name p));
    ("entity_jurisdiction", nullable JStr (entity_jurisdiction p));
    ("foundation_member", JBool (foundation_member p));
    ("validator_status", JStr (validator_status p));
    ("website_url", nullable JStr (website_url p));
    ("contact_url", nullable JStr (contact_url p));
    ("description", JStr (description p));
    ("category", JStrings (category p));
    ("partnerships", JStrings (partnerships p));
    ("status", JStr (status p));
    ("network", JStrings (network p));
    ("canton_sdk_version", nullable JStr (canton_sdk_version p));
    ("last_verified_activity", nullable JStr (last_verified_activity p));
    ("launch_date", nullable JStr (launch_date p));
    ("featured_app", nullable JBool (featured_app p));
    ("open_source", JBool (open_source p));
    ("repo_url", nullable JStr (repo_url p));
    ("license_type", nullable JStr (license_type p));
    ("security_audit", nullable JAudit (security_audit p));
    ("has_tests", nullable JBool (has_tests p));
    ("test_count", nullable JNum (test_count p));
    ("has_ci", nullable JBool (has_ci p));
    ("ci_status", nullable JStr (ci_status p));
    ("has_documentation", JBool (has_documentation p));
    ("documentation_url", nullable JStr (documentation_url p));
    ("tech_stack", JStrings (tech_stack p));
    ("tx_count_30d", nullable JNum (tx_count_30d p));
    ("tx_count_90d", nullable JNum (tx_count_90d p));
    ("unique_parties_30d", nullable JNum (unique_parties_30d p));
    ("cc_burned_30d", nullable JNum (cc_burned_30d p));
    ("featured_markers_30d", nullable JNum (featured_markers_30d p));
    ("onchain_since", nullable JStr (onchain_since p));
    ("created_at", JStr (created_at p));
    ("updated_at", JStr (updated_at p));
    ("claimed", JBool (claimed p));
    ("claimed_by", nullable JStr (claimed_by p));
    ("claimed_at", nullable JStr (claimed_at p));
    ("data_confidence", JConfidence (data_confidence p));
    ("last_auto_refresh", nullable JStr (last_auto_refresh p));
    ("notes", nullable JStr (notes p)) ].

Fixpoint assoc {A} (key : string) (l : list (string * A)) : option A :=
  match l with
  | [] => None
  | (k, v) :: rest => if String.eqb k key then Some v else assoc key rest
  end.

(** [record[key]]; [None] is undefined. *)
Definition get (p : ObservatoryProject) (key : string) : option jsval :=
  match assoc key (own_properties p) with
  | Some v => Some v
  | None => if Js.inherited key then Some (JInherited key) else None
  end.

(** [key in record]. *)
Definition has_property (p : ObservatoryProject) (key : string) : bool :=
  match get p key with Some _ => true | None => false end.

(** [Set.prototype.has] on a set of strings. *)
Definition has (s : gset string) (x : string) : bool := bool_decide (x ∈ s).

End Types.

(** ** utils/confidence.ts *)

Module Confidence.
Import Types.

Inductive Source := auto | manual | self_reported_source.

(** [fieldValue] is only tested against null and undefined, so the
    argument says whether the value is one of those. *)
Definition assignTier (fieldName : string) (fieldValue_is_nullish : bool)
    (source : Source) : option ConfidenceTier :=
  if fieldValue_is_nullish then None
  else if has OBSERVATORY_MANAGED_FIELDS fieldName then None
  else match source with
       | manual => Some verified
       | self_reported_source => Some self_reported
       | auto => Some auto_detected
       end.

Definition defaultSourceForField (fieldName : string) : Source :=
  if has AUTO_DETECTED_FIELDS fieldName then auto
  else if has MANUALLY_VERIFIED_FIELDS fieldName then manual
  else self_reported_source.

(** [===] on two tiers. *)
Definition tier_eqb (a b : ConfidenceTier) : bool := bool_decide (a = b).

Definition isValidTransition (from to : option ConfidenceTier) : bool :=
  match from, to with
  | None, _ | _, None => true
  | Some f, Some t =>
      if tier_eqb f auto_detected && tier_eqb t verified then true
      else if tier_eqb f self_reported && tier_eqb t verified then true
      else if tier_eqb f verified && tier_eqb t self_reported then true
      else if tier_eqb f t then true
      else if tier_eqb f auto_detected && tier_eqb t self_reported then true
      else false
  end.

(** The legality table in the words of the specification. *)
Definition transition_allowed (from to : option ConfidenceTier) : Prop :=
  from = None \/ to = None \/ from = to \/ to = Some verified
  \/ (from = Some verified /\ to = Some self_reported)
  \/ (from = Some auto_detected /\ to = Some self_reported).

(** [validateConfidenceMap]: the check of one project's confidence map
    against its fields, in both directions. *)
Definition validateConfidenceMap (project : ObservatoryProject)
    : list string :=
  flat_map
    (fun entry =>
       let field := entry.1 in
       if has OBSERVATORY_MANAGED_FIELDS field
       then ["Field " +:+ Js.dq +:+ field +:+ Js.dq
             +:+ " is observatory-managed and should "
             +:+ "not have a confidence tier"]
       else
         match get project field with
         | None =>
             ["Confidence tier for " +:+ Js.dq +:+ field +:+ Js.dq
              +:+ " but field does not exist on project"]
         | Some value =>
             match is_null value, entry.2 with
             | true, Some tier =>
                 ["Field " +:+ Js.dq +:+ field +:+ Js.dq
                  +:+ " is null but has confidence tier "
                  +:+ Js.dq +:+ tier_string tier +:+ Js.dq]
             | false, None =>
                 ["Field " +:+ Js.dq +:+ field +:+ Js.dq
                  +:+ " has value but confidence tier is null"]
             | _, _ => []
             end
         end)
    (data_confidence project).

End Confidence.

(** ** validate-data.ts *)

Module Validate.
Import Types Js.

Record ValidationResult := { valid : bool; errors : list string }.

(** A value for which [Array.isArray] is false. *)
Inductive NonArray :=
| VUndefined
| VNull
| VBool (b : bool)
| VNumber (n : Z)
| VString (s : string)
| VObject (props : list (string * jsval)).

(** The argument of [validateDataset]: a value for which
    [Array.isArray] is false, or an array, which the code then reads at
    the type [ObservatoryProject[]]. *)
Inductive Data :=
| NotArray (v : NonArray)
| Projects (projects : list ObservatoryProject).

Fixpoint checkUniqueIds_from (seen : gset string)
    (projects : list ObservatoryProject) : list string :=
  match projects with
  | [] => []
  | p :: rest =>
      (if has seen (project_id p)
       then ["Duplicate project_id: " +:+ dq +:+ project_id p +:+ dq]
       else [])
      ++ checkUniqueIds_from ({[ project_id p ]} ∪ seen) rest
  end.

Definition checkUniqueIds (projects : list ObservatoryProject)
    : list string :=
  checkUniqueIds_from ∅ projects.

(** [[a-z0-9]] and [[a-z0-9-]]. *)
Definition is_id_char (c : ascii) : bool :=
  in_range "a" "z" c || in_range "0" "9" c.

Definition is_id_inner (c : ascii) : bool :=
  is_id_char c || Ascii.eqb c "-".

(** [/^[a-z0-9]([a-z0-9-]*[a-z0-9])?$/.test(s)]. *)
Definition id_pattern_test (s : string) : bool :=
  match s with
  | EmptyString => false
  | String c EmptyString => is_id_char c
  | String c rest =>
      is_id_char c && all_chars is_id_inner rest
      && match String.rev rest with
         | String l _ => is_id_char l
         | EmptyString => false
         end
  end.

Definition checkIdFormat (projects : list ObservatoryProject)
    : list string :=
  flat_map
    (fun p =>
       if negb (id_pattern_test (project_id p))
       then ["Invalid project_id format: " +:+ dq +:+ project_id p +:+ dq
             +:+ " (must be lowercase alphanumeric with hyphens)"]
       else [])
    projects.

Definition checkPartnershipRefs (projects : list ObservatoryProject)
    : list string :=
  let ids : gset string := list_to_set (map project_id projects) in
  flat_map
    (fun p =>
       flat_map
         (fun partner =>
            if negb (has ids partner)
            then ["Project " +:+ dq +:+ project_id p +:+ dq
                  +:+ " references unknown partnership: "
                  +:+ dq +:+ partner +:+ dq]
            else [])
         (partnerships p))
    projects.

(** The first loop over a project's confidence map: each key must be a
    property of the project and not observatory-managed. *)
Definition confidence_key_errors (p : ObservatoryProject) : list string :=
  flat_map
    (fun key =>
       if has OBSERVATORY_MANAGED_FIELDS key
       then ["Project " +:+ dq +:+ project_id p +:+ dq
             +:+ ": confidence key " +:+ dq +:+ key +:+ dq
             +:+ " is observatory-managed"]
       else if negb (has_property p key)
       then ["Project " +:+ dq +:+ project_id p +:+ dq
             +:+ ": confidence key " +:+ dq +:+ key +:+ dq
             +:+ " does not match any project field"]
       else [])
    (map fst (data_confidence p)).

(** The second loop: a null value must not carry a tier. *)
Definition confidence_null_errors (p : ObservatoryProject) : list string :=
  flat_map
    (fun entry =>
       match get p entry.1, entry.2 with
       | Some JNull, Some tier =>
           ["Project " +:+ dq +:+ project_id p +:+ dq
            +:+ ": field " +:+ dq +:+ entry.1 +:+ dq
            +:+ " is null but confidence is "
            +:+ dq +:+ tier_string tier +:+ dq]
       | _, _ => []
       end)
    (data_confidence p).

Definition checkConfidenceKeys (projects : list ObservatoryProject)
    : list string :=
  flat_map (fun p => confidence_key_errors p ++ confidence_null_errors p)
           projects.

Definition dateFields : list string :=
  [ "last_verified_activity"; "launch_date"; "onchain_since" ].

Definition datetimeFields : list string :=
  [ "created_at"; "updated_at"; "claimed_at"; "last_auto_refresh" ].

Section Validator.

(** The function [createValidator()] returns: the compiled JSON schema
    (data/schema.json) applied to the data, its errors rendered as
    strings. *)
Variable schemaValidate : Data -> ValidationResult.

Variable Date_parse : string -> jsnum.

Definition date_errors (kind : string) (fields : list string)
    (p : ObservatoryProject) : list string :=
  flat_map
    (fun field =>
       match get p field with
       | Some (JStr val) =>
           if isNaN (Date_parse val)
           then ["Project " +:+ dq +:+ project_id p +:+ dq
                 +:+ ": invalid " +:+ kind +:+ " in "
                 +:+ dq +:+ field +:+ dq +:+ ": " +:+ dq +:+ val +:+ dq]
           else []
       | _ => []
       end)
    fields.

Definition checkDateFields (projects : list ObservatoryProject)
    : list string :=
  flat_map
    (fun p => date_errors "date" dateFields p
              ++ date_errors "datetime" datetimeFields p)
    projects.

Definition validateDataset (data : Data) : ValidationResult :=
  let schemaResult := schemaValidate data in
  let allErrors := errors schemaResult in
  match data with
  | NotArray _ => {| valid := false; errors := allErrors |}
  | Projects projects =>
      let allErrors := allErrors ++ checkUniqueIds projects in
      let allErrors := allErrors ++ checkIdFormat projects in
      let allErrors := allErrors ++ checkPartnershipRefs projects in
      let allErrors := allErrors ++ checkConfidenceKeys projects in
      let allErrors := allErrors ++ checkDateFields projects in
      {| valid := (length allErrors =? 0)%nat; errors := allErrors |}
  end.

End Validator.

End Validate.

(** ** utils/github-client.ts

    One call of [GitHubClient.get]. The world the call runs in is given
    by [responses], which says how the [fetch] of each attempt settles,
    and [now], the clock read by the rate-limit check of each attempt.
    The call yields its outcome, the rate-limit snapshot it leaves in
    the client, and the trace of its requests and sleeps. *)

Module Client.
Import Js.

Definition MAX_RETRIES : nat := 3.
Definition INITIAL_BACKOFF_MS : Z := 1000.
Definition RATE_LIMIT_THRESHOLD : Z := 100.

Record GitHubError := {
  status : Z;
  message : string;
  retryable : bool;
}.

Record RateLimit := { remaining : jsnum; reset : jsnum }.

Record GitHubResponse (T : Type) := {
  data : T;
  response_status : Z;
  rateLimit : RateLimit;
}.
Arguments data {T}.
Arguments response_status {T}.
Arguments rateLimit {T}.

(** [lastRateLimit] of a fresh client. *)
Definition initialRateLimit : RateLimit :=
  {| remaining := Some 5000%Z; reset := Some 0%Z |}.

(** What [response.json()] settles to. *)
Inductive Json (T : Type) :=
| Parsed (d : T)
| Malformed (error_message : string).
Arguments Parsed {T}.
Arguments Malformed {T}.

(** A [Response]: its status, the two rate-limit headers as [parseInt]
    reads them ([None] when the header is missing), and its body. *)
Record Response (T : Type) := {
  http_status : Z;
  x_ratelimit_remaining : option jsnum;
  x_ratelimit_reset : option jsnum;
  json : Json T;
}.
Arguments http_status {T}.
Arguments x_ratelimit_remaining {T}.
Arguments x_ratelimit_reset {T}.
Arguments json {T}.

Definition ok {T} (r : Response T) : bool :=
  ((200 <=? http_status r) && (http_status r <=? 299))%Z.

(** How a [fetch] settles: rejected (with the message of the [Error]
    it was rejected with, if it was one), or resolved to a response. *)
Inductive FetchOutcome (T : Type) :=
| Rejected (error_message : option string)
| Responded (r : Response T).
Arguments Rejected {T}.
Arguments Responded {T}.

Inductive SleepReason := Backoff | Pacing.

Inductive Event :=
| Sleep (why : SleepReason) (ms : Z)
| Request.

Inductive Outcome (T : Type) :=
| Returned (r : GitHubResponse T)
| Thrown (e : GitHubError).
Arguments Returned {T}.
Arguments Thrown {T}.

Definition updateRateLimit {T} (last : RateLimit) (r : Response T)
    : RateLimit :=
  {| remaining := match x_ratelimit_remaining r with
                  | Some n => n
                  | None => remaining last
                  end;
     reset := match x_ratelimit_reset r with
              | Some n => n
              | None => reset last
              end |}.

(** [checkRateLimit]: the sleep it performs, if any. A comparison with
    NaN is false. *)
Definition checkRateLimit (last : RateLimit) (now_ms : Z) : list Event :=
  match remaining last with
  | Some r =>
      if (r <? RATE_LIMIT_THRESHOLD)%Z then
        let now := (now_ms / 1000)%Z in
        match reset last with
        | Some rs =>
            let waitSeconds := Z.max 0 (rs - now + 1) in
            if ((0 <? waitSeconds) && (waitSeconds <? 3600))%Z
            then [Sleep Pacing (waitSeconds * 1000)]
            else []
        | None => []
        end
      else []
  | None => []
  end.

(** [INITIAL_BACKOFF_MS * Math.pow(2, attempt - 1)], computed for
    [attempt > 0] only. *)
Definition backoff_delay (attempt : nat) : Z :=
  (INITIAL_BACKOFF_MS * 2 ^ (Z.of_nat attempt - 1))%Z.

(** [remaining <= 0]. *)
Definition exhausted (last : RateLimit) : bool :=
  match remaining last with
  | Some r => (r <=? 0)%Z
  | None => false
  end.

Definition not_found : GitHubError :=
  {| status := 404; message := "Not found"; retryable := false |}.

Definition rate_limit_exceeded : GitHubError :=
  {| status := 403; message := "Rate limit exceeded"; retryable := true |}.

Definition forbidden : GitHubError :=
  {| status := 403; message := "Forbidden"; retryable := false |}.

Definition conflict : GitHubError :=
  {| status := 409; message := "Conflict (likely empty repository)";
     retryable := false |}.

Definition server_error (st : Z) : GitHubError :=
  {| status := st; message := "Server error: " +:+ string_of_Z st;
     retryable := true |}.

Definition http_error (st : Z) : GitHubError :=
  {| status := st; message := "HTTP " +:+ string_of_Z st;
     retryable := false |}.

Definition network_error (error_message : option string) : GitHubError :=
  {| status := 0;
     message := match error_message with
                | Some m => m
                | None => "Network error"
                end;
     retryable := true |}.

Definition unknown_error : GitHubError :=
  {| status := 0; message := "Unknown error after retries";
     retryable := false |}.

Section Get.

Context {T : Type}.
Variable responses : nat -> FetchOutcome T.
Variable now : nat -> Z.

(** How one iteration of the loop ends: it leaves [get] (by [return] or
    [throw]), or goes on to the next iteration with [lastError] set. *)
Inductive Step :=
| Leave (outcome : Outcome T)
| Continue (lastError : GitHubError).

(** The [try]/[catch] of iteration [attempt]: the fetch, the update of
    the rate-limit snapshot and the handling of the status. An error
    that is not a [GitHubError] (a rejected fetch, a body that is not
    JSON) is thrown on the last iteration only. *)
Definition attempt_once (attempt : nat) (last : RateLimit)
    : Step * RateLimit :=
  let network error_message :=
    if (attempt =? MAX_RETRIES)%nat
    then Leave (Thrown (network_error error_message))
    else Continue (network_error error_message) in
  match responses attempt with
  | Rejected error_message => (network error_message, last)
  | Responded r =>
      let last' := updateRateLimit last r in
      (if (http_status r =? 404)%Z then Leave (Thrown not_found)
       else if (http_status r =? 403)%Z then
         if exhausted last' then Continue rate_limit_exceeded
         else Leave (Thrown forbidden)
       else if (http_status r =? 409)%Z then Leave (Thrown conflict)
       else if (http_status r >=? 500)%Z
       then Continue (server_error (http_status r))
       else if negb (ok r) then Leave (Thrown (http_error (http_status r)))
       else match json r with
            | Parsed d =>
                Leave (Returned {| data := d;
                                   response_status := http_status r;
                                   rateLimit := last' |})
            | Malformed error_message => network (Some error_message)
            end,
       last')
  end.

(** What happens in iteration [attempt] before the fetch settles: the
    backoff sleep (not before the first attempt), the rate-limit check,
    the request. *)
Definition attempt_events (attempt : nat) (last : RateLimit)
    : list Event :=
  (if (0 <? attempt)%nat then [Sleep Backoff (backoff_delay attempt)]
   else [])
  ++ checkRateLimit last (now attempt) ++ [Request].

(** The loop of [get] from iteration [attempt] on, [left] iterations
    remaining before [attempt] exceeds [MAX_RETRIES]. *)
Fixpoint get_loop (left attempt : nat) (last : RateLimit)
    (lastError : option GitHubError)
    : Outcome T * RateLimit * list Event :=
  match left with
  | O => (Thrown (default unknown_error lastError), last, [])
  | S left' =>
      match attempt_once attempt last with
      | (Leave outcome, last') =>
          (outcome, last', attempt_events attempt last)
      | (Continue error, last') =>
          let '(outcome, last'', trace) :=
            get_loop left' (S attempt) last' (Some error) in
          (outcome, last'', attempt_events attempt last ++ trace)
      end
  end.

(** [get], for a call during which no other call on the same client
    runs: [lastRateLimit] is a field of the client, and here only the
    responses of this call update it. *)
Definition get (lastRateLimit : RateLimit)
    : Outcome T * RateLimit * list Event :=
  get_loop (MAX_RETRIES + 1) 0 lastRateLimit None.

End Get.

(** The number of requests in a trace, and its backoff sleeps. *)
Definition requests (trace : list Event) : nat :=
  length (List.filter (fun e => match e with Request => true | _ => false end)
                 trace).

Definition backoffs (trace : list Event) : list Z :=
  flat_map (fun e => match e with Sleep Backoff ms => [ms] | _ => [] end)
           trace.

(** The trace without the sleeps of the rate-limit check: the requests
    and the backoff sleeps, in the order in which they happen. *)
Definition without_pacing (trace : list Event) : list Event :=
  List.filter
    (fun e => match e with Sleep Pacing _ => false | _ => true end) trace.

Definition respond {T} (st : Z) (body : Json T) : FetchOutcome T :=
  Responded {| http_status := st; x_ratelimit_remaining := Some (Some 4999%Z);
               x_ratelimit_reset := Some (Some 0%Z); json := body |}.

End Client.

(** ** collect-github.ts

    The collectors run in a world made of the client they are handed
    and the [notes] array they push to; a collector returns its fields
    or throws. The client is any object with the two methods the
    collectors call: [get], here one function per endpoint, each taking
    the path and answering with a response or a thrown error, and
    [getFileContent]. *)

Module Collect.
Import Js.

Inductive Error :=
| GitHubErr (e : Client.GitHubError)
| OtherError (description : string).

(** [isGitHubError(error)]. *)
Definition isGitHubError (error : Error) : bool :=
  match error with GitHubErr _ => true | OtherError _ => false end.

Inductive Completion (A : Type) :=
| Normal (a : A)
| Throws (error : Error).
Arguments Normal {A}.
Arguments Throws {A}.

Record TreeEntry := {
  path : string;
  type : string;
  size : option Z;
}.

Record CommitResponse := { commit_author_date : string }.

Record WorkflowRun := { conclusion : string; updated_at : string }.

Record WorkflowRunsResponse := { workflow_runs : list WorkflowRun }.

(** The languages object as [Object.entries] lists it. *)
Definition LanguagesResponse := list (string * Z).

Inductive CiStatus := passing | failing | stale | unknown.

Record LastActivity := { last_verified_activity : option string }.
Record SdkVersion := { canton_sdk_version : option string }.
Record Tests := { has_tests : option bool; test_count : option nat }.
Record Ci := { has_ci : option bool; ci_status : option CiStatus }.

Definition TEST_FILE_PATTERNS : list (string -> bool) :=
  [ (* daml *)
    fun p => endsWith p "Test.daml" || endsWith p "Tests.daml";
    (* typescript *)
    fun p => endsWith p ".test.ts" || endsWith p ".spec.ts"
             || includes p "__tests__/";
    (* javascript *)
    fun p => endsWith p ".test.js" || endsWith p ".spec.js"
             || includes p "__tests__/";
    (* java *)
    fun p => startsWith p "src/test/";
    (* python *)
    fun p => some_suffix
               (fun t => startsWith t "test_"
                         && dot_star_ends (drop_chars 5 t) ".py") p
             || endsWith p "_test.py" ].

Definition CODE_EXTENSIONS : gset string :=
  list_to_set
    [ ".ts"; ".js"; ".py"; ".java"; ".scala"; ".daml"; ".hs"; ".rs";
      ".go"; ".rb"; ".kt" ].

Definition CI_CONFIG_PATTERNS : list (string -> bool) :=
  [ fun p => startsWith p ".github/workflows/"
             && (dot_star_ends (drop_chars 18 p) ".yml"
                 || dot_star_ends (drop_chars 18 p) ".yaml");
    fun p => String.eqb p ".circleci/config.yml";
    fun p => String.eqb p "Jenkinsfile";
    fun p => String.eqb p ".gitlab-ci.yml";
    fun p => String.eqb p ".travis.yml" ].

Definition FRAMEWORK_FILES : list (string * string) :=
  [ ("package.json", "Node.js");
    ("daml.yaml", "Daml");
    ("build.sbt", "Scala");
    ("pom.xml", "Java/Maven");
    ("Cargo.toml", "Rust");
    ("go.mod", "Go");
    ("requirements.txt", "Python");
    ("pyproject.toml", "Python") ].

Definition STALE_CI_DAYS : Z := 90.

Definition getExtension (p : string) : string :=
  match from_last "." p with
  | Some ext => ext
  | None => EmptyString
  end.

Section Collectors.

(** The state of the client. *)
Variable C : Type.

Record World := { client : C; notes : list string }.

Definition M (A : Type) : Type := World -> Completion A * World.

Definition ret {A} (a : A) : M A := fun w => (Normal a, w).

Definition bind {A B} (m : M A) (k : A -> M B) : M B :=
  fun w =>
    match m w with
    | (Normal a, w') => k a w'
    | (Throws e, w') => (Throws e, w')
    end.

Definition throw {A} (e : Error) : M A := fun w => (Throws e, w).

(** [try { body } catch (error) { handler }]: what the body pushed to
    the notes before it threw stays pushed. *)
Definition try_catch {A} (body : M A) (handler : Error -> M A) : M A :=
  fun w =>
    match body w with
    | (Normal a, w') => (Normal a, w')
    | (Throws e, w') => handler e w'
    end.

(** [notes.push(note)]. *)
Definition push (note : string) : M unit :=
  fun w => (Normal tt, {| client := client w; notes := notes w ++ [note] |}).

(** A method call on the client. *)
Definition call {A} (method : C -> Completion A * C) : M A :=
  fun w =>
    let '(r, c') := method (client w) in
    (r, {| client := c'; notes := notes w |}).

#[global] Instance M_ret : MRet M := @ret.
#[global] Instance M_bind : MBind M := fun A B k m => bind m k.

End Collectors.

Arguments client {C}.
Arguments notes {C}.
Arguments ret {C A}.
Arguments bind {C A B}.
Arguments throw {C A}.
Arguments try_catch {C A}.
Arguments push {C}.
Arguments call {C A}.

(** [/^sdk-version:\s*(.+)$/m] tried at the start of a line: what the
    group captures there. After the literal, [\s*] takes all the white
    space there is, line terminators included, and the group the rest
    of the line it then stands on; if nothing follows the white space
    the match backtracks, and the group gets the last of the
    white-space characters that is not a line terminator. *)
Fixpoint skip_white_space (s : string) : string :=
  match s with
  | String c s' => if is_white_space c then skip_white_space s' else s
  | EmptyString => EmptyString
  end.

Fixpoint line_of (s : string) : string :=
  match s with
  | String c s' =>
      if is_line_terminator c then EmptyString else String c (line_of s')
  | EmptyString => EmptyString
  end.

(** The last code unit of [s] that is not a line terminator. *)
Fixpoint last_on_line (s : string) : option string :=
  match s with
  | EmptyString => None
  | String c s' =>
      match last_on_line s' with
      | Some t => Some t
      | None =>
          if is_line_terminator c then None
          else Some (String c EmptyString)
      end
  end.

Definition sdk_version_at (s : string) : option string :=
  if startsWith s "sdk-version:" then
    let rest := drop_chars 12 s in
    match skip_white_space rest with
    | String c t => Some (line_of (String c t))
    | EmptyString => last_on_line rest
    end
  else None.

(** The leftmost match: [^] holds at the start of the input and after
    every line terminator. *)
Fixpoint sdk_version_match (at_line_start : bool) (s : string)
    : option string :=
  match (if at_line_start then sdk_version_at s else None) with
  | Some group => Some group
  | None =>
      match s with
      | EmptyString => None
      | String c s' => sdk_version_match (is_line_terminator c) s'
      end
  end.

Definition parseSdkVersion (yamlContent : string) : option string :=
  match sdk_version_match true yamlContent with
  | None | Some EmptyString => None
  | Some group => Some (trim group)
  end.

(** A string or null, as a condition. *)
Definition truthy (o : option string) : bool :=
  match o with
  | Some (String _ _) => true
  | _ => false
  end.

(** The version a fetched daml.yaml contributes to the scan:
    [if (fileContent) { const v = parseSdkVersion(fileContent);
    if (v) ... }]. *)
Definition found_version (fileContent : option string) : option string :=
  if truthy fileContent then
    let v := parseSdkVersion (default EmptyString fileContent) in
    if truthy v then v else None
  else None.

(** What the tech-stack set holds: a string, or the value a file name
    found on [Object.prototype] when it was looked up in
    [FRAMEWORK_FILES]. *)
Inductive StackValue :=
| Str (s : string)
| Proto (name : string).

#[global] Instance StackValue_eq_dec : EqDecision StackValue.
Proof. solve_decision. Defined.

Record TechStack := { tech_stack : list StackValue }.

(** [stack.add(v)]. *)
Definition stack_add (v : StackValue) (stack : list StackValue)
    : list StackValue :=
  if bool_decide (v ∈ stack) then stack else stack ++ [v].

(** [FRAMEWORK_FILES[basename]]; [None] is undefined. Every value the
    lookup can find is truthy. *)
Definition framework_of (basename : string) : option StackValue :=
  match Types.assoc basename FRAMEWORK_FILES with
  | Some framework => Some (Str framework)
  | None => if inherited basename then Some (Proto basename) else None
  end.

(** [path.split("/").pop() ?? ""]. *)
Definition basename_of (p : string) : string :=
  default EmptyString (last (split "/" p)).

(** [bytes / total > 0.05], in exact arithmetic. *)
Definition above_threshold (bytes total : Z) : bool :=
  negb (Qle_bool (inject_Z bytes / inject_Z total) 0.05).

Section TheCollectors.

Variable C : Type.

(** [client.get] on the three endpoints the collectors read, and
    [client.getFileContent(owner, repo, path)]. *)
Variable get_commits :
  string -> C -> Completion (Client.GitHubResponse (list CommitResponse)) * C.
Variable get_runs :
  string -> C -> Completion (Client.GitHubResponse WorkflowRunsResponse) * C.
Variable get_languages :
  string -> C -> Completion (Client.GitHubResponse LanguagesResponse) * C.
Variable getFileContent :
  string -> string -> string -> C -> Completion (option string) * C.

(** The built-ins [Date.parse] and [Number], the clock read by
    [new Date()], and the text [String] gives for a value inherited
    from [Object.prototype]. [compareSemver] uses the numbers that
    [Number] returns only through their order (whether two differ, and
    the sign of their difference), so they are read as integers. *)
Variable Date_parse : string -> jsnum.
Variable Number : string -> jsnum.
Variable now : Z.
Variable inherited_text : string -> string.

Definition repos (owner repo rest : string) : string :=
  "/repos/" +:+ owner +:+ "/" +:+ repo +:+ rest.

Definition collectLastActivity (owner repo : string)
    : M C LastActivity :=
  try_catch
    (response ← call (get_commits (repos owner repo "/commits?per_page=1"));
     match Client.data response with
     | [] =>
         push "No commits found";;
         mret {| last_verified_activity := None |}
     | first :: _ =>
         let commitDate := commit_author_date first in
         if negb (truthy (Some commitDate))
         then mret {| last_verified_activity := None |}
         else mret {| last_verified_activity :=
                        Some (substring 0 10 commitDate) |}
     end)
    (fun error =>
       match error with
       | GitHubErr e =>
           if (Client.status e =? 409)%Z then
             push "Empty repository";;
             mret {| last_verified_activity := None |}
           else
             push ("Could not fetch commits: " +:+ Client.message e);;
             mret {| last_verified_activity := None |}
       | OtherError _ => throw error
       end).

Definition is_test_file (entry : TreeEntry) : bool :=
  if negb (String.eqb (type entry) "blob") then false
  else
    let ext := getExtension (path entry) in
    if negb (Types.has CODE_EXTENSIONS ext) && negb (endsWith ext ".daml")
    then false
    else existsb (fun p => p (path entry)) TEST_FILE_PATTERNS.

Definition collectTests (tree : list TreeEntry) (truncated : bool)
    : M C Tests :=
  if (length tree =? 0)%nat
  then mret {| has_tests := None; test_count := None |}
  else
    let testFiles := List.filter is_test_file tree in
    if (length testFiles =? 0)%nat
    then mret {| has_tests := Some false; test_count := None |}
    else if truncated then
      push "Test count may be incomplete due to large repo";;
      mret {| has_tests := Some true; test_count := None |}
    else
      push ("Found " +:+ string_of_nat (length testFiles)
            +:+ " test files (approximate count)");;
      mret {| has_tests := Some true;
              test_count := Some (length testFiles) |}.

(** [Math.floor((now - updatedAt) / (1000 * 60 * 60 * 24))]; NaN when
    [updated_at] is not a date. *)
Definition daysSince (updated_at_ : string) : jsnum :=
  match Date_parse updated_at_ with
  | Some updatedAt => Some ((now - updatedAt) / JsDate.MS_PER_DAY)%Z
  | None => None
  end.

(** [n > bound]. *)
Definition exceeds (n : jsnum) (bound : Z) : bool :=
  match n with Some z => (bound <? z)%Z | None => false end.

Definition status_of_conclusion (conclusion_ : string) : CiStatus :=
  if String.eqb conclusion_ "success" then passing
  else if String.eqb conclusion_ "failure" then failing
  else unknown.

(** The filter that selects [ciFiles]. *)
Definition is_ci_file (e : TreeEntry) : bool :=
  String.eqb (type e) "blob"
  && existsb (fun p => p (path e)) CI_CONFIG_PATTERNS.

Definition hasGitHubActions (ciFiles : list TreeEntry) : bool :=
  existsb (fun f => startsWith (path f) ".github/workflows/") ciFiles.

Definition collectCi (owner repo : string) (tree : list TreeEntry)
    : M C Ci :=
  if (length tree =? 0)%nat
  then mret {| has_ci := None; ci_status := None |}
  else
    let ciFiles := List.filter is_ci_file tree in
    if (length ciFiles =? 0)%nat
    then mret {| has_ci := Some false; ci_status := None |}
    else
      if negb (hasGitHubActions ciFiles) then
        push "Non-GitHub CI detected; status unknown";;
        mret {| has_ci := Some true; ci_status := Some unknown |}
      else
        try_catch
          (response ← call (get_runs
               (repos owner repo "/actions/runs?per_page=1&status=completed"));
           match workflow_runs (Client.data response) with
           | [] => mret {| has_ci := Some true; ci_status := Some unknown |}
           | run :: _ =>
               if exceeds (daysSince (updated_at run)) STALE_CI_DAYS then
                 push ("Last CI run was "
                       +:+ match daysSince (updated_at run) with
                           | Some d => string_of_Z d
                           | None => "NaN"
                           end
                       +:+ " days ago (stale)");;
                 mret {| has_ci := Some true; ci_status := Some stale |}
               else
                 mret {| has_ci := Some true;
                         ci_status :=
                           Some (status_of_conclusion (conclusion run)) |}
           end)
          (fun error =>
             match error with
             | GitHubErr e =>
                 push ("Could not fetch CI runs: " +:+ Client.message e)
             | OtherError _ => mret tt
             end;;
             mret {| has_ci := Some true; ci_status := Some unknown |}).

(** [pa[i] ?? 0]. *)
Definition component (parts : list jsnum) (i : nat) : jsnum :=
  match parts !! i with
  | Some n => n
  | None => Some 0%Z
  end.

(** [na !== nb] on numbers: NaN differs from everything. *)
Definition differ (na nb : jsnum) : bool :=
  match na, nb with
  | Some x, Some y => negb (x =? y)%Z
  | _, _ => true
  end.

(** [na - nb]. *)
Definition minus (na nb : jsnum) : jsnum :=
  match na, nb with
  | Some x, Some y => Some (x - y)%Z
  | _, _ => None
  end.

Definition compareSemver (a b : string) : jsnum :=
  let pa := map Number (split "." a) in
  let pb := map Number (split "." b) in
  let step i otherwise :=
    let na := component pa i in
    let nb := component pb i in
    if differ na nb then minus na nb else otherwise in
  step 0 (step 1 (step 2 (Some 0%Z))).

(** The order [versions.sort(compareSemver)] sorts by. *)
Definition semver_in_order (a b : string) : bool :=
  negb (exceeds (compareSemver a b) 0).

(** The ordering of the specification, written without the code's
    comparison. Dots separate a version into pieces that hold no dot;
    the first three pieces are read as numbers, a missing one as 0, and
    the triples of numbers are compared lexicographically. A version
    one of whose first three pieces is not a number has no triple, and
    stands in no order to any version. *)
Definition dot_free (piece : string) : Prop :=
  "."%char ∉ list_ascii_of_string piece.

Definition dot_separated (v : string) (pieces : list string) : Prop :=
  pieces <> [] /\ Forall dot_free pieces /\ v = String.concat "." pieces.

Definition piece_number (pieces : list string) (i : nat) : jsnum :=
  match pieces !! i with
  | Some piece => Number piece
  | None => Some 0%Z
  end.

Definition version_triple (v : string) (t : Z * Z * Z) : Prop :=
  exists pieces,
    dot_separated v pieces
    /\ piece_number pieces 0 = Some t.1.1
    /\ piece_number pieces 1 = Some t.1.2
    /\ piece_number pieces 2 = Some t.2.

Definition numeric (v : string) : Prop := exists t, version_triple v t.

Definition triple_le (x y : Z * Z * Z) : Prop :=
  (x.1.1 < y.1.1 \/
   (x.1.1 = y.1.1 /\ (x.1.2 < y.1.2 \/ (x.1.2 = y.1.2 /\ x.2 <= y.2))))%Z.

Definition semver_le (a b : string) : Prop :=
  exists ta tb,
    version_triple a ta /\ version_triple b tb /\ triple_le ta tb.

(** The paths of the daml.yaml files below the root. *)
Definition damlYamls (tree : list TreeEntry) : list string :=
  map path
      (List.filter
         (fun e => String.eqb (type e) "blob"
                   && endsWith (path e) "/daml.yaml")
         tree).

(** The loop over the daml.yaml files of the tree: a file that has
    content in which a version is found adds that version. *)
Fixpoint scan_versions (owner repo : string) (damlYamls : list string)
    (versions : list string) : M C (list string) :=
  match damlYamls with
  | [] => mret versions
  | p :: rest =>
      fileContent ← call (getFileContent owner repo p);
      scan_versions owner repo rest
        (match found_version fileContent with
         | Some v => versions ++ [v]
         | None => versions
         end)
  end.

Definition collectSdkVersion (owner repo : string) (tree : list TreeEntry)
    : M C SdkVersion :=
  content ← call (getFileContent owner repo "daml.yaml");
  if truthy content then
    let version := parseSdkVersion (default EmptyString content) in
    if truthy version
    then mret {| canton_sdk_version := version |}
    else
      push "Could not parse daml.yaml";;
      mret {| canton_sdk_version := None |}
  else
    if (length (damlYamls tree) =? 0)%nat
    then mret {| canton_sdk_version := None |}
    else
      versions ← scan_versions owner repo (damlYamls tree) [];
      if (length versions =? 0)%nat then
        push "Could not parse any daml.yaml files";;
        mret {| canton_sdk_version := None |}
      else
        (if (1 <? length versions)%nat
            && (1 <? length (unique versions))%nat
         then push ("Multiple SDK versions detected: "
                    +:+ join ", " (unique versions))
         else mret tt);;
        mret {| canton_sdk_version :=
                  last (sort semver_in_order versions) |}.

(** [String(v)]. *)
Definition text (v : StackValue) : string :=
  match v with
  | Str s => s
  | Proto name => inherited_text name
  end.

(** The order [sort()] without a comparator sorts by: the texts,
    compared code unit by code unit. *)
Definition text_in_order (x y : StackValue) : bool :=
  negb (String.ltb (text y) (text x)).

(** The languages above the threshold, in the order of the response. *)
Definition add_languages (languages : LanguagesResponse)
    : list StackValue :=
  let total := fold_left Z.add (map snd languages) 0%Z in
  if (0 <? total)%Z then
    fold_left
      (fun stack entry =>
         if above_threshold entry.2 total
         then stack_add (Str entry.1) stack
         else stack)
      languages []
  else [].

(** The loop over the tree that adds the frameworks. *)
Definition add_frameworks (tree : list TreeEntry)
    (stack : list StackValue) : list StackValue :=
  fold_left
    (fun stack entry =>
       if negb (String.eqb (type entry) "blob") then stack
       else match framework_of (basename_of (path entry)) with
            | Some framework => stack_add framework stack
            | None => stack
            end)
    tree stack.

(** The set is only added to after the languages call has answered, so
    the [try] block is read as yielding the languages it adds. *)
Definition collectTechStack (owner repo : string) (tree : list TreeEntry)
    : M C TechStack :=
  stack ← try_catch
    (response ← call (get_languages (repos owner repo "/languages"));
     mret (add_languages (Client.data response)))
    (fun error =>
       match error with
       | GitHubErr e =>
           push ("Could not fetch languages: " +:+ Client.message e)
       | OtherError _ => mret tt
       end;;
       mret []);
  mret {| tech_stack := sort text_in_order (add_frameworks tree stack) |}.

End TheCollectors.

End Collect.

(** ** data/schema.json

    The JSON schema that [createValidator] compiles is not among the
    sources; the validator takes what [createValidator] returns as a
    parameter, and this module gives one such function to run it
    with. *)

Module Schema.
Import Types Js Validate.

Definition one_of (allowed : list string) (s : string) : bool :=
  bool_decide (s ∈ allowed).

Definition is_date (s : string) : bool :=
  match JsDate.parse_date s with Some _ => true | None => false end.

Definition is_date_time (s : string) : bool :=
  negb (String.length s =? 10)%nat && negb (isNaN (JsDate.Date_parse s)).

Definition when (failed : bool) (path message : string) : list string :=
  if failed then [path +:+ ": " +:+ message] else [].

Definition optional (check : string -> bool) (o : option string) : bool :=
  match o with Some s => check s | None => true end.

(** Modelled from the spec: data/schema.json is missing; this is the
    structural conformance of one record that the specification
    describes. [project_id] matches the identifier pattern,
    [description] has at most 280 characters, [category] is non-empty
    and drawn from the category enumeration, the string unions of the
    interface hold one of their members, [test_count] is not negative,
    the date-only fields are calendar dates and the timestamp fields
    are date-times. Errors are rendered the way [createValidator]
    renders them, instance path first. *)
Definition record_errors (at_ : string) (p : ObservatoryProject)
    : list string :=
  when (negb (id_pattern_test (project_id p)))
       (at_ +:+ "/project_id") "must match pattern"
  ++ when (280 <? String.length (description p))%nat
       (at_ +:+ "/description") "must NOT have more than 280 characters"
  ++ when (length (category p) =? 0)%nat
       (at_ +:+ "/category") "must NOT have fewer than 1 items"
  ++ when (negb (forallb (one_of VALID_CATEGORIES) (category p)))
       (at_ +:+ "/category") "must be equal to one of the allowed values"
  ++ when (negb (one_of ["super_validator"; "validator"; "app_provider";
                         "none"] (validator_status p)))
       (at_ +:+ "/validator_status")
       "must be equal to one of the allowed values"
  ++ when (negb (one_of ["production"; "testnet"; "development";
                         "inactive"; "unknown"] (status p)))
       (at_ +:+ "/status") "must be equal to one of the allowed values"
  ++ when (negb (forallb (one_of ["mainnet"; "devnet"]) (network p)))
       (at_ +:+ "/network") "must be equal to one of the allowed values"
  ++ when (negb (optional (one_of ["passing"; "failing"; "stale";
                                   "unknown"]) (ci_status p)))
       (at_ +:+ "/ci_status") "must be equal to one of the allowed values"
  ++ when (match test_count p with
           | Some n => (n <? 0)%Z
           | None => false
           end)
       (at_ +:+ "/test_count") "must be >= 0"
  ++ when (negb (optional is_date (last_verified_activity p)))
       (at_ +:+ "/last_verified_activity") "must match format date"
  ++ when (negb (optional is_date (launch_date p)))
       (at_ +:+ "/launch_date") "must match format date"
  ++ when (negb (optional is_date (onchain_since p)))
       (at_ +:+ "/onchain_since") "must match format date"
  ++ when (negb (is_date_time (created_at p)))
       (at_ +:+ "/created_at") "must match format date-time"
  ++ when (negb (is_date_time (updated_at p)))
       (at_ +:+ "/updated_at") "must match format date-time"
  ++ when (negb (optional is_date_time (claimed_at p)))
       (at_ +:+ "/claimed_at") "must match format date-time"
  ++ when (negb (optional is_date_time (last_auto_refresh p)))
       (at_ +:+ "/last_auto_refresh") "must match format date-time".

Fixpoint records_errors (i : nat) (projects : list ObservatoryProject)
    : list string :=
  match projects with
  | [] => []
  | p :: rest =>
      record_errors ("/" +:+ string_of_nat i) p
      ++ records_errors (S i) rest
  end.

(** Modelled from the spec: data/schema.json is missing; a dataset is
    a sequence of records, so anything else is an error at the root. *)
Definition schema_errors (data : Data) : list string :=
  match data with
  | NotArray _ => ["(root): must be array"]
  | Projects projects => records_errors 0 projects
  end.

(** Modelled from the spec: the function [createValidator] would
    return for that schema, valid exactly when there is no error. *)
Definition schemaValidate (data : Data) : ValidationResult :=
  match schema_errors data with
  | [] => {| valid := true; errors := [] |}
  | errs => {| valid := false; errors := errs |}
  end.

End Schema.

(** ** Test fixtures (tests/validate-data.test.ts) *)

Module Fixtures.
Import Types.

(** [makeMinimalProject] with [project_id] and [partnerships]
    overridden. *)
Definition minimalProject (id : string) (partners : list string)
    : ObservatoryProject :=
  {| project_id := id;
     display_name := "Test Project";
     entity_name := None;
     entity_jurisdiction := None;
     foundation_member := false;
     validator_status := "none";
     website_url := None;
     contact_url := None;
     description := "A test project";
     category := ["developer-tools"];
     partnerships := partners;
     status := "unknown";
     network := [];
     canton_sdk_version := None;
     last_verified_activity := None;
     launch_date := None;
     featured_app := None;
     open_source := false;
     repo_url := None;
     license_type := None;
     security_audit := None;
     has_tests := None;
     test_count := None;
     has_ci := None;
     ci_status := None;
     has_documentation := false;
     documentation_url := None;
     tech_stack := [];
     tx_count_30d := None;
     tx_count_90d := None;
     unique_parties_30d := None;
     cc_burned_30d := None;
     featured_markers_30d := None;
     onchain_since := None;
     created_at := "2025-01-01T00:00:00Z";
     updated_at := "2025-01-01T00:00:00Z";
     claimed := false;
     claimed_by := None;
     claimed_at := None;
     data_confidence :=
       [ ("display_name", Some verified);
         ("entity_name", None);
         ("entity_jurisdiction", None);
         ("foundation_member", Some verified);
         ("validator_status", Some verified);
         ("website_url", None);
         ("contact_url", None);
         ("description", Some verified);
         ("status", Some verified);
         ("network", None);
         ("canton_sdk_version", None);
         ("last_verified_activity", None);
         ("launch_date", None);
         ("featured_app", None);
         ("open_source", Some verified);
         ("repo_url", None);
         ("license_type", None);
         ("security_audit", None);
         ("has_tests", None);
         ("test_count", None);
         ("has_ci", None);
         ("ci_status", None);
         ("has_documentation", Some verified);
         ("documentation_url", None);
         ("tech_stack", None);
         ("tx_count_30d", None);
         ("tx_count_90d", None);
         ("unique_parties_30d", None);
         ("cc_burned_30d", None);
         ("featured_markers_30d", None);
         ("onchain_since", None) ];
     last_auto_refresh := None;
     notes := None |}.

Definition makeMinimalProject : ObservatoryProject :=
  minimalProject "test-project" [].

(** The validator run with the schema and the date parser of this
    development. *)
Definition validate : Validate.Data -> Validate.ValidationResult :=
  Validate.validateDataset Schema.schemaValidate JsDate.Date_parse.

(** *** The mock client of the collector tests: it has no state, and
    answers each call from a table. *)

Definition respond_with {T} (d : T)
    : Collect.Completion (Client.GitHubResponse T) :=
  Collect.Normal
    {| Client.data := d; Client.response_status := 200%Z;
       Client.rateLimit := {| Client.remaining := Some 4999%Z;
                              Client.reset := Some 0%Z |} |}.

Definition fail_with {T} (st : Z) (msg : string)
    : Collect.Completion (Client.GitHubResponse T) :=
  Collect.Throws
    (Collect.GitHubErr {| Client.status := st; Client.message := msg;
                          Client.retryable := false |}).

Definition answering {A} (answer : Collect.Completion A)
    : string -> unit -> Collect.Completion A * unit :=
  fun _ c => (answer, c).

Definition serving (files : list (string * string))
    : string -> string -> string -> unit
      -> Collect.Completion (option string) * unit :=
  fun _ _ p c => (Collect.Normal (assoc p files), c).

(** [Number] on a run of decimal digits (the empty string is 0), NaN
    elsewhere: the built-in as far as the examples need it. *)
Definition decimal_Number (s : string) : Js.jsnum :=
  match s with
  | EmptyString => Some 0%Z
  | _ => JsDate.decimal s
  end.

Definition native_code (name : string) : string :=
  "function " +:+ name +:+ "() { [native code] }".

Definition blob (p : string) : Collect.TreeEntry :=
  {| Collect.path := p; Collect.type := "blob"; Collect.size := None |}.

(** A line feed. *)
Definition nl : string := String "010" EmptyString.

Definition workflow : list Collect.TreeEntry :=
  [blob ".github/workflows/ci.yml"].

Definition run_on (day conclusion_ : string)
    : Collect.Completion
        (Client.GitHubResponse Collect.WorkflowRunsResponse) :=
  respond_with
    {| Collect.workflow_runs :=
         [{| Collect.conclusion := conclusion_;
             Collect.updated_at := day |}] |}.

Definition start : Collect.World unit :=
  {| Collect.client := tt; Collect.notes := [] |}.

End Fixtures.

(** ** utils/confidence.ts: building a confidence map *)

Module ConfidenceMap.
Import Types Confidence.

(** [existingConfidence?.[key]] when it is truthy, that is a tier. The
    keys it is asked for are the project's own field names. *)
Definition existing_tier
    (existingConfidence : option (list (string * option ConfidenceTier)))
    (key : string) : option ConfidenceTier :=
  match existingConfidence with
  | Some m =>
      match assoc key m with
      | Some (Some existing) => Some existing
      | _ => None
      end
  | None => None
  end.

(** The loop of [buildConfidenceMap] over [Object.keys(record)], for
    the properties of the record in the order in which the object
    lists them; the entries of the result are in the order in which
    their keys are assigned. *)
Definition confidence_entries (record : list (string * jsval))
    (existingConfidence : option (list (string * option ConfidenceTier)))
    : list (string * option ConfidenceTier) :=
  flat_map
    (fun property =>
       let key := property.1 in
       let value := property.2 in
       if has OBSERVATORY_MANAGED_FIELDS key then []
       else if is_null value then [(key, None)]
       else
         match existing_tier existingConfidence key with
         | Some existing => [(key, Some existing)]
         | None =>
             [(key, assignTier key false (defaultSourceForField key))]
         end)
    record.

(** [buildConfidenceMap], for a project whose properties were assigned
    in the order of the interface. *)
Definition buildConfidenceMap (project : ObservatoryProject)
    (existingConfidence : option (list (string * option ConfidenceTier)))
    : list (string * option ConfidenceTier) :=
  confidence_entries (own_properties project) existingConfidence.

(** [{ ...project, data_confidence: confidence }]. *)
Definition with_confidence (project : ObservatoryProject)
    (confidence : list (string * option ConfidenceTier))
    : ObservatoryProject :=
  {| project_id := project_id project;
     display_name := display_name project;
     entity_name := entity_name project;
     entity_jurisdiction := entity_jurisdiction project;
     foundation_member := foundation_member project;
     validator_status := validator_status project;
     website_url := website_url project;
     contact_url := contact_url project;
     description := description project;
     category := category project;
     partnerships := partnerships project;
     status := status project;
     network := network project;
     canton_sdk_version := canton_sdk_version project;
     last_verified_activity := last_verified_activity project;
     launch_date := launch_date project;
     featured_app := featured_app project;
     open_source := open_source project;
     repo_url := repo_url project;
     license_type := license_type project;
     security_audit := security_audit project;
     has_tests := has_tests project;
     test_count := test_count project;
     has_ci := has_ci project;
     ci_status := ci_status project;
     has_documentation := has_documentation project;
     documentation_url := documentation_url project;
     tech_stack := tech_stack project;
     tx_count_30d := tx_count_30d project;
     tx_count_90d := tx_count_90d project;
     unique_parties_30d := unique_parties_30d project;
     cc_burned_30d := cc_burned_30d project;
     featured_markers_30d := featured_markers_30d project;
     onchain_since := onchain_since project;
     created_at := created_at project;
     updated_at := updated_at project;
     claimed := claimed project;
     claimed_by := claimed_by project;
     claimed_at := claimed_at project;
     data_confidence := confidence;
     last_auto_refresh := last_auto_refresh project;
     notes := notes project |}.

(** The tier of a field's default source, in the words of the field
    sets: auto-detected fields are [auto_detected], manually verified
    ones [verified], all others [self_reported]. *)
Definition default_tier (key : string) : ConfidenceTier :=
  if has AUTO_DETECTED_FIELDS key then auto_detected
  else if has MANUALLY_VERIFIED_FIELDS key then verified
  else self_reported.

End ConfidenceMap.

(** ** utils/github-client.ts: file contents and repository URLs *)

Module ClientMore.
Import Js Client.

(** The time a trace spends asleep, in milliseconds. *)
Definition slept (trace : list Event) : Z :=
  fold_right Z.add 0%Z
    (flat_map (fun e => match e with Sleep _ ms => [ms] | Request => [] end)
              trace).

(** The responses among the outcomes of the first [n] fetches. *)
Definition received {T} (responses : nat -> FetchOutcome T) (n : nat)
    : list (Response T) :=
  flat_map
    (fun k => match responses k with
              | Responded r => [r]
              | Rejected _ => []
              end)
    (seq 0 n).

(** The body of a contents response. *)
Record FileContent := { content : string; encoding : string }.

Section GetFileContent.

Variable responses : nat -> FetchOutcome FileContent.
Variable now : nat -> Z.

(** [Buffer.from(content, "base64").toString("utf-8")]. *)
Variable decode_base64 : string -> string.

(** [getFileContent]: one [get] of the contents path; a 404 is the
    answer null, any other error is thrown on. What [get] throws is
    always a [GitHubError]. *)
Definition getFileContent (lastRateLimit : RateLimit)
    : (option string + GitHubError) * RateLimit * list Event :=
  let '(outcome, last, trace) := get responses now lastRateLimit in
  (match outcome with
   | Returned response =>
       if String.eqb (encoding (data response)) "base64"
       then inl (Some (decode_base64 (content (data response))))
       else inl (Some (content (data response)))
   | Thrown error =>
       if (status error =? 404)%Z then inl None else inr error
   end,
   last, trace).

End GetFileContent.

(** [/github\.com\/([^/]+)\/([^/]+?)(?:\.git)?(?:\/|$)/]. *)
Definition is_slash (c : ascii) : bool := Ascii.eqb c "/".

(** The longest run of characters other than [/] that starts [s], and
    what follows it. *)
Fixpoint segment (s : string) : string * string :=
  match s with
  | EmptyString => (EmptyString, EmptyString)
  | String c s' =>
      if is_slash c then (EmptyString, s)
      else let '(run, rest) := segment s' in (String c run, rest)
  end.

(** [(?:\/|$)]. *)
Definition ends_component (s : string) : bool :=
  match s with
  | EmptyString => true
  | String c _ => is_slash c
  end.

(** [(?:\.git)?(?:\/|$)]. *)
Definition ends_repo (s : string) : bool :=
  (startsWith s ".git" && ends_component (drop_chars 4 s))
  || ends_component s.

(** [([^/]+?)] followed by [(?:\.git)?(?:\/|$)]: the shortest non-empty
    run of characters other than [/] after which the rest of the
    pattern matches. *)
Fixpoint lazy_repo (s : string) : option string :=
  match s with
  | EmptyString => None
  | String c s' =>
      if is_slash c then None
      else if ends_repo s' then Some (String c EmptyString)
      else option_map (String c) (lazy_repo s')
  end.

(** The pattern tried at the start of [s]. *)
Definition repo_url_at (s : string) : option (string * string) :=
  if startsWith s "github.com/" then
    match segment (drop_chars 11 s) with
    | (String c owner, String _ rest) =>
        option_map (pair (String c owner)) (lazy_repo rest)
    | _ => None
    end
  else None.

(** [parseRepoUrl]: the leftmost match. *)
Fixpoint parseRepoUrl (url : string) : option (string * string) :=
  match repo_url_at url with
  | Some found => Some found
  | None =>
      match url with
      | EmptyString => None
      | String _ url' => parseRepoUrl url'
      end
  end.

(** [repo] without a final [.git], unless that is all of it. *)
Definition without_git (repo : string) : string :=
  if endsWith repo ".git" && (4 <? String.length repo)%nat
  then substring 0 (String.length repo - 4) repo
  else repo.

End ClientMore.

(** ** More of the built-in strings *)

Module JsMore.
Import Js.

(** [toLowerCase] on one code unit below 256: the letters [A] to [Z],
    and the capital letters of Latin-1, [À] to [Þ] without [×]. *)
Definition lower (c : ascii) : ascii :=
  if in_range "A" "Z" c
     || (((192 <=? code c) && (code c <=? 222))%N
         && negb (code c =? 215)%N)
  then ascii_of_N (code c + 32)
  else c.

Fixpoint toLowerCase (s : string) : string :=
  match s with
  | EmptyString => EmptyString
  | String c s' => String (lower c) (toLowerCase s')
  end.

(** [s.replace(/^-|-$/g, "")]: a hyphen at the start goes, and a
    hyphen at the end of what is left. *)
Definition strip_leading (s : string) : string :=
  match s with
  | String c s' => if Ascii.eqb c "-" then s' else s
  | EmptyString => EmptyString
  end.

Fixpoint strip_trailing (s : string) : string :=
  match s with
  | EmptyString => EmptyString
  | String c s' =>
      match s' with
      | EmptyString => if Ascii.eqb c "-" then EmptyString else s
      | String _ _ => String c (strip_trailing s')
      end
  end.

Definition strip_hyphens (s : string) : string :=
  strip_trailing (strip_leading s).

(** A string of lower-case letters, digits and hyphens in which no
    hyphen follows a hyphen; [after_hyphen] says that it stands after
    one. *)
Fixpoint hyphenated (after_hyphen : bool) (s : string) : bool :=
  match s with
  | EmptyString => true
  | String c s' =>
      if Ascii.eqb c "-" then negb after_hyphen && hyphenated true s'
      else Validate.is_id_char c && hyphenated false s'
  end.

End JsMore.

(** ** collect-github.ts: licence and documentation *)

Module CollectMore.
Import Js JsMore Collect.

Record LicenseResponse := { license_spdx_id : string }.

Record RepoResponse := {
  archived : bool;
  has_pages : bool;
  default_branch : string;
  fork : bool;
}.

(** The contents response, as far as [collectDocumentation] reads it. *)
Record FileContentResponse := { file_size : Z }.

Record License := { license_type : option string }.

Record Documentation := {
  has_documentation : bool;
  documentation_url : option string;
}.

(** The filter that selects [docsFiles]. *)
Definition is_docs_file (e : TreeEntry) : bool :=
  String.eqb (type e) "blob"
  && startsWith (path e) "docs/"
  && (endsWith (path e) ".md" || endsWith (path e) ".html"
      || endsWith (path e) ".rst")
  && negb (endsWith (path e) ".gitkeep").

Definition is_readme (e : TreeEntry) : bool :=
  String.eqb (type e) "blob"
  && String.eqb (toLowerCase (path e)) "readme.md".

(** [/^(openapi|swagger)\.(ya?ml|json)$/]. *)
Definition is_api_spec (e : TreeEntry) : bool :=
  String.eqb (type e) "blob"
  && existsb (String.eqb (path e))
       [ "openapi.yaml"; "openapi.yml"; "openapi.json";
         "swagger.yaml"; "swagger.yml"; "swagger.json" ].

Section MoreCollectors.

Variable C : Type.

Variable get_license :
  string -> C -> Completion (Client.GitHubResponse LicenseResponse) * C.
Variable get_contents :
  string -> C -> Completion (Client.GitHubResponse FileContentResponse) * C.

Definition collectLicense (owner repo : string) : M C License :=
  try_catch
    (response ← call (get_license (repos owner repo "/license"));
     let spdxId := license_spdx_id (Client.data response) in
     if String.eqb spdxId "NOASSERTION"
     then mret {| license_type := Some "Custom" |}
     else mret {| license_type := Some spdxId |})
    (fun error =>
       match error with
       | GitHubErr e =>
           if (Client.status e =? 404)%Z then
             push "No license detected";;
             mret {| license_type := None |}
           else
             push ("Could not fetch license: " +:+ Client.message e);;
             mret {| license_type := None |}
       | OtherError _ => throw error
       end).

(** The README check: whether it ends the search. An error of the
    request, of whatever kind, is dropped. *)
Definition readme_is_long (owner repo : string) (tree : list TreeEntry)
    : M C bool :=
  match List.find is_readme tree with
  | Some _ =>
      try_catch
        (response ← call (get_contents
                            (repos owner repo "/contents/README.md"));
         mret (500 <? file_size (Client.data response))%Z)
        (fun _ => mret false)
  | None => mret false
  end.

Definition collectDocumentation (owner repo : string)
    (tree : list TreeEntry) (repoMeta : option RepoResponse)
    : M C Documentation :=
  if (length tree =? 0)%nat
  then mret {| has_documentation := false; documentation_url := None |}
  else if (0 <? length (List.filter is_docs_file tree))%nat
  then mret {| has_documentation := true; documentation_url := None |}
  else
    long ← readme_is_long owner repo tree;
    if (long : bool)
    then mret {| has_documentation := true; documentation_url := None |}
    else if (0 <? length (List.filter is_api_spec tree))%nat
    then mret {| has_documentation := true; documentation_url := None |}
    else if match repoMeta with
            | Some meta => has_pages meta
            | None => false
            end
    then mret {| has_documentation := true;
                 documentation_url :=
                   Some ("https://" +:+ owner +:+ ".github.io/" +:+ repo) |}
    else mret {| has_documentation := false; documentation_url := None |}.

End MoreCollectors.

End CollectMore.

(** ** migrate-ecosystem.ts and migrate-canton-network.ts *)

Module Migrate.
Import Js JsMore.

(** [interface EcosystemProject]. *)
Record EcosystemProject := {
  name : string;
  description : string;
  category : string;
  url : option string;
  github : option string;
  status : string;
  openSource : bool;
  cantonFoundry : bool;
  stack : list string;
  relatedTo : list string;
  installCommand : option string;
  mcpConfig : option string;
  addedDate : string;
  featuredApp : option bool;
}.

Definition CATEGORY_MAP : list (string * string) :=
  [ ("DeFi", "defi"); ("DEX", "dex"); ("Lending", "lending");
    ("Tokenization", "tokenization"); ("Wallets", "wallets");
    ("DevTools", "devtools"); ("Analytics", "analytics");
    ("Infrastructure", "infrastructure"); ("Bridges", "bridges");
    ("AI", "ai"); ("Payments", "payments"); ("Identity", "identity");
    ("NaaS", "naas") ].

(** [s.replace(/[^a-z0-9]+/g, "-")]: every run of other characters
    becomes one hyphen; [in_run] says that the run has begun. *)
Fixpoint hyphenate (in_run : bool) (s : string) : string :=
  match s with
  | EmptyString => EmptyString
  | String c s' =>
      if Validate.is_id_char c then String c (hyphenate false s')
      else if in_run then hyphenate true s'
      else String "-" (hyphenate true s')
  end.

Definition slugify (name_ : string) : string :=
  strip_hyphens (hyphenate false (toLowerCase name_)).

(** [mapCategory]. For the name of a property of [Object.prototype]
    the lookup [CATEGORY_MAP[cat]] finds a value that is truthy and no
    string: no category, [None] here. *)
Definition mapCategory (cat : string) : option string :=
  match Types.assoc cat CATEGORY_MAP with
  | Some mapped => Some mapped
  | None => if inherited cat then None else Some "infrastructure"
  end.

(** [confidence[key] = tier] for a key the map has. *)
Definition set_tier (key : string) (tier : option Types.ConfidenceTier)
    (confidence : list (string * option Types.ConfidenceTier))
    : list (string * option Types.ConfidenceTier) :=
  map (fun entry => if String.eqb entry.1 key then (key, tier) else entry)
      confidence.

(** [convertProject], where its result is an [ObservatoryProject]:
    for a category that [mapCategory] maps to a string. *)
Definition convertProject (src : EcosystemProject) (now : string)
    : option Types.ObservatoryProject :=
  let projectId := slugify (name src) in
  category_ ← mapCategory (category src);
  let isFeatured :=
    match featuredApp src with Some true => true | _ => false end in
  let self_reported_if (condition : bool) :=
    if condition then Some Types.self_reported else None in
  let verified_if (condition : bool) :=
    if condition then Some Types.verified else None in
  let confidence :=
    [ ("display_name", Some Types.verified);
      ("entity_name", None);
      ("entity_jurisdiction", None);
      ("foundation_member", Some Types.verified);
      ("validator_status", Some Types.verified);
      ("website_url", self_reported_if (Collect.truthy (url src)));
      ("contact_url", None);
      ("description", Some Types.self_reported);
      ("status", Some Types.self_reported);
      ("network", None);
      ("canton_sdk_version", None);
      ("last_verified_activity", None);
      ("launch_date", None);
      ("featured_app", verified_if isFeatured);
      ("open_source", Some Types.verified);
      ("repo_url", verified_if (Collect.truthy (github src)));
      ("license_type", None);
      ("security_audit", None);
      ("has_tests", None);
      ("test_count", None);
      ("has_ci", None);
      ("ci_status", None);
      ("has_documentation", Some Types.self_reported);
      ("documentation_url", None);
      ("tech_stack", self_reported_if (0 <? length (stack src))%nat);
      ("tx_count_30d", None);
      ("tx_count_90d", None);
      ("unique_parties_30d", None);
      ("cc_burned_30d", None);
      ("featured_markers_30d", None);
      ("onchain_since", None) ] in
  let confidence :=
    match featuredApp src with
    | Some false => set_tier "featured_app" (Some Types.verified) confidence
    | _ => confidence
    end in
  Some
  {| Types.project_id := projectId;
     Types.display_name := name src;
     Types.entity_name := None;
     Types.entity_jurisdiction := None;
     Types.foundation_member := false;
     Types.validator_status := "none";
     Types.website_url := url src;
     Types.contact_url := None;
     Types.description := substring 0 280 (description src);
     Types.category := [category_];
     Types.partnerships := [];
     Types.status := "unknown";
     Types.network := [];
     Types.canton_sdk_version := None;
     Types.last_verified_activity := None;
     Types.launch_date := None;
     Types.featured_app := featuredApp src;
     Types.open_source := openSource src;
     Types.repo_url := github src;
     Types.license_type := None;
     Types.security_audit := None;
     Types.has_tests := None;
     Types.test_count := None;
     Types.has_ci := None;
     Types.ci_status := None;
     Types.has_documentation :=
       match url src with Some _ => true | None => false end;
     Types.documentation_url := None;
     Types.tech_stack := stack src;
     Types.tx_count_30d := None;
     Types.tx_count_90d := None;
     Types.unique_parties_30d := None;
     Types.cc_burned_30d := None;
     Types.featured_markers_30d := None;
     Types.onchain_since := None;
     Types.created_at := now;
     Types.updated_at := now;
     Types.claimed := cantonFoundry src;
     Types.claimed_by :=
       if cantonFoundry src then Some "canton-foundry" else None;
     Types.claimed_at := if cantonFoundry src then Some now else None;
     Types.data_confidence := confidence;
     Types.last_auto_refresh := None;
     Types.notes := None |}.

(** [sanitizeSlug] of the canton.network migration. [replace(/\./g,
    "-")], [replace(/[^a-z0-9-]/g, "")] and [replace(/-{2,}/g, "-")]. *)
Fixpoint dots_to_hyphens (s : string) : string :=
  match s with
  | EmptyString => EmptyString
  | String c s' =>
      String (if Ascii.eqb c "." then "-"%char else c) (dots_to_hyphens s')
  end.

Fixpoint keep_id_chars (s : string) : string :=
  match s with
  | EmptyString => EmptyString
  | String c s' =>
      if Validate.is_id_inner c then String c (keep_id_chars s')
      else keep_id_chars s'
  end.

Fixpoint collapse_hyphens (after_hyphen : bool) (s : string) : string :=
  match s with
  | EmptyString => EmptyString
  | String c s' =>
      if Ascii.eqb c "-"
      then if after_hyphen then collapse_hyphens true s'
           else String c (collapse_hyphens true s')
      else String c (collapse_hyphens false s')
  end.

Definition sanitizeSlug (slug : string) : string :=
  strip_hyphens
    (collapse_hyphens false (keep_id_chars (dots_to_hyphens slug))).

(** A project of the ecosystem directory. *)
Definition example_source : EcosystemProject :=
  {| name := "Canton Foundry (CLI)";
     description := "Developer toolchain";
     category := "DevTools";
     url := Some "https://example.org";
     github := Some "https://github.com/JohnLilic/canton-foundry";
     status := "live";
     openSource := true;
     cantonFoundry := true;
     stack := ["TypeScript"; "Daml"];
     relatedTo := [];
     installCommand := None;
     mcpConfig := None;
     addedDate := "2025-01-01";
     featuredApp := Some false |}.

End Migrate.

(** ** validate-data.ts: arrays whose elements are not records *)

Module ValidateUnknown.
Import Types Js Validate.

(** An element of the array that [validateDataset] is given. The code
    reads every element at the type [ObservatoryProject] without a
    check; of the values that are no such record, [null] and the
    empty object are modelled. *)
Inductive Element :=
| Typed (p : ObservatoryProject)
| Null
| EmptyObject.

(** The argument of [validateDataset]. *)
Inductive Unknown :=
| NotArray (v : NonArray)
| Elements (elements : list Element).

(** How a call ends: it returns, or it throws a [TypeError]. *)
Inductive Outcome (A : Type) :=
| Returns (a : A)
| ThrowsTypeError.
Arguments Returns {A}.
Arguments ThrowsTypeError {A}.

#[global] Instance Outcome_bind : MBind Outcome :=
  fun A B k m =>
    match m with
    | Returns a => k a
    | ThrowsTypeError => ThrowsTypeError
    end.

(** [p.project_id]; [None] is undefined. Reading a property of
    [null] throws. *)
Definition project_id_of (p : Element) : Outcome (option string) :=
  match p with
  | Typed r => Returns (Some (project_id r))
  | Null => ThrowsTypeError
  | EmptyObject => Returns None
  end.

(** The text of a [project_id] in a template literal and as the
    argument of [RegExp.prototype.test]. *)
Definition id_text (id : option string) : string :=
  match id with
  | Some s => s
  | None => "undefined"
  end.

(** A loop over the elements whose body may throw: the errors the
    bodies push, or the first throw, with which the errors pushed
    before are lost. *)
Fixpoint for_each (body : Element -> Outcome (list string))
    (projects : list Element) : Outcome (list string) :=
  match projects with
  | [] => Returns []
  | p :: rest =>
      pushed ← body p;
      more ← for_each body rest;
      Returns (pushed ++ more)
  end.

Fixpoint checkUniqueIds_from (seen : gset (option string))
    (projects : list Element) : Outcome (list string) :=
  match projects with
  | [] => Returns []
  | p :: rest =>
      id ← project_id_of p;
      more ← checkUniqueIds_from ({[ id ]} ∪ seen) rest;
      Returns ((if bool_decide (id ∈ seen)
                then ["Duplicate project_id: " +:+ dq +:+ id_text id +:+ dq]
                else [])
               ++ more)
  end.

Definition checkUniqueIds (projects : list Element)
    : Outcome (list string) :=
  checkUniqueIds_from ∅ projects.

Definition checkIdFormat (projects : list Element)
    : Outcome (list string) :=
  for_each
    (fun p =>
       id ← project_id_of p;
       Returns
         (if negb (id_pattern_test (id_text id))
          then ["Invalid project_id format: " +:+ dq +:+ id_text id +:+ dq
                +:+ " (must be lowercase alphanumeric with hyphens)"]
          else []))
    projects.

(** [projects.map((p) => p.project_id)]. *)
Fixpoint ids_of (projects : list Element)
    : Outcome (list (option string)) :=
  match projects with
  | [] => Returns []
  | p :: rest =>
      id ← project_id_of p;
      more ← ids_of rest;
      Returns (id :: more)
  end.

(** [for (const partner of p.partnerships)]: undefined is not
    iterable. *)
Definition checkPartnershipRefs (projects : list Element)
    : Outcome (list string) :=
  listed ← ids_of projects;
  let ids : gset (option string) := list_to_set listed in
  for_each
    (fun p =>
       match p with
       | Typed r =>
           Returns
             (flat_map
                (fun partner =>
                   if negb (bool_decide (Some partner ∈ ids))
                   then ["Project " +:+ dq +:+ project_id r +:+ dq
                         +:+ " references unknown partnership: "
                         +:+ dq +:+ partner +:+ dq]
                   else [])
                (partnerships r))
       | Null | EmptyObject => ThrowsTypeError
       end)
    projects.

(** [Object.keys(p.data_confidence)] throws when [data_confidence] is
    undefined. *)
Definition checkConfidenceKeys (projects : list Element)
    : Outcome (list string) :=
  for_each
    (fun p =>
       match p with
       | Typed r =>
           Returns (confidence_key_errors r ++ confidence_null_errors r)
       | Null | EmptyObject => ThrowsTypeError
       end)
    projects.

Section Validator.

(** The function [createValidator()] returns, and [Date.parse]. *)
Variable schemaValidate : Unknown -> ValidationResult.
Variable Date_parse : string -> jsnum.

(** A field that is undefined is no string. *)
Definition checkDateFields (projects : list Element)
    : Outcome (list string) :=
  for_each
    (fun p =>
       match p with
       | Typed r =>
           Returns (date_errors Date_parse "date" dateFields r
                    ++ date_errors Date_parse "datetime" datetimeFields r)
       | Null => ThrowsTypeError
       | EmptyObject => Returns []
       end)
    projects.

Definition validateDataset (data : Unknown) : Outcome ValidationResult :=
  let schemaResult := schemaValidate data in
  let allErrors := errors schemaResult in
  match data with
  | NotArray _ => Returns {| valid := false; errors := allErrors |}
  | Elements projects =>
      unique ← checkUniqueIds projects;
      let allErrors := allErrors ++ unique in
      format ← checkIdFormat projects;
      let allErrors := allErrors ++ format in
      refs ← checkPartnershipRefs projects;
      let allErrors := allErrors ++ refs in
      keys ← checkConfidenceKeys projects;
      let allErrors := allErrors ++ keys in
      dates ← checkDateFields projects;
      let allErrors := allErrors ++ dates in
      Returns {| valid := (length allErrors =? 0)%nat;
                 errors := allErrors |}
  end.

End Validator.



(** Modelled from the spec: data/schema.json is missing; the errors of
    the schema for one element, a record being checked as
    [Schema.record_errors] describes and anything else being no
    object of the data model (one error stands for those the schema
    lists). *)
Definition element_errors (at_ : string) (e : Element) : list string :=
  match e with
  | Typed p => Schema.record_errors at_ p
  | Null => [at_ +:+ ": must be object"]
  | EmptyObject => [at_ +:+ ": must have required property 'project_id'"]
  end.

Fixpoint elements_errors (i : nat) (elements : list Element)
    : list string :=
  match elements with
  | [] => []
  | e :: rest =>
      element_errors ("/" +:+ string_of_nat i) e
      ++ elements_errors (S i) rest
  end.

(** Modelled from the spec: data/schema.json is missing; a dataset is
    a sequence of records, so anything else is an error at the root. *)
Definition schema_errors (data : Unknown) : list string :=
  match data with
  | NotArray _ => ["(root): must be array"]
  | Elements elements => elements_errors 0 elements
  end.

(** Modelled from the spec: the function [createValidator] would
    return for that schema, valid exactly when there is no error. *)
Definition schemaValidate (data : Unknown) : ValidationResult :=
  match schema_errors data with
  | [] => {| valid := true; errors := [] |}
  | errs => {| valid := false; errors := errs |}
  end.

End ValidateUnknown.

(** * Properties *)

Module JsFacts.
Import Js JsDate.

Example endsWith_ex : endsWith "src/daml.yaml" "/daml.yaml" = true.
Proof. reflexivity. Qed.
Example split_ex : split "." "2.9.0" = ["2"; "9"; "0"].
Proof. reflexivity. Qed.
Example split_empty_ex : split "." "" = [""].
Proof. reflexivity. Qed.
Example trim_ex : trim "  2.9.0 " = "2.9.0".
Proof. reflexivity. Qed.
Example from_last_ex : from_last "." "a.test.ts" = Some ".ts".
Proof. reflexivity. Qed.
Example string_of_Z_ex : string_of_Z 91 = "91".
Proof. reflexivity. Qed.

Example Date_parse_epoch : Date_parse "1970-01-01" = Some 0%Z.
Proof. reflexivity. Qed.
Example Date_parse_2025 :
  Date_parse "2025-01-01T00:00:00Z" = Some 1735689600000%Z.
Proof. reflexivity. Qed.
Example Date_parse_millis :
  Date_parse "2025-01-01T00:00:01.500Z" = Some 1735689601500%Z.
Proof. reflexivity. Qed.
Example Date_parse_leap : Date_parse "2024-02-29" = Some 1709164800000%Z.
Proof. reflexivity. Qed.
Example Date_parse_not_a_date : Date_parse "not-a-date" = None.
Proof. reflexivity. Qed.

End JsFacts.

(** ** Sorting

    [Js.sort] returns a permutation of its argument; when the comparison
    is total and transitive on the elements, the result is sorted and
    its last element is a greatest one. *)

Module SortFacts.
Import Js.

Section Sort.

Context {A : Type} (in_order : A -> A -> bool) (P : A -> Prop).

Local Abbreviation ordered := (ordered in_order).

Hypothesis total :
  forall x y, P x -> P y -> ordered x y \/ ordered y x.
Hypothesis transitive :
  forall x y z, P x -> P y -> P z -> ordered x y -> ordered y z ->
    ordered x z.

Lemma sort_insert_perm x l : Permutation (sort_insert in_order x l) (x :: l).
Proof.
  induction l as [|y l IH]; cbn; [reflexivity|].
  destruct (in_order x y); [reflexivity|].
  rewrite IH. apply perm_swap.
Qed.

Lemma sort_perm l : Permutation (sort in_order l) l.
Proof.
  induction l as [|x l IH]; cbn; [reflexivity|].
  rewrite sort_insert_perm, IH. reflexivity.
Qed.

Lemma sort_elem x l : x ∈ sort in_order l <-> x ∈ l.
Proof. rewrite (sort_perm l). reflexivity. Qed.

Lemma sort_Forall l : Forall P l -> Forall P (sort in_order l).
Proof. intros H. rewrite (sort_perm l). exact H. Qed.

Lemma sort_insert_sorted x l :
  P x -> Forall P l -> StronglySorted ordered l ->
  StronglySorted ordered (sort_insert in_order x l).
Proof.
  intros Hx Hl Hs. induction Hs as [|y l Hs IH Hy]; cbn.
  - repeat constructor.
  - apply Forall_cons in Hl as [HPy HPl].
    destruct (in_order x y) eqn:Hxy.
    + constructor; [constructor; assumption|].
      constructor; [exact Hxy|].
      apply Forall_forall. intros z Hz.
      apply (transitive x y z); try assumption.
      * rewrite Forall_forall in HPl. apply HPl, Hz.
      * rewrite Forall_forall in Hy. apply Hy, Hz.
    + constructor; [apply IH; assumption|].
      rewrite (sort_insert_perm x l). constructor; [|assumption].
      destruct (total x y Hx HPy) as [H|H]; [|exact H].
      unfold ordered in H. congruence.
Qed.

Lemma sort_sorted l :
  Forall P l -> StronglySorted ordered (sort in_order l).
Proof.
  induction l as [|x l IH]; cbn; intros Hl; [constructor|].
  apply Forall_cons in Hl as [Hx Hl].
  apply sort_insert_sorted; auto using sort_Forall.
Qed.



End Sort.

End SortFacts.

Module ConfidenceFacts.
Import Types Confidence.

Example isValidTransition_verified_auto :
  isValidTransition (Some verified) (Some auto_detected) = false.
Proof. reflexivity. Qed.

Example isValidTransition_auto_verified :
  isValidTransition (Some auto_detected) (Some verified) = true.
Proof. reflexivity. Qed.

(** C2: [isValidTransition from to] is true exactly on the legality
    table (from null, to null, same tier, into verified, verified to
    self_reported, auto_detected to self_reported); every move into
    auto_detected from another non-null tier is rejected, and a null
    origin is always accepted. *)
Theorem isValidTransition_spec :
  (forall from to,
      isValidTransition from to = true <-> transition_allowed from to)
  /\ (forall f,
        isValidTransition (Some f) (Some auto_detected)
        = bool_decide (f = auto_detected))
  /\ (forall x, isValidTransition None x = true).
Proof.
  split; [| split].
  - intros from to. unfold transition_allowed. split.
    + destruct from as [[]|], to as [[]|]; cbn; intros H;
        try discriminate H; tauto.
    + destruct from as [f|], to as [t|]; try reflexivity.
      intros H.
      destruct f, t; try reflexivity; exfalso;
        repeat match goal with
               | H : _ \/ _ |- _ => destruct H as [H|H]
               | H : _ /\ _ |- _ => destruct H as [? H]
               end; discriminate.
  - intros []; reflexivity.
  - reflexivity.
Qed.

End ConfidenceFacts.

Module ValidateFacts.
Import Types Js Validate Fixtures.

Example id_pattern_examples :
  map id_pattern_test
      ["Bad-Id"; "-bad"; "bad-"; "bad id"; "a"; "canton-patterns"; ""]
  = [false; false; false; false; true; true; false].
Proof. reflexivity. Qed.

Example validate_minimal :
  validate (Projects [makeMinimalProject])
  = {| valid := true; errors := [] |}.
Proof. vm_compute. reflexivity. Qed.

Example validate_not_array :
  validate (NotArray (VObject [("not", JStr "an array")]))
  = {| valid := false; errors := ["(root): must be array"] |}.
Proof. vm_compute. reflexivity. Qed.

Example validate_duplicate :
  errors (validate (Projects [makeMinimalProject; makeMinimalProject]))
  = ["Duplicate project_id: " +:+ dq +:+ "test-project" +:+ dq].
Proof. vm_compute. reflexivity. Qed.

Example validate_unknown_partner :
  valid (validate (Projects [minimalProject "a" ["nonexistent"]])) = false.
Proof. vm_compute. reflexivity. Qed.

(** What [validateDataset] accepts in [makeMinimalProject],
    [validateConfidenceMap] reports. *)
Example validateConfidenceMap_minimal :
  Confidence.validateConfidenceMap makeMinimalProject
  = [ "Field " +:+ dq +:+ "network" +:+ dq
      +:+ " has value but confidence tier is null";
      "Field " +:+ dq +:+ "tech_stack" +:+ dq
      +:+ " has value but confidence tier is null" ].
Proof. vm_compute. reflexivity. Qed.

Lemma flat_map_nil_inv {A B} (f : A -> list B) (l : list A) :
  flat_map f l = [] -> forall x, x ∈ l -> f x = [].
Proof.
  induction l as [|a l IH]; cbn; intros H x Hx.
  - inversion Hx.
  - apply app_eq_nil in H as [Ha Hl].
    apply elem_of_cons in Hx as [->|Hx]; auto.
Qed.

Section ValidatorFacts.

Variable schemaValidate : Data -> ValidationResult.
Variable Date_parse : string -> jsnum.

Local Abbreviation validateDataset :=
  (validateDataset schemaValidate Date_parse).

(** Only an array can be reported valid. *)
Lemma valid_is_array data :
  valid (validateDataset data) = true -> exists ps, data = Projects ps.
Proof. destruct data as [v|ps]; cbn; [discriminate | eauto]. Qed.

(** A valid array passed the schema and every cross-reference check. *)
Lemma valid_checks_pass ps :
  valid (validateDataset (Projects ps)) = true ->
  errors (schemaValidate (Projects ps)) = []
  /\ checkUniqueIds ps = [] /\ checkIdFormat ps = []
  /\ checkPartnershipRefs ps = [] /\ checkConfidenceKeys ps = []
  /\ checkDateFields Date_parse ps = [].
Proof.
  cbn. intros H. apply Nat.eqb_eq, nil_length_inv in H.
  repeat match type of H with
         | _ ++ _ = [] => apply app_eq_nil in H as [H ?]
         end.
  auto 10.
Qed.

(** On an array the flag says whether the accumulated list is empty. *)
Lemma array_valid_iff ps :
  errors (validateDataset (Projects ps)) = []
  <-> valid (validateDataset (Projects ps)) = true.
Proof.
  cbn. rewrite Nat.eqb_eq. split; intros H.
  - rewrite H. reflexivity.
  - apply nil_length_inv in H. exact H.
Qed.

(** C9: in a dataset reported valid, every partnership entry of every
    record is the [project_id] of some record of the same dataset. *)
Theorem partnerships_closed data :
  valid (validateDataset data) = true ->
  exists ps, data = Projects ps
    /\ forall p partner, p ∈ ps -> partner ∈ partnerships p ->
         exists q, q ∈ ps /\ project_id q = partner.
Proof.
  intros Hvalid.
  destruct (valid_is_array _ Hvalid) as [ps ->].
  exists ps. split; [reflexivity|].
  intros p partner Hp Hpartner.
  apply valid_checks_pass in Hvalid as (_ & _ & _ & Hrefs & _).
  unfold checkPartnershipRefs in Hrefs.
  pose proof (flat_map_nil_inv _ _ Hrefs p Hp) as Hinner.
  pose proof (flat_map_nil_inv _ _ Hinner partner Hpartner) as Hone.
  cbn in Hone. unfold has in Hone.
  case_bool_decide as Hin; [|discriminate Hone].
  apply elem_of_list_to_set, list_elem_of_In, in_map_iff in Hin.
  destruct Hin as (q & Hq & Hin). exists q.
  split; [apply list_elem_of_In|]; assumption.
Qed.

(** C1, as the code has it: in a dataset reported valid, a non-managed
    field that has an entry in the record's confidence map and whose
    value is null has a null entry. (The converse is not checked: see
    [nonnull_value_null_confidence_accepted].) *)
Theorem null_value_has_null_confidence data :
  valid (validateDataset data) = true ->
  exists ps, data = Projects ps
    /\ forall p key tier, p ∈ ps -> (key, tier) ∈ data_confidence p ->
         has OBSERVATORY_MANAGED_FIELDS key = false ->
         get p key = Some JNull -> tier = None.
Proof.
  intros Hvalid.
  destruct (valid_is_array _ Hvalid) as [ps ->].
  exists ps. split; [reflexivity|].
  intros p key tier Hp Hentry _ Hnull.
  apply valid_checks_pass in Hvalid as (_ & _ & _ & _ & Hconf & _).
  unfold checkConfidenceKeys in Hconf.
  pose proof (flat_map_nil_inv _ _ Hconf p Hp) as Hp_ok.
  apply app_eq_nil in Hp_ok as [_ Hnulls].
  pose proof (flat_map_nil_inv _ _ Hnulls (key, tier) Hentry) as Hone.
  cbn in Hone. rewrite Hnull in Hone.
  destruct tier; [discriminate Hone | reflexivity].
Qed.

(** In a dataset reported valid every key of a confidence map names a
    property of its record and is not observatory-managed. *)
Lemma confidence_keys_are_properties ps :
  valid (validateDataset (Projects ps)) = true ->
  forall p key tier, p ∈ ps -> (key, tier) ∈ data_confidence p ->
    has OBSERVATORY_MANAGED_FIELDS key = false
    /\ has_property p key = true.
Proof.
  intros Hvalid p key tier Hp Hentry.
  apply valid_checks_pass in Hvalid as (_ & _ & _ & _ & Hconf & _).
  pose proof (flat_map_nil_inv _ _ Hconf p Hp) as Hp_ok.
  apply app_eq_nil in Hp_ok as [Hkeys _].
  assert (Hkey : key ∈ map fst (data_confidence p)).
  { apply list_elem_of_In, in_map_iff. exists (key, tier).
    split; [reflexivity | apply list_elem_of_In, Hentry]. }
  pose proof (flat_map_nil_inv _ _ Hkeys key Hkey) as Hone.
  cbv beta in Hone.
  destruct (has OBSERVATORY_MANAGED_FIELDS key); [discriminate Hone|].
  destruct (has_property p key); [auto | discriminate Hone].
Qed.

(** On data of the declared type, provided the schema reports an
    error on whatever is not an array and none on the empty array, the
    error list of [validateDataset] is empty exactly when the flag is
    true, and the empty dataset is valid with no errors. *)
Theorem errors_empty_iff_valid :
  (forall v, errors (schemaValidate (NotArray v)) <> []) ->
  errors (schemaValidate (Projects [])) = [] ->
  (forall data,
      errors (validateDataset data) = []
      <-> valid (validateDataset data) = true)
  /\ validateDataset (Projects []) = {| valid := true; errors := [] |}.
Proof.
  intros Hnot_array Hempty. split.
  - intros [v|ps]; [|apply array_valid_iff].
    cbn. split; intros H; [destruct (Hnot_array v H) | discriminate H].
  - cbn. rewrite Hempty. reflexivity.
Qed.

End ValidatorFacts.

(** Two records that name each other as partners. *)
Lemma partnerships_closed_witness :
  exists ps,
    Projects [minimalProject "a" ["b"]; minimalProject "b" ["a"; "b"]]
    = Projects ps
    /\ forall p partner, p ∈ ps -> partner ∈ partnerships p ->
         exists q, q ∈ ps /\ project_id q = partner.
Proof.
  apply (partnerships_closed Schema.schemaValidate JsDate.Date_parse).
  vm_compute. reflexivity.
Defined.

(** The test fixture, whose null fields all have null entries. *)
Lemma null_value_has_null_confidence_witness :
  exists ps,
    Projects [makeMinimalProject] = Projects ps
    /\ forall p key tier, p ∈ ps -> (key, tier) ∈ data_confidence p ->
         has OBSERVATORY_MANAGED_FIELDS key = false ->
         get p key = Some JNull -> tier = None.
Proof.
  apply (null_value_has_null_confidence
           Schema.schemaValidate JsDate.Date_parse).
  vm_compute. reflexivity.
Defined.

(** C1 does not hold in the other direction: the test fixture
    [makeMinimalProject] is reported valid although its field [network]
    holds a value (the empty array) under a null confidence entry. *)
Lemma nonnull_value_null_confidence_accepted :
  validate (Projects [makeMinimalProject])
  = {| valid := true; errors := [] |}
  /\ ("network", None) ∈ data_confidence makeMinimalProject
  /\ has OBSERVATORY_MANAGED_FIELDS "network" = false
  /\ get makeMinimalProject "network" = Some (JStrings [])
  /\ ~ (get makeMinimalProject "network" = Some JNull
        <-> (None : option ConfidenceTier) = None).
Proof.
  split; [vm_compute; reflexivity|].
  split; [apply list_elem_of_In; vm_compute; tauto|].
  split; [vm_compute; reflexivity|].
  split; [reflexivity|].
  intros [_ H]. specialize (H eq_refl). discriminate H.
Qed.

(** The schema modelled from the specification meets the two
    conditions. *)
Lemma errors_empty_iff_valid_witness :
  (forall data,
      errors (validate data) = [] <-> valid (validate data) = true)
  /\ validate (Projects []) = {| valid := true; errors := [] |}.
Proof.
  apply (errors_empty_iff_valid Schema.schemaValidate JsDate.Date_parse).
  - intros v. cbn. discriminate.
  - reflexivity.
Defined.


End ValidateFacts.

Module ClientFacts.
Import Js Client.

Lemma requests_app t1 t2 : requests (t1 ++ t2) = requests t1 + requests t2.
Proof. unfold requests. rewrite List.filter_app, length_app. reflexivity. Qed.

Lemma backoffs_app t1 t2 : backoffs (t1 ++ t2) = backoffs t1 ++ backoffs t2.
Proof. unfold backoffs. apply flat_map_app. Qed.

Lemma checkRateLimit_quiet last now_ms :
  requests (checkRateLimit last now_ms) = 0
  /\ backoffs (checkRateLimit last now_ms) = [].
Proof.
  unfold checkRateLimit.
  destruct (remaining last) as [r|]; [|auto].
  destruct (r <? RATE_LIMIT_THRESHOLD)%Z; [|auto].
  destruct (reset last) as [rs|]; [|auto].
  destruct (_ && _); auto.
Qed.

Lemma without_pacing_app t1 t2 :
  without_pacing (t1 ++ t2) = without_pacing t1 ++ without_pacing t2.
Proof. apply List.filter_app. Qed.

Lemma without_pacing_checkRateLimit last now_ms :
  without_pacing (checkRateLimit last now_ms) = [].
Proof.
  unfold checkRateLimit.
  destruct (remaining last) as [r|]; [|reflexivity].
  destruct (r <? RATE_LIMIT_THRESHOLD)%Z; [|reflexivity].
  destruct (reset last) as [rs|]; [|reflexivity].
  destruct (_ && _); reflexivity.
Qed.

Section GetFacts.

Context {T : Type}.
Variable responses : nat -> FetchOutcome T.
Variable now : nat -> Z.

Local Abbreviation attempt_once := (attempt_once responses).
Local Abbreviation attempt_events := (attempt_events now).
Local Abbreviation get_loop := (get_loop responses now).

Lemma requests_attempt attempt last :
  requests (attempt_events attempt last) = 1.
Proof.
  unfold Client.attempt_events. rewrite !requests_app.
  rewrite (proj1 (checkRateLimit_quiet _ _)).
  destruct (0 <? attempt)%nat; reflexivity.
Qed.

Lemma backoffs_attempt attempt last :
  backoffs (attempt_events attempt last)
  = if (0 <? attempt)%nat then [backoff_delay attempt] else [].
Proof.
  unfold Client.attempt_events. rewrite !backoffs_app.
  rewrite (proj2 (checkRateLimit_quiet _ _)).
  destruct (0 <? attempt)%nat; reflexivity.
Qed.

(** Only a retryable error sends the loop to its next iteration. *)
Lemma continue_retryable attempt last error last' :
  attempt_once attempt last = (Continue error, last') ->
  retryable error = true.
Proof.
  unfold Client.attempt_once. intros H.
  destruct (responses attempt) as [m|r].
  - destruct (attempt =? MAX_RETRIES)%nat; inversion H; reflexivity.
  - repeat match type of H with
           | context [if ?c then _ else _] => destruct c
           | context [match json r with _ => _ end] => destruct (json r)
           end; inversion H; reflexivity.
Qed.

(** An iteration throws a retryable error only if it is the last one. *)
Lemma leave_retryable attempt last error last' :
  attempt_once attempt last = (Leave (Thrown error), last') ->
  retryable error = true -> attempt = MAX_RETRIES.
Proof.
  unfold Client.attempt_once. intros H Hretry.
  destruct (responses attempt) as [m|r].
  - destruct (attempt =? MAX_RETRIES)%nat eqn:E;
      [apply Nat.eqb_eq in E; exact E | inversion H].
  - repeat match type of H with
           | context [if (attempt =? MAX_RETRIES)%nat then _ else _] =>
               destruct (attempt =? MAX_RETRIES)%nat eqn:E;
               [apply Nat.eqb_eq in E; exact E |]
           | context [if ?c then _ else _] => destruct c
           | context [match json r with _ => _ end] => destruct (json r)
           end; inversion H; subst error; discriminate Hretry.
Qed.

Lemma attempt_once_404 attempt last r :
  responses attempt = Responded r -> http_status r = 404%Z ->
  attempt_once attempt last
  = (Leave (Thrown not_found), updateRateLimit last r).
Proof.
  intros Hr Hst. unfold Client.attempt_once. rewrite Hr, Hst. reflexivity.
Qed.

Lemma attempt_once_5xx attempt last r :
  responses attempt = Responded r -> (500 <= http_status r)%Z ->
  attempt_once attempt last
  = (Continue (server_error (http_status r)), updateRateLimit last r).
Proof.
  intros Hr Hst. unfold Client.attempt_once. rewrite Hr.
  destruct (http_status r =? 404)%Z eqn:E1; [lia|].
  destruct (http_status r =? 403)%Z eqn:E2; [lia|].
  destruct (http_status r =? 409)%Z eqn:E3; [lia|].
  destruct (http_status r >=? 500)%Z eqn:E4; [reflexivity | lia].
Qed.

Lemma get_loop_O attempt last lastError :
  get_loop 0 attempt last lastError
  = (Thrown (default unknown_error lastError), last, []).
Proof. reflexivity. Qed.

Lemma get_loop_S left attempt last lastError :
  get_loop (S left) attempt last lastError
  = match attempt_once attempt last with
    | (Leave outcome, last') =>
        (outcome, last', attempt_events attempt last)
    | (Continue error, last') =>
        let '(outcome, last'', trace) :=
          get_loop left (S attempt) last' (Some error) in
        (outcome, last'', attempt_events attempt last ++ trace)
    end.
Proof. reflexivity. Qed.

(** The two ways an iteration goes, with what the loop yields then. *)
Lemma get_loop_cases left attempt last lastError :
  (exists outcome last',
      attempt_once attempt last = (Leave outcome, last')
      /\ get_loop (S left) attempt last lastError
         = (outcome, last', attempt_events attempt last))
  \/ (exists error last',
      attempt_once attempt last = (Continue error, last')
      /\ get_loop (S left) attempt last lastError
         = ((get_loop left (S attempt) last' (Some error)).1.1,
            (get_loop left (S attempt) last' (Some error)).1.2,
            attempt_events attempt last
            ++ (get_loop left (S attempt) last' (Some error)).2)).
Proof.
  rewrite get_loop_S.
  destruct (attempt_once attempt last) as [[o|e] last']; [left|right].
  - eauto.
  - exists e, last'. split; [reflexivity|].
    destruct (Client.get_loop _ _ left _ _ _) as [[o l] tr]. reflexivity.
Qed.

Ltac loop_cases left attempt last lastError e last' Hstep :=
  destruct (get_loop_cases left attempt last lastError)
    as [(? & last' & Hstep & ->) | (e & last' & Hstep & ->)];
  cbn [fst snd];
  rewrite ?requests_app, ?backoffs_app, ?requests_attempt,
    ?backoffs_attempt.

(** The loop makes one request per iteration it enters, at least one
    and never more than it has iterations left. *)
Lemma get_loop_requests left : forall attempt last lastError,
  requests (get_loop left attempt last lastError).2 <= left
  /\ (0 < left -> 0 < requests (get_loop left attempt last lastError).2).
Proof.
  induction left as [|left IH]; intros attempt last lastError.
  - rewrite get_loop_O. cbn. lia.
  - loop_cases left attempt last lastError e last' Hstep; [lia|].
    specialize (IH (S attempt) last' (Some e)). lia.
Qed.

(** Before iteration [k > 0] the loop sleeps [backoff_delay k]. *)
Lemma get_loop_backoffs left : forall attempt last lastError,
  backoffs (get_loop left attempt last lastError).2
  = map backoff_delay
        (List.filter (fun k => (0 <? k)%nat)
           (seq attempt
                (requests (get_loop left attempt last lastError).2))).
Proof.
  induction left as [|left IH]; intros attempt last lastError.
  - rewrite get_loop_O. reflexivity.
  - loop_cases left attempt last lastError e last' Hstep.
    + cbn. destruct attempt; reflexivity.
    + rewrite IH. cbn. destruct attempt; reflexivity.
Qed.

(** Apart from the sleeps of the rate-limit check, iteration [k] is the
    backoff sleep, if [k > 0], and then the request. *)
Lemma without_pacing_attempt attempt last :
  without_pacing (attempt_events attempt last)
  = (if (0 <? attempt)%nat then [Sleep Backoff (backoff_delay attempt)]
     else [])
    ++ [Request].
Proof.
  unfold Client.attempt_events.
  rewrite !without_pacing_app, without_pacing_checkRateLimit.
  destruct (0 <? attempt)%nat; reflexivity.
Qed.

Lemma get_loop_without_pacing left : forall attempt last lastError,
  without_pacing (get_loop left attempt last lastError).2
  = flat_map
      (fun k =>
         (if (0 <? k)%nat then [Sleep Backoff (backoff_delay k)] else [])
         ++ [Request])
      (seq attempt (requests (get_loop left attempt last lastError).2)).
Proof.
  induction left as [|left IH]; intros attempt last lastError.
  - rewrite get_loop_O. reflexivity.
  - destruct (get_loop_cases left attempt last lastError)
      as [(? & last' & Hstep & ->) | (e & last' & Hstep & ->)];
      cbn [fst snd].
    + rewrite requests_attempt, without_pacing_attempt.
      cbn [seq flat_map]. rewrite app_nil_r. reflexivity.
    + rewrite requests_app, requests_attempt, without_pacing_app,
        without_pacing_attempt, IH.
      reflexivity.
Qed.

(** A 404 ends the call at once with the "not found" error. *)
Lemma get_loop_404 left : forall attempt last lastError k r,
  attempt <= k < attempt + requests (get_loop left attempt last lastError).2 ->
  responses k = Responded r -> http_status r = 404%Z ->
  (get_loop left attempt last lastError).1.1 = Thrown not_found
  /\ attempt + requests (get_loop left attempt last lastError).2 = S k.
Proof.
  induction left as [|left IH]; intros attempt last lastError k r.
  - rewrite get_loop_O. cbn. lia.
  - intros Hk Hr Hst. destruct (Nat.eq_dec k attempt) as [->|Hne].
    + rewrite get_loop_S, (attempt_once_404 _ last _ Hr Hst).
      cbn [fst snd]. rewrite requests_attempt.
      split; [reflexivity | lia].
    + revert Hk.
      loop_cases left attempt last lastError e last' Hstep;
        intros Hk; [lia|].
      destruct (IH (S attempt) last' (Some e) k r) as [IH1 IH2];
        [lia | assumption | assumption |].
      split; [assumption | lia].
Qed.

(** A 5xx answer to any attempt but the last is followed by another
    attempt. *)
Lemma get_loop_5xx left : forall attempt last lastError k r,
  attempt <= k < attempt + requests (get_loop left attempt last lastError).2 ->
  responses k = Responded r -> (500 <= http_status r)%Z ->
  S k < attempt + left ->
  S k < attempt + requests (get_loop left attempt last lastError).2.
Proof.
  induction left as [|left IH]; intros attempt last lastError k r.
  - rewrite get_loop_O. cbn. lia.
  - intros Hk Hr Hst Hlast. revert Hk.
    loop_cases left attempt last lastError e last' Hstep; intros Hk.
    + assert (k = attempt) as -> by lia.
      rewrite (attempt_once_5xx _ last _ Hr Hst) in Hstep.
      discriminate Hstep.
    + destruct (Nat.eq_dec k attempt) as [->|Hne].
      * pose proof (get_loop_requests left (S attempt) last' (Some e))
          as [_ Hpos]. specialize (Hpos ltac:(lia)). lia.
      * specialize (IH (S attempt) last' (Some e) k r
                       ltac:(lia) Hr Hst ltac:(lia)). lia.
Qed.

(** A retryable error reaches the caller only when no iteration is
    left. *)
Lemma get_loop_retryable left : forall attempt last lastError err,
  attempt + left = MAX_RETRIES + 1 ->
  (get_loop left attempt last lastError).1.1 = Thrown err ->
  retryable err = true ->
  requests (get_loop left attempt last lastError).2 = left.
Proof.
  induction left as [|left IH]; intros attempt last lastError err.
  - rewrite get_loop_O. reflexivity.
  - intros Hsum.
    loop_cases left attempt last lastError e last' Hstep;
      intros Hout Hretry.
    + subst. apply leave_retryable in Hstep; [|assumption].
      unfold MAX_RETRIES in *. lia.
    + rewrite (IH (S attempt) last' (Some e) err);
        [reflexivity | lia | assumption | assumption].
Qed.

(** When the last iteration is answered by a 5xx, that server error is
    what the caller gets. *)
Lemma get_loop_last_5xx left : forall attempt last lastError r,
  attempt + left = MAX_RETRIES + 1 -> 0 < left ->
  requests (get_loop left attempt last lastError).2 = left ->
  responses MAX_RETRIES = Responded r -> (500 <= http_status r)%Z ->
  (get_loop left attempt last lastError).1.1
  = Thrown (server_error (http_status r)).
Proof.
  induction left as [|left IH]; intros attempt last lastError r;
    [lia|].
  intros Hsum _.
  loop_cases left attempt last lastError e last' Hstep;
    intros Hreq Hr Hst.
  - assert (left = 0) as -> by lia.
    assert (attempt = MAX_RETRIES) as -> by (unfold MAX_RETRIES in *; lia).
    rewrite (attempt_once_5xx _ last _ Hr Hst) in Hstep.
    discriminate Hstep.
  - destruct left as [|left].
    + assert (attempt = MAX_RETRIES) as -> by (unfold MAX_RETRIES in *; lia).
      rewrite (attempt_once_5xx _ last _ Hr Hst) in Hstep.
      inversion Hstep; subst. reflexivity.
    + apply IH; [lia | lia | lia | assumption | assumption].
Qed.

(** C5: whatever the upstream answers, one call of [get] makes at
    least one and at most four requests; the backoff sleeps are 1000,
    2000 and 4000 ms, and they stand before the second, the third and
    the fourth request: apart from the sleeps of the rate-limit check
    the call is request, sleep 1000, request, sleep 2000, request,
    sleep 4000, request, cut off after its last request; a 404 ends the
    call at once with the non-retryable "Not found" error; a 5xx answer to one
    of the first three attempts is followed by another attempt; and a
    retryable error (a 5xx answer to the fourth attempt in particular)
    reaches the caller only after four requests. *)
Theorem get_retry_policy (last : RateLimit) :
  let run := get responses now last in
  (1 <= requests run.2 <= 4)
  /\ backoffs run.2 = take (requests run.2 - 1) [1000; 2000; 4000]%Z
  /\ without_pacing run.2
     = take (2 * requests run.2 - 1)
         [ Request; Sleep Backoff 1000; Request; Sleep Backoff 2000;
           Request; Sleep Backoff 4000; Request ]
  /\ (forall k r, k < requests run.2 ->
        responses k = Responded r -> http_status r = 404%Z ->
        run.1.1 = Thrown not_found /\ retryable not_found = false
        /\ requests run.2 = S k)
  /\ (forall k r, k < requests run.2 ->
        responses k = Responded r -> (500 <= http_status r)%Z ->
        k < 3 -> S k < requests run.2)
  /\ (forall e, run.1.1 = Thrown e -> retryable e = true ->
        requests run.2 = 4)
  /\ (forall r, requests run.2 = 4 ->
        responses 3 = Responded r -> (500 <= http_status r)%Z ->
        run.1.1 = Thrown (server_error (http_status r))).
Proof.
  cbv zeta. unfold get. change (MAX_RETRIES + 1) with 4.
  set (run := get_loop 4 0 last None).
  pose proof (get_loop_requests 4 0 last None) as [Hle Hpos].
  fold run in Hle, Hpos. specialize (Hpos ltac:(lia)).
  split; [lia|]. split; [|split; [|split; [|split; [|split]]]].
  - unfold run. rewrite get_loop_backoffs. fold run.
    destruct (requests run.2) as [|[|[|[|[|n]]]]]; try lia; reflexivity.
  - unfold run. rewrite get_loop_without_pacing. fold run.
    destruct (requests run.2) as [|[|[|[|[|n]]]]]; try lia; reflexivity.
  - intros k r Hk Hr Hst.
    destruct (get_loop_404 4 0 last None k r) as [H1 H2];
      [fold run; lia | assumption | assumption |].
    fold run in H1, H2. auto.
  - intros k r Hk Hr Hst Hlt.
    pose proof (get_loop_5xx 4 0 last None k r) as H. fold run in H.
    specialize (H ltac:(lia) Hr Hst ltac:(lia)). lia.
  - intros e Hout Hretry.
    apply (get_loop_retryable 4 0 last None e); auto.
  - intros r Hreq Hr Hst.
    apply (get_loop_last_5xx 4 0 last None r); auto; lia.
Qed.

End GetFacts.

(** Four 503 answers: four requests, the three backoff sleeps between
    them, and the server error at the end. *)
Example get_all_503 :
  get (fun _ => respond 503 (Parsed tt)) (fun _ => 0%Z) initialRateLimit
  = (Thrown (server_error 503),
     {| remaining := Some 4999%Z; reset := Some 0%Z |},
     [ Request; Sleep Backoff 1000; Request; Sleep Backoff 2000; Request;
       Sleep Backoff 4000; Request ]).
Proof. vm_compute. reflexivity. Qed.

Example get_404 :
  get (fun _ => respond 404 (Parsed tt)) (fun _ => 0%Z) initialRateLimit
  = (Thrown not_found,
     {| remaining := Some 4999%Z; reset := Some 0%Z |}, [Request]).
Proof. vm_compute. reflexivity. Qed.

Example get_500_then_200 :
  get (fun k => if (k =? 0)%nat then respond 500 (Parsed 0)
                else respond 200 (Parsed 7))
      (fun _ => 0%Z) initialRateLimit
  = (Returned {| data := 7; response_status := 200;
                 rateLimit := {| remaining := Some 4999%Z;
                                 reset := Some 0%Z |} |},
     {| remaining := Some 4999%Z; reset := Some 0%Z |},
     [Request; Sleep Backoff 1000; Request]).
Proof. vm_compute. reflexivity. Qed.

(** A rejected fetch is retried and surfaces after the fourth attempt. *)
Example get_network_down :
  get (T := unit) (fun _ => Rejected (Some "fetch failed")) (fun _ => 0%Z)
      initialRateLimit
  = (Thrown (network_error (Some "fetch failed")), initialRateLimit,
     [ Request; Sleep Backoff 1000; Request; Sleep Backoff 2000; Request;
       Sleep Backoff 4000; Request ]).
Proof. vm_compute. reflexivity. Qed.

(** With the quota nearly used up the client sleeps until one second
    after the reset before it sends the request. *)
Example get_paced :
  get (fun _ => respond 200 (Parsed tt)) (fun _ => 1000000%Z)
      {| remaining := Some 5%Z; reset := Some 1030%Z |}
  = (Returned {| data := tt; response_status := 200;
                 rateLimit := {| remaining := Some 4999%Z;
                                 reset := Some 0%Z |} |},
     {| remaining := Some 4999%Z; reset := Some 0%Z |},
     [Sleep Pacing 31000; Request]).
Proof. vm_compute. reflexivity. Qed.

(** Four 503 answers end in the server error of the fourth. *)
Lemma get_retry_policy_witness :
  (get (fun _ => respond 503 (Parsed tt)) (fun _ => 0%Z)
       initialRateLimit).1.1
  = Thrown (server_error 503).
Proof.
  pose proof (get_retry_policy (fun _ => respond 503 (Parsed tt))
                (fun _ => 0%Z) initialRateLimit) as H.
  cbv zeta in H. destruct H as (_ & _ & _ & _ & _ & _ & H).
  apply (H {| http_status := 503;
              x_ratelimit_remaining := Some (Some 4999%Z);
              x_ratelimit_reset := Some (Some 0%Z);
              json := Parsed tt |}).
  - reflexivity.
  - reflexivity.
  - cbn. lia.
Defined.

End ClientFacts.

Module CollectFacts.
Import Js Collect Fixtures.

Example parseSdkVersion_examples :
  map parseSdkVersion
      [ "sdk-version: 2.9.0" +:+ String "010" "name: my-app";
        "name: my-app" +:+ String "010" "version: 1.0.0";
        "sdk-version:  2.8.1 " +:+ String "010" "";
        "name: x" +:+ String "010" "sdk-version:" +:+ String "010" "2.7.0";
        "sdk-version: " ]
  = [Some "2.9.0"; None; Some "2.8.1"; Some "2.7.0"; Some ""].
Proof. reflexivity. Qed.

Example collectTests_examples :
  map (fun p => is_test_file (blob p))
      [ "daml/MainTest.daml"; "src/app.test.ts"; "tests/test_main.py";
        "src/test/java/AppTest.java"; "docs/test_plan.md"; "src/main.ts" ]
  = [true; true; true; true; false; false].
Proof. reflexivity. Qed.

(** The three-version scenario: the highest one is reported, and the
    note lists what was found. *)
Example collectSdkVersion_three_versions :
  collectSdkVersion unit
    (serving [ ("a/daml.yaml", "sdk-version: 2.7.0" +:+ nl);
               ("b/daml.yaml", "sdk-version: 2.9.0" +:+ nl);
               ("c/daml.yaml", "sdk-version: 2.8.1" +:+ nl) ])
    decimal_Number "owner" "repo"
    [blob "a/daml.yaml"; blob "b/daml.yaml"; blob "c/daml.yaml"] start
  = (Normal {| canton_sdk_version := Some "2.9.0" |},
     {| client := tt;
        notes := ["Multiple SDK versions detected: 2.7.0, 2.9.0, 2.8.1"] |}).
Proof. vm_compute. reflexivity. Qed.

Example collectSdkVersion_root :
  collectSdkVersion unit
    (serving [ ("daml.yaml", "sdk-version: 2.9.0" +:+ nl +:+ "name: test");
               ("a/daml.yaml", "sdk-version: 3.0.0") ])
    decimal_Number "owner" "repo" [blob "a/daml.yaml"] start
  = (Normal {| canton_sdk_version := Some "2.9.0" |}, start).
Proof. vm_compute. reflexivity. Qed.

Example collectSdkVersion_missing_components :
  collectSdkVersion unit
    (serving [ ("a/daml.yaml", "sdk-version: 2.10");
               ("b/daml.yaml", "sdk-version: 2.9.5") ])
    decimal_Number "owner" "repo" [blob "a/daml.yaml"; blob "b/daml.yaml"]
    start
  = (Normal {| canton_sdk_version := Some "2.10" |},
     {| client := tt;
        notes := ["Multiple SDK versions detected: 2.10, 2.9.5"] |}).
Proof. vm_compute. reflexivity. Qed.

Example collectLastActivity_409 :
  collectLastActivity unit (answering (fail_with 409 "Conflict"))
    "owner" "repo" start
  = (Normal {| last_verified_activity := None |},
     {| client := tt; notes := ["Empty repository"] |}).
Proof. vm_compute. reflexivity. Qed.

Example collectLastActivity_date :
  collectLastActivity unit
    (answering
       (respond_with [{| commit_author_date := "2025-01-15T10:30:00Z" |}]))
    "owner" "repo" start
  = (Normal {| last_verified_activity := Some "2025-01-15" |}, start).
Proof. vm_compute. reflexivity. Qed.

(** 2025-06-01 is 91 days after 2025-03-02 and 89 days after
    2025-03-04. *)
Example collectCi_91_days :
  collectCi unit (answering (run_on "2025-03-02T00:00:00Z" "success"))
    JsDate.Date_parse 1748736000000 "owner" "repo" workflow start
  = (Normal {| has_ci := Some true; ci_status := Some stale |},
     {| client := tt; notes := ["Last CI run was 91 days ago (stale)"] |}).
Proof. vm_compute. reflexivity. Qed.

Example collectCi_89_days :
  map (fun conclusion_ =>
         (collectCi unit
            (answering (run_on "2025-03-04T00:00:00Z" conclusion_))
            JsDate.Date_parse 1748736000000 "owner" "repo" workflow
            start).1)
      ["success"; "failure"; "cancelled"]
  = [ Normal {| has_ci := Some true; ci_status := Some passing |};
      Normal {| has_ci := Some true; ci_status := Some failing |};
      Normal {| has_ci := Some true; ci_status := Some unknown |} ].
Proof. vm_compute. reflexivity. Qed.

Example collectCi_no_runs :
  collectCi unit (answering (respond_with {| workflow_runs := [] |}))
    JsDate.Date_parse 1748736000000 "owner" "repo" workflow start
  = (Normal {| has_ci := Some true; ci_status := Some unknown |}, start).
Proof. vm_compute. reflexivity. Qed.

(** The threshold scenario, with a manifest in a subdirectory. *)
Example collectTechStack_threshold :
  collectTechStack unit
    (answering (respond_with [("A", 8000); ("B", 1500); ("C", 200)]%Z))
    native_code "owner" "repo" [blob "app/package.json"; blob "README.md"]
    start
  = (Normal {| tech_stack := [Str "A"; Str "B"; Str "Node.js"] |}, start).
Proof. vm_compute. reflexivity. Qed.

(** A file named like a property of [Object.prototype] puts that
    property's value into the stack. *)
Example collectTechStack_inherited :
  collectTechStack unit (answering (respond_with [("A", 1)]%Z))
    native_code "owner" "repo" [blob "src/constructor"] start
  = (Normal {| tech_stack := [Str "A"; Proto "constructor"] |}, start).
Proof. vm_compute. reflexivity. Qed.

(** *** Running a collector step by step *)

Lemma bind_normal {C A B} (m : M C A) (k : A -> M C B) w a w' :
  m w = (Normal a, w') -> (m ≫= k) w = k a w'.
Proof. intros H. unfold mbind, M_bind, bind. rewrite H. reflexivity. Qed.

Lemma bind_throws {C A B} (m : M C A) (k : A -> M C B) w e w' :
  m w = (Throws e, w') -> (m ≫= k) w = (Throws e, w').
Proof. intros H. unfold mbind, M_bind, bind. rewrite H. reflexivity. Qed.

Lemma try_normal {C A} (body : M C A) handler w a w' :
  body w = (Normal a, w') -> try_catch body handler w = (Normal a, w').
Proof. intros H. unfold try_catch. rewrite H. reflexivity. Qed.

Lemma try_throws {C A} (body : M C A) handler w e w' :
  body w = (Throws e, w') -> try_catch body handler w = handler e w'.
Proof. intros H. unfold try_catch. rewrite H. reflexivity. Qed.

Lemma call_normal {C A} (method : C -> Completion A * C) w a c' :
  method (client w) = (Normal a, c') ->
  call method w = (Normal a, {| client := c'; notes := notes w |}).
Proof. intros H. unfold call. rewrite H. reflexivity. Qed.

Lemma call_throws {C A} (method : C -> Completion A * C) w e c' :
  method (client w) = (Throws e, c') ->
  call method w = (Throws e, {| client := c'; notes := notes w |}).
Proof. intros H. unfold call. rewrite H. reflexivity. Qed.








(** [split] undoes the joining of dot-free pieces. *)
Lemma split_dot_free piece :
  dot_free piece -> split "." piece = [piece].
Proof.
  unfold dot_free. induction piece as [|c piece IH]; intros Hfree;
    [reflexivity|].
  cbn [list_ascii_of_string] in Hfree. apply not_elem_of_cons in Hfree
    as [Hc Hfree].
  cbn [split]. destruct (Ascii.eqb_spec c ".") as [->|_]; [congruence|].
  rewrite (IH Hfree). reflexivity.
Qed.

Lemma split_dot_cons piece rest :
  dot_free piece ->
  split "." (piece +:+ String "." rest) = piece :: split "." rest.
Proof.
  unfold dot_free. induction piece as [|c piece IH]; intros Hfree;
    [reflexivity|].
  cbn [list_ascii_of_string] in Hfree. apply not_elem_of_cons in Hfree
    as [Hc Hfree].
  change (String c piece +:+ String "." rest)
    with (String c (piece +:+ String "." rest)).
  cbn [split]. destruct (Ascii.eqb_spec c ".") as [->|_]; [congruence|].
  rewrite (IH Hfree). reflexivity.
Qed.

Lemma split_dot_separated v pieces :
  dot_separated v pieces -> split "." v = pieces.
Proof.
  intros (Hne & Hfree & ->).
  induction pieces as [|piece pieces IH]; [contradiction|].
  apply Forall_cons in Hfree as [Hpiece Hfree].
  destruct pieces as [|piece' pieces].
  - apply split_dot_free, Hpiece.
  - change (String.concat "." (piece :: piece' :: pieces))
      with (piece +:+ String "." (String.concat "." (piece' :: pieces))).
    rewrite split_dot_cons by assumption. f_equal.
    apply IH; [discriminate | assumption].
Qed.

Section SemverFacts.

Variable Number : string -> jsnum.

Local Abbreviation compareSemver := (compareSemver Number).
Local Abbreviation semver_in_order := (semver_in_order Number).
Local Abbreviation numeric := (numeric Number).
Local Abbreviation semver_le := (semver_le Number).
Local Abbreviation version_triple := (version_triple Number).







End SemverFacts.

Section ActivityFacts.

Variable C : Type.
Variable get_commits :
  string -> C -> Completion (Client.GitHubResponse (list CommitResponse)) * C.

Local Abbreviation collectLastActivity := (collectLastActivity C get_commits).

(** C8: a classified client error raised by the commit-history call
    never leaves the last-activity collector: on a 409 it returns
    [last_verified_activity: null] and pushes the note "Empty
    repository", on any other one it returns null and pushes a
    diagnostic note; and when the call answers with no commits it
    returns null and pushes a note. *)
Theorem collectLastActivity_classified_errors owner repo w :
  (forall e c',
      get_commits (repos owner repo "/commits?per_page=1") (client w)
      = (Throws (GitHubErr e), c') ->
      collectLastActivity owner repo w
      = (Normal {| last_verified_activity := None |},
         {| client := c';
            notes := notes w
                     ++ [if (Client.status e =? 409)%Z
                         then "Empty repository"
                         else "Could not fetch commits: "
                              +:+ Client.message e] |}))
  /\ (forall response c',
      get_commits (repos owner repo "/commits?per_page=1") (client w)
      = (Normal response, c') ->
      Client.data response = [] ->
      collectLastActivity owner repo w
      = (Normal {| last_verified_activity := None |},
         {| client := c'; notes := notes w ++ ["No commits found"] |})).
Proof.
  split.
  - intros e c' Hcall. unfold Collect.collectLastActivity.
    erewrite try_throws;
      [|erewrite bind_throws; [reflexivity | apply call_throws, Hcall]].
    cbv beta iota. destruct (Client.status e =? 409)%Z; reflexivity.
  - intros response c' Hcall Hdata. unfold Collect.collectLastActivity.
    erewrite try_normal; [reflexivity|].
    erewrite bind_normal; [|apply call_normal, Hcall].
    rewrite Hdata. reflexivity.
Qed.

End ActivityFacts.

Section TreeFacts.

Variable C : Type.
Variable get_runs :
  string -> C -> Completion (Client.GitHubResponse WorkflowRunsResponse) * C.
Variable Date_parse : string -> jsnum.
Variable now : Z.

Local Abbreviation collectCi := (collectCi C get_runs Date_parse now).

(** C10: on an empty tree the tests collector returns [has_tests] and
    [test_count] null and the CI collector returns [has_ci] and
    [ci_status] null: unknown, not false; neither pushes a note or
    calls the client. *)
Theorem empty_tree_is_unknown owner repo truncated (w : World C) :
  collectTests C [] truncated w
  = (Normal {| has_tests := None; test_count := None |}, w)
  /\ collectCi owner repo [] w
     = (Normal {| has_ci := None; ci_status := None |}, w).
Proof. split; reflexivity. Qed.

Lemma status_of_conclusion_cases :
  status_of_conclusion "success" = passing
  /\ status_of_conclusion "failure" = failing
  /\ forall c, c <> "success" -> c <> "failure" ->
       status_of_conclusion c = unknown.
Proof.
  split; [reflexivity|]. split; [reflexivity|].
  intros c H1 H2. unfold status_of_conclusion.
  destruct (String.eqb_spec c "success"); [contradiction|].
  destruct (String.eqb_spec c "failure"); [contradiction|]. reflexivity.
Qed.

(** The collector on a tree with a GitHub Actions workflow, once the
    runs call has answered. *)
Lemma collectCi_primary owner repo tree w response c' :
  hasGitHubActions (List.filter is_ci_file tree) = true ->
  get_runs (repos owner repo "/actions/runs?per_page=1&status=completed")
           (client w)
  = (Normal response, c') ->
  collectCi owner repo tree w
  = match workflow_runs (Client.data response) with
    | [] => (Normal {| has_ci := Some true; ci_status := Some unknown |},
             {| client := c'; notes := notes w |})
    | run :: _ =>
        match daysSince Date_parse now (updated_at run) with
        | Some days =>
            if (STALE_CI_DAYS <? days)%Z
            then (Normal {| has_ci := Some true; ci_status := Some stale |},
                  {| client := c';
                     notes := notes w
                              ++ ["Last CI run was " +:+ string_of_Z days
                                  +:+ " days ago (stale)"] |})
            else (Normal {| has_ci := Some true;
                            ci_status :=
                              Some (status_of_conclusion (conclusion run)) |},
                  {| client := c'; notes := notes w |})
        | None =>
            (Normal {| has_ci := Some true;
                       ci_status :=
                         Some (status_of_conclusion (conclusion run)) |},
             {| client := c'; notes := notes w |})
        end
    end.
Proof.
  intros Hprimary Hcall. unfold Collect.collectCi.
  destruct tree as [|entry tree]; [discriminate Hprimary|].
  change (length (entry :: tree) =? 0)%nat with false. cbv iota.
  destruct (List.filter is_ci_file (entry :: tree)) as [|f ciFiles] eqn:Hci;
    [discriminate Hprimary|].
  change (length (f :: ciFiles) =? 0)%nat with false. cbv iota.
  rewrite Hprimary. cbn [negb].
  unfold try_catch.
  erewrite bind_normal; [|apply call_normal, Hcall].
  destruct (workflow_runs (Client.data response)) as [|run runs];
    [reflexivity|].
  destruct (daysSince Date_parse now (updated_at run)) as [days|];
    [|reflexivity].
  cbn [exceeds]. destruct (STALE_CI_DAYS <? days)%Z; reflexivity.
Qed.

(** C4: on a repository whose CI is GitHub Actions, with the runs call
    answered: no completed run gives "unknown"; a latest run updated
    more than 90 whole days ago, 91 days in particular, gives "stale"
    whatever its conclusion; otherwise, at 89 days in particular, the
    status follows the conclusion: "success" is "passing", "failure" is
    "failing", anything else "unknown". *)
Theorem collectCi_staleness owner repo tree w response c' :
  hasGitHubActions (List.filter is_ci_file tree) = true ->
  get_runs (repos owner repo "/actions/runs?per_page=1&status=completed")
           (client w)
  = (Normal response, c') ->
  (workflow_runs (Client.data response) = [] ->
     (collectCi owner repo tree w).1
     = Normal {| has_ci := Some true; ci_status := Some unknown |})
  /\ (forall run runs updatedAt,
        workflow_runs (Client.data response) = run :: runs ->
        Date_parse (updated_at run) = Some updatedAt ->
        let days := ((now - updatedAt) / JsDate.MS_PER_DAY)%Z in
        ((90 < days)%Z ->
           (collectCi owner repo tree w).1
           = Normal {| has_ci := Some true; ci_status := Some stale |})
        /\ ((now - updatedAt = 91 * JsDate.MS_PER_DAY)%Z ->
           (collectCi owner repo tree w).1
           = Normal {| has_ci := Some true; ci_status := Some stale |})
        /\ ((days <= 90)%Z ->
           (collectCi owner repo tree w).1
           = Normal {| has_ci := Some true;
                       ci_status :=
                         Some (status_of_conclusion (conclusion run)) |})
        /\ ((now - updatedAt = 89 * JsDate.MS_PER_DAY)%Z ->
           (collectCi owner repo tree w).1
           = Normal {| has_ci := Some true;
                       ci_status :=
                         Some (status_of_conclusion (conclusion run)) |}))
  /\ status_of_conclusion "success" = passing
  /\ status_of_conclusion "failure" = failing
  /\ (forall c, c <> "success" -> c <> "failure" ->
        status_of_conclusion c = unknown).
Proof.
  intros Hprimary Hcall.
  rewrite (collectCi_primary owner repo tree w response c' Hprimary Hcall).
  split; [intros ->; reflexivity|].
  split; [|apply status_of_conclusion_cases].
  intros run runs updatedAt -> Hdate days.
  unfold daysSince. rewrite Hdate. fold days.
  assert (Hstale : (90 < days)%Z ->
            (STALE_CI_DAYS <? days)%Z = true)
    by (intros; apply Z.ltb_lt; unfold STALE_CI_DAYS; lia).
  assert (Hfresh : (days <= 90)%Z ->
            (STALE_CI_DAYS <? days)%Z = false)
    by (intros; apply Z.ltb_ge; unfold STALE_CI_DAYS; lia).
  repeat split.
  - intros H. rewrite (Hstale H). reflexivity.
  - intros H. rewrite Hstale; [reflexivity|].
    unfold days. rewrite H, Z.div_mul by (vm_compute; discriminate). lia.
  - intros H. rewrite (Hfresh H). reflexivity.
  - intros H. rewrite Hfresh; [reflexivity|].
    unfold days. rewrite H, Z.div_mul by (vm_compute; discriminate). lia.
Qed.

End TreeFacts.

Section SdkFacts.

Variable C : Type.
Variable getFileContent :
  string -> string -> string -> C -> Completion (option string) * C.
Variable Number : string -> jsnum.

Local Abbreviation scan_versions := (scan_versions C getFileContent).
Local Abbreviation collectSdkVersion :=
  (collectSdkVersion C getFileContent Number).


(** When the client serves files without changing state, the scan
    returns the versions found in the files, in the order of the
    paths. *)
Lemma scan_versions_stateless owner repo (content : string -> option string) :
  (forall p c, getFileContent owner repo p c = (Normal (content p), c)) ->
  forall paths versions w,
    scan_versions owner repo paths versions w
    = (Normal (versions ++ omap (fun p => found_version (content p)) paths),
       w).
Proof.
  intros Hserve. induction paths as [|p paths IH]; intros versions w.
  - cbn. rewrite app_nil_r. reflexivity.
  - cbn [Collect.scan_versions].
    erewrite bind_normal; [|apply call_normal, Hserve].
    destruct w as [c n]. cbn [client notes]. rewrite IH. cbn.
    destruct (found_version (content p)); [|reflexivity].
    rewrite <- app_assoc. reflexivity.
Qed.


End SdkFacts.


(** The versions 2.9.1 and 2.9.0-rc1, read in this order. The third
    piece of the second is no number, so that [compareSemver] is NaN on
    the two in either order, the sort leaves them as they stand, and
    2.9.0-rc1 is reported, which is not above 2.9.1 in the ordering. *)
Lemma collectSdkVersion_reports_prerelease :
  let files := [ ("a/daml.yaml", "sdk-version: 2.9.1" +:+ nl);
                 ("b/daml.yaml", "sdk-version: 2.9.0-rc1" +:+ nl) ] in
  let tree := [blob "a/daml.yaml"; blob "b/daml.yaml"] in
  serving files "owner" "repo" "daml.yaml" tt = (Normal None, tt)
  /\ scan_versions unit (serving files) "owner" "repo" (damlYamls tree) []
       start
     = (Normal ["2.9.1"; "2.9.0-rc1"], start)
  /\ collectSdkVersion unit (serving files) decimal_Number "owner" "repo"
       tree start
     = (Normal {| canton_sdk_version := Some "2.9.0-rc1" |},
        {| client := tt;
           notes := ["Multiple SDK versions detected: 2.9.1, 2.9.0-rc1"] |})
  /\ compareSemver decimal_Number "2.9.1" "2.9.0-rc1" = None
  /\ compareSemver decimal_Number "2.9.0-rc1" "2.9.1" = None
  /\ ~ semver_le decimal_Number "2.9.1" "2.9.0-rc1"
  /\ ~ numeric decimal_Number "2.9.0-rc1".
Proof.
  cbv zeta.
  assert (Hnot : ~ numeric decimal_Number "2.9.0-rc1").
  { intros (t & pieces & Hsep & _ & _ & H2).
    apply split_dot_separated in Hsep. vm_compute in Hsep. subst pieces.
    vm_compute in H2. discriminate H2. }
  split; [reflexivity|]. split; [vm_compute; reflexivity|].
  split; [vm_compute; reflexivity|]. split; [vm_compute; reflexivity|].
  split; [vm_compute; reflexivity|]. split; [|exact Hnot].
  intros (ta & tb & _ & Htb & _). apply Hnot. exists tb. exact Htb.
Qed.

(** *** The tech stack *)


Lemma elem_of_stack_add x v stack :
  x ∈ stack_add v stack <-> x = v \/ x ∈ stack.
Proof.
  unfold stack_add. case_bool_decide as Hin.
  - split; [auto|]. intros [->|H]; assumption.
  - rewrite elem_of_app, list_elem_of_singleton. tauto.
Qed.

Lemma NoDup_stack_add v stack : NoDup stack -> NoDup (stack_add v stack).
Proof.
  intros Hnd. unfold stack_add. case_bool_decide as Hin; [assumption|].
  apply NoDup_app. split; [assumption|].
  split; [|apply NoDup_singleton].
  intros x Hx Hv. apply list_elem_of_singleton in Hv as ->. contradiction.
Qed.


Lemma languages_loop_NoDup total languages : forall stack,
  NoDup stack ->
  NoDup (fold_left
           (fun stack (entry : string * Z) =>
              if above_threshold entry.2 total
              then stack_add (Str entry.1) stack
              else stack)
           languages stack).
Proof.
  induction languages as [|[lang bytes] languages IH]; intros stack Hnd;
    cbn; [assumption|].
  apply IH. destruct (above_threshold bytes total);
    auto using NoDup_stack_add.
Qed.

Lemma elem_of_add_frameworks tree : forall stack x,
  x ∈ add_frameworks tree stack
  <-> x ∈ stack
      \/ exists entry, entry ∈ tree /\ type entry = "blob"
                       /\ framework_of (basename_of (path entry)) = Some x.
Proof.
  unfold add_frameworks.
  induction tree as [|e tree IH]; intros stack x; cbn.
  - split; [auto|]. intros [H|(e & H & _)]; [exact H|inversion H].
  - rewrite IH. destruct (String.eqb_spec (type e) "blob") as [Hblob|Hblob];
      cbn [negb].
    + destruct (framework_of (basename_of (path e))) as [v|] eqn:Hfw.
      * rewrite elem_of_stack_add. split.
        -- intros [[->|H]|(e' & Hin & Hb & Hf)]; [right|left|right]; eauto.
           ++ exists e. rewrite elem_of_cons. auto.
           ++ exists e'. rewrite elem_of_cons. auto.
        -- intros [H|(e' & Hin & Hb & Hf)]; [auto|].
           apply elem_of_cons in Hin as [->|Hin]; [left; left; congruence|].
           right. eauto.
      * split.
        -- intros [H|(e' & Hin & Hb & Hf)]; [auto|].
           right. exists e'. rewrite elem_of_cons. auto.
        -- intros [H|(e' & Hin & Hb & Hf)]; [auto|].
           apply elem_of_cons in Hin as [->|Hin]; [congruence|].
           right. eauto.
    + split.
      * intros [H|(e' & Hin & Hb & Hf)]; [auto|].
        right. exists e'. rewrite elem_of_cons. auto.
      * intros [H|(e' & Hin & Hb & Hf)]; [auto|].
        apply elem_of_cons in Hin as [->|Hin]; [contradiction|].
        right. eauto.
Qed.

Lemma add_frameworks_NoDup tree : forall stack,
  NoDup stack -> NoDup (add_frameworks tree stack).
Proof.
  unfold add_frameworks.
  induction tree as [|e tree IH]; intros stack Hnd; cbn; [assumption|].
  apply IH. destruct (negb _); [assumption|].
  destruct (framework_of _); auto using NoDup_stack_add.
Qed.



Lemma compare_lt_trans a : forall b c,
  String.compare a b = Lt -> String.compare b c = Lt ->
  String.compare a c = Lt.
Proof.
  induction a as [|x a IH]; intros [|y b] [|z c]; cbn;
    try discriminate; try reflexivity.
  unfold Ascii.compare.
  destruct (N.compare_spec (N_of_ascii x) (N_of_ascii y)) as [Hxy|Hxy|Hxy];
    destruct (N.compare_spec (N_of_ascii y) (N_of_ascii z)) as [Hyz|Hyz|Hyz];
    destruct (N.compare_spec (N_of_ascii x) (N_of_ascii z)) as [Hxz|Hxz|Hxz];
    try discriminate; try reflexivity; try lia.
  apply IH.
Qed.

Section TextOrder.

Variable inherited_text : string -> string.

Local Abbreviation text := (text inherited_text).
Local Abbreviation text_in_order := (text_in_order inherited_text).

Lemma text_in_order_total x y :
  ordered text_in_order x y \/ ordered text_in_order y x.
Proof.
  unfold ordered, Collect.text_in_order, String.ltb.
  rewrite (String.compare_antisym (text x) (text y)).
  destruct (String.compare (text y) (text x)); cbn; auto.
Qed.

Lemma text_in_order_trans x y z :
  ordered text_in_order x y -> ordered text_in_order y z ->
  ordered text_in_order x z.
Proof.
  unfold ordered, Collect.text_in_order, String.ltb.
  intros Hxy Hyz.
  destruct (String.compare (text z) (text x)) eqn:Hzx; try reflexivity.
  exfalso.
  destruct (String.compare (text y) (text x)) eqn:Hyx;
    try discriminate Hxy.
  - apply String.compare_eq_iff in Hyx. rewrite Hyx, Hzx in Hyz.
    discriminate Hyz.
  - rewrite String.compare_antisym in Hyx.
    destruct (String.compare (text x) (text y)) eqn:Hxy';
      try discriminate Hyx.
    rewrite (compare_lt_trans _ _ _ Hzx Hxy') in Hyz. discriminate Hyz.
Qed.

Lemma sort_text_sorted stack :
  StronglySorted (ordered text_in_order) (sort text_in_order stack).
Proof.
  apply (SortFacts.sort_sorted text_in_order (fun _ => True)).
  - intros x y _ _. apply text_in_order_total.
  - intros x y z _ _ _. apply text_in_order_trans.
  - apply Forall_forall. auto.
Qed.

End TextOrder.

Section TechStackFacts.

Variable C : Type.
Variable get_languages :
  string -> C -> Completion (Client.GitHubResponse LanguagesResponse) * C.
Variable inherited_text : string -> string.

Local Abbreviation collectTechStack :=
  (collectTechStack C get_languages inherited_text).


End TechStackFacts.


(** *** The theorems at the scenarios of the test suite *)

(** The empty-repository scenario. *)
Lemma collectLastActivity_classified_errors_witness :
  collectLastActivity unit (answering (fail_with 409 "Conflict"))
    "owner" "repo" start
  = (Normal {| last_verified_activity := None |},
     {| client := tt; notes := ["Empty repository"] |}).
Proof.
  apply (proj1 (collectLastActivity_classified_errors unit
                  (answering (fail_with 409 "Conflict"))
                  "owner" "repo" start)
               {| Client.status := 409; Client.message := "Conflict";
                  Client.retryable := false |} tt).
  reflexivity.
Defined.

(** A failed run of 91 days ago is reported stale. *)
Lemma collectCi_staleness_witness :
  (collectCi unit (answering (run_on "2025-03-02T00:00:00Z" "failure"))
     JsDate.Date_parse 1748736000000 "owner" "repo" workflow start).1
  = Normal {| has_ci := Some true; ci_status := Some stale |}.
Proof.
  pose proof (collectCi_staleness unit
                (answering (run_on "2025-03-02T00:00:00Z" "failure"))
                JsDate.Date_parse 1748736000000 "owner" "repo" workflow
                start _ tt eq_refl eq_refl) as (_ & Hrun & _).
  destruct (Hrun _ [] 1740873600000%Z eq_refl eq_refl) as (_ & H91 & _).
  apply H91. reflexivity.
Defined.



End CollectFacts.

(** * Strings as lists of code units *)

Module StringFacts.
Import Js.

Local Abbreviation chars := list_ascii_of_string.

Lemma chars_inj s t : chars s = chars t -> s = t.
Proof.
  intros H. rewrite <- (string_of_list_ascii_of_string s),
    <- (string_of_list_ascii_of_string t), H. reflexivity.
Qed.

Lemma chars_app a b : chars (a +:+ b) = chars a ++ chars b.
Proof.
  induction a as [|c a IH]; [reflexivity|].
  change (String c a +:+ b) with (String c (a +:+ b)).
  cbn [list_ascii_of_string]. rewrite IH. reflexivity.
Qed.

Lemma chars_rev_app s t :
  chars (String.rev_app s t) = reverse (chars s) ++ chars t.
Proof.
  revert t. induction s as [|c s IH]; intros t; [reflexivity|].
  cbn [String.rev_app list_ascii_of_string]. rewrite IH, reverse_cons.
  cbn [list_ascii_of_string]. rewrite <- app_assoc. reflexivity.
Qed.

Lemma chars_rev s : chars (String.rev s) = reverse (chars s).
Proof.
  unfold String.rev. rewrite chars_rev_app. cbn. apply app_nil_r.
Qed.

Lemma rev_involutive s : String.rev (String.rev s) = s.
Proof.
  apply chars_inj. rewrite !chars_rev. apply reverse_involutive.
Qed.

Lemma all_chars_forallb f s : all_chars f s = forallb f (chars s).
Proof. induction s as [|c s IH]; cbn; [|rewrite IH]; reflexivity. Qed.

Lemma all_chars_app f a b :
  all_chars f (a +:+ b) = all_chars f a && all_chars f b.
Proof. rewrite !all_chars_forallb, chars_app. apply forallb_app. Qed.

Lemma all_chars_true f s :
  all_chars f s = true <-> forall c, c ∈ chars s -> f c = true.
Proof.
  rewrite all_chars_forallb, forallb_forall.
  split; intros H c Hc; apply H, list_elem_of_In, Hc.
Qed.

Lemma all_chars_rev f s : all_chars f (String.rev s) = all_chars f s.
Proof.
  apply eq_true_iff_eq. rewrite !all_chars_true.
  setoid_rewrite chars_rev. setoid_rewrite elem_of_reverse. reflexivity.
Qed.

(** [String.prefix] decides whether one list of code units starts the
    other. *)
Lemma prefix_true p s :
  String.prefix p s = true <-> exists t, s = p +:+ t.
Proof.
  revert s. induction p as [|c p IH]; intros s.
  - destruct s; cbn; split; eauto.
  - destruct s as [|d s]; cbn.
    + split; [discriminate | intros [t Ht]; discriminate Ht].
    + destruct (Ascii.ascii_dec c d) as [->|Hne].
      * rewrite IH. split; intros [t Ht]; exists t.
        -- rewrite Ht. reflexivity.
        -- injection Ht as ->. reflexivity.
      * split; [discriminate|]. intros [t Ht]. injection Ht as <- _.
        contradiction.
Qed.

Lemma startsWith_true s p :
  startsWith s p = true <-> exists t, s = p +:+ t.
Proof. apply prefix_true. Qed.

Lemma append_assoc a b c : (a +:+ b) +:+ c = a +:+ (b +:+ c).
Proof. apply chars_inj. rewrite !chars_app. symmetry. apply app_assoc. Qed.

Lemma append_nil_r a : a +:+ "" = a.
Proof. apply chars_inj. rewrite chars_app. apply app_nil_r. Qed.

Lemma rev_append a b : String.rev (a +:+ b) = String.rev b +:+ String.rev a.
Proof.
  apply chars_inj. rewrite chars_rev, !chars_app, !chars_rev.
  apply reverse_app.
Qed.

Lemma endsWith_true s p :
  endsWith s p = true <-> exists t, s = t +:+ p.
Proof.
  unfold endsWith. rewrite prefix_true. split; intros [t Ht].
  - exists (String.rev t). rewrite <- (rev_involutive s), Ht, rev_append,
      rev_involutive. reflexivity.
  - exists (String.rev t). rewrite Ht, rev_append. reflexivity.
Qed.

Lemma length_chars s : String.length s = length (chars s).
Proof. induction s as [|c s IH]; cbn; [|rewrite IH]; reflexivity. Qed.

Lemma length_append a b :
  String.length (a +:+ b) = String.length a + String.length b.
Proof. rewrite !length_chars, chars_app. apply length_app. Qed.

End StringFacts.

(** * Further properties of the validator *)

Module ValidateMoreFacts.
Import Types Js Validate Fixtures ValidateFacts StringFacts.

Lemma is_id_char_inner c :
  is_id_char c = is_id_inner c && negb (Ascii.eqb c "-").
Proof.
  unfold is_id_inner. destruct (Ascii.eqb_spec c "-") as [->|Hne].
  - reflexivity.
  - rewrite orb_false_r, andb_true_r. reflexivity.
Qed.

Lemma startsWith_hyphen c s :
  startsWith (String c s) "-" = Ascii.eqb c "-".
Proof.
  apply eq_true_iff_eq. rewrite startsWith_true, Ascii.eqb_eq. split.
  - intros [t Ht]. change ("-" +:+ t) with (String "-" t) in Ht.
    congruence.
  - intros ->. exists s. reflexivity.
Qed.

(** What the identifier pattern accepts: a non-empty string of lower
    case letters, digits and hyphens that neither starts nor ends with
    a hyphen. *)
Lemma id_pattern_test_iff s :
  id_pattern_test s = true
  <-> s <> EmptyString /\ all_chars is_id_inner s = true
      /\ startsWith s "-" = false /\ endsWith s "-" = false.
Proof.
  destruct s as [|c rest]; [cbn; split; [discriminate | tauto]|].
  rewrite startsWith_hyphen.
  destruct rest as [|d rest'].
  - change (endsWith (String c "") "-") with (startsWith (String c "") "-").
    rewrite startsWith_hyphen.
    cbn [id_pattern_test all_chars]. rewrite andb_true_r, is_id_char_inner.
    rewrite andb_true_iff, negb_true_iff. intuition discriminate.
  - set (rest := String d rest').
    change (id_pattern_test (String c rest))
      with (is_id_char c && all_chars is_id_inner rest
            && match String.rev rest with
               | String l _ => is_id_char l
               | EmptyString => false
               end).
    assert (Hends : endsWith (String c rest) "-" = endsWith rest "-").
    { unfold endsWith.
      change (String c rest) with (String c "" +:+ rest).
      rewrite rev_append. change (String.rev "-") with "-".
      assert (String.rev rest <> "") as Hne.
      { intros H. apply (f_equal String.rev) in H.
        rewrite rev_involutive in H. discriminate H. }
      destruct (String.rev rest) as [|l t]; [contradiction|].
      change (String l t +:+ String.rev (String c ""))
        with (String l (t +:+ String.rev (String c ""))).
      exact (eq_trans (startsWith_hyphen l _)
                      (eq_sym (startsWith_hyphen l t))). }
    rewrite Hends. unfold endsWith. change (String.rev "-") with "-".
    pose proof (all_chars_rev is_id_inner rest) as Hrev.
    assert (String.rev rest <> "") as Hne.
    { intros H. apply (f_equal String.rev) in H.
      rewrite rev_involutive in H. discriminate H. }
    destruct (String.rev rest) as [|l t]; [contradiction|].
    change (String.prefix "-" (String l t)) with (startsWith (String l t) "-").
    rewrite startsWith_hyphen.
    cbn [all_chars] in *. rewrite !is_id_char_inner.
    destruct (Ascii.eqb l "-"), (Ascii.eqb c "-"); cbn [negb];
      rewrite ?andb_true_r, ?andb_false_r; rewrite <- ?Hrev;
      try (split; [discriminate | intuition discriminate]).
    rewrite !andb_true_iff. intuition (try discriminate).
Qed.

Lemma checkUniqueIds_from_nil seen ps :
  checkUniqueIds_from seen ps = []
  <-> NoDup (map project_id ps)
      /\ forall p, p ∈ ps -> project_id p ∉ seen.
Proof.
  revert seen. induction ps as [|p ps IH]; intros seen; cbn.
  - split; [intros _; split; [constructor | intros p Hp; inversion Hp]
           | reflexivity].
  - unfold has. rewrite NoDup_cons. split.
    + intros H. apply app_eq_nil in H as [Hp Hrest].
      case_bool_decide as Hseen; [discriminate Hp|].
      apply IH in Hrest as [Hnd Hfresh]. split; [split; [|assumption]|].
      * intros Hin. apply list_elem_of_In, in_map_iff in Hin
          as (q & Hq & Hin).
        apply (Hfresh q); [apply list_elem_of_In, Hin|].
        rewrite Hq. apply elem_of_union_l, elem_of_singleton. reflexivity.
      * intros q Hq. apply elem_of_cons in Hq as [->|Hq]; [assumption|].
        intros Hin. apply (Hfresh q Hq), elem_of_union_r, Hin.
    + intros [[Hp Hnd] Hfresh].
      case_bool_decide as Hseen.
      { exfalso. apply (Hfresh p); [left | assumption]. }
      cbn. apply IH. split; [assumption|].
      intros q Hq Hin. apply elem_of_union in Hin as [Hin|Hin].
      * apply elem_of_singleton in Hin. apply Hp.
        rewrite <- Hin. apply list_elem_of_In, in_map, list_elem_of_In, Hq.
      * apply (Hfresh q); [right|]; assumption.
Qed.

(** [checkUniqueIds] is silent exactly on datasets without a repeated
    [project_id]. *)
Lemma checkUniqueIds_nil ps :
  checkUniqueIds ps = [] <-> NoDup (map project_id ps).
Proof.
  unfold checkUniqueIds. rewrite checkUniqueIds_from_nil.
  split; [tauto|]. intros H. split; [assumption|].
  intros p _. apply not_elem_of_empty.
Qed.

Section ValidatorMore.

Variable schemaValidate : Data -> ValidationResult.
Variable Date_parse : string -> jsnum.

Local Abbreviation validateDataset :=
  (validateDataset schemaValidate Date_parse).

(** X1: in a dataset reported valid no two records share a
    [project_id]. *)
Theorem valid_ids_unique data :
  valid (validateDataset data) = true ->
  exists ps, data = Projects ps /\ NoDup (map project_id ps).
Proof.
  intros Hvalid. destruct (valid_is_array _ _ _ Hvalid) as [ps ->].
  exists ps. split; [reflexivity|].
  apply valid_checks_pass in Hvalid as (_ & Hunique & _).
  apply checkUniqueIds_nil, Hunique.
Qed.

(** X2: in a dataset reported valid every [project_id] is a non-empty
    string of lower-case letters, digits and hyphens that neither
    starts nor ends with a hyphen. *)
Theorem valid_ids_well_formed data :
  valid (validateDataset data) = true ->
  exists ps, data = Projects ps
    /\ forall p, p ∈ ps ->
         project_id p <> EmptyString
         /\ all_chars is_id_inner (project_id p) = true
         /\ startsWith (project_id p) "-" = false
         /\ endsWith (project_id p) "-" = false.
Proof.
  intros Hvalid. destruct (valid_is_array _ _ _ Hvalid) as [ps ->].
  exists ps. split; [reflexivity|]. intros p Hp.
  apply valid_checks_pass in Hvalid as (_ & _ & Hformat & _).
  pose proof (flat_map_nil_inv _ _ Hformat p Hp) as Hone.
  cbv beta in Hone. apply id_pattern_test_iff.
  destruct (id_pattern_test (project_id p)); [reflexivity|].
  discriminate Hone.
Qed.

(** X3: in a dataset reported valid every date and timestamp field
    that holds a string holds one that [Date.parse] reads. *)
Theorem valid_dates_parse data :
  valid (validateDataset data) = true ->
  exists ps, data = Projects ps
    /\ forall p field val, p ∈ ps ->
         field ∈ dateFields ++ datetimeFields ->
         get p field = Some (JStr val) ->
         isNaN (Date_parse val) = false.
Proof.
  intros Hvalid. destruct (valid_is_array _ _ _ Hvalid) as [ps ->].
  exists ps. split; [reflexivity|]. intros p field val Hp Hfield Hget.
  apply valid_checks_pass in Hvalid as (_ & _ & _ & _ & _ & Hdates).
  pose proof (flat_map_nil_inv _ _ Hdates p Hp) as Hp_ok.
  cbv beta in Hp_ok. apply app_eq_nil in Hp_ok as [Hd Hdt].
  assert (Hone : forall kind fields,
            date_errors Date_parse kind fields p = [] -> field ∈ fields ->
            isNaN (Date_parse val) = false).
  { intros kind fields Hnil Hin. unfold date_errors in Hnil.
    pose proof (flat_map_nil_inv _ _ Hnil field Hin) as H.
    cbv beta in H. rewrite Hget in H.
    destruct (isNaN (Date_parse val)); [discriminate H | reflexivity]. }
  apply elem_of_app in Hfield as [Hfield|Hfield]; eauto.
Qed.

(** X4: in a dataset reported valid every key of a confidence map
    names a property of its record, own or inherited from
    [Object.prototype], and names no observatory-managed field. *)
Theorem valid_confidence_keys data :
  valid (validateDataset data) = true ->
  exists ps, data = Projects ps
    /\ forall p key tier, p ∈ ps -> (key, tier) ∈ data_confidence p ->
         has OBSERVATORY_MANAGED_FIELDS key = false
         /\ has_property p key = true.
Proof.
  intros Hvalid. destruct (valid_is_array _ _ _ Hvalid) as [ps ->].
  exists ps. split; [reflexivity|].
  exact (confidence_keys_are_properties _ _ ps Hvalid).
Qed.

End ValidatorMore.

(** A dataset of two records with different ids. *)
Lemma valid_ids_unique_witness :
  exists ps,
    Projects [minimalProject "a" ["b"]; minimalProject "b" []] = Projects ps
    /\ NoDup (map project_id ps).
Proof.
  apply (valid_ids_unique Schema.schemaValidate JsDate.Date_parse).
  vm_compute. reflexivity.
Defined.

Lemma valid_ids_well_formed_witness :
  exists ps,
    Projects [minimalProject "canton-patterns" []] = Projects ps
    /\ forall p, p ∈ ps ->
         project_id p <> EmptyString
         /\ all_chars is_id_inner (project_id p) = true
         /\ startsWith (project_id p) "-" = false
         /\ endsWith (project_id p) "-" = false.
Proof.
  apply (valid_ids_well_formed Schema.schemaValidate JsDate.Date_parse).
  vm_compute. reflexivity.
Defined.

Lemma valid_dates_parse_witness :
  exists ps,
    Projects [makeMinimalProject] = Projects ps
    /\ forall p field val, p ∈ ps ->
         field ∈ dateFields ++ datetimeFields ->
         get p field = Some (JStr val) ->
         isNaN (JsDate.Date_parse val) = false.
Proof.
  apply (valid_dates_parse Schema.schemaValidate JsDate.Date_parse).
  vm_compute. reflexivity.
Defined.

Lemma valid_confidence_keys_witness :
  exists ps,
    Projects [makeMinimalProject] = Projects ps
    /\ forall p key tier, p ∈ ps -> (key, tier) ∈ data_confidence p ->
         has OBSERVATORY_MANAGED_FIELDS key = false
         /\ has_property p key = true.
Proof.
  apply (valid_confidence_keys Schema.schemaValidate JsDate.Date_parse).
  vm_compute. reflexivity.
Defined.

End ValidateMoreFacts.

(** * Properties of the confidence model *)

Module ConfidenceMapFacts.
Import Types Js Confidence ConfidenceMap Validate Fixtures.

Lemma flat_map_nil {A B} (f : A -> list B) (l : list A) :
  Forall (fun x => f x = []) l -> flat_map f l = [].
Proof.
  induction 1 as [|x l Hx _ IH]; cbn; [reflexivity|].
  rewrite Hx, IH. reflexivity.
Qed.

Lemma flat_map_ext_elem {A B} (f g : A -> list B) (l : list A) :
  (forall x, x ∈ l -> f x = g x) -> flat_map f l = flat_map g l.
Proof.
  induction l as [|x l IH]; cbn; intros H; [reflexivity|].
  rewrite (H x), IH; [reflexivity | | left].
  intros y Hy. apply H. right. exact Hy.
Qed.

Lemma assoc_elem {A} key (v : A) l :
  NoDup (map fst l) -> (key, v) ∈ l -> assoc key l = Some v.
Proof.
  induction l as [|[k w] l IH]; cbn; intros Hnd Hin; [inversion Hin|].
  apply NoDup_cons in Hnd as [Hk Hnd].
  apply elem_of_cons in Hin as [[= <- <-]|Hin].
  - rewrite String.eqb_refl. reflexivity.
  - destruct (String.eqb_spec k key) as [->|Hne]; [|auto].
    exfalso. apply Hk, list_elem_of_In, in_map_iff.
    exists (key, v). split; [reflexivity | apply list_elem_of_In, Hin].
Qed.

Lemma assoc_Some_elem {A} key (v : A) l : assoc key l = Some v -> (key, v) ∈ l.
Proof.
  induction l as [|[k w] l IH]; cbn; [discriminate|].
  destruct (String.eqb_spec k key) as [->|Hne].
  - intros [= ->]. left.
  - intros H. right. auto.
Qed.

(** The own property names of a project do not depend on it and are
    pairwise different. *)
Lemma own_property_names p :
  map fst (own_properties p)
  = map fst (own_properties makeMinimalProject).
Proof. reflexivity. Qed.

Lemma own_property_names_NoDup p : NoDup (map fst (own_properties p)).
Proof.
  rewrite own_property_names.
  refine (bool_decide_unpack _ _). vm_compute. exact I.
Qed.

Lemma get_own p key v :
  (key, v) ∈ own_properties p -> get p key = Some v.
Proof.
  intros Hin. unfold get.
  rewrite (assoc_elem key v _ (own_property_names_NoDup p) Hin).
  reflexivity.
Qed.

(** Replacing the confidence map changes no other property. *)
Lemma own_properties_with_confidence p confidence key v :
  key <> "data_confidence" ->
  (key, v) ∈ own_properties p ->
  (key, v) ∈ own_properties (with_confidence p confidence).
Proof.
  intros Hne Hin. unfold own_properties in *. cbn [with_confidence
    project_id display_name entity_name entity_jurisdiction
    foundation_member validator_status website_url contact_url
    description category partnerships status network canton_sdk_version
    last_verified_activity launch_date featured_app open_source repo_url
    license_type security_audit has_tests test_count has_ci ci_status
    has_documentation documentation_url tech_stack tx_count_30d
    tx_count_90d unique_parties_30d cc_burned_30d featured_markers_30d
    onchain_since created_at updated_at claimed claimed_by claimed_at
    data_confidence last_auto_refresh notes].
  repeat (apply elem_of_cons in Hin as [Hin|Hin];
          [first [ injection Hin as Hk _; congruence
                 | rewrite Hin; clear; repeat first [left | right] ]|]).
  inversion Hin.
Qed.

Lemma managed_data_confidence :
  has OBSERVATORY_MANAGED_FIELDS "data_confidence" = true.
Proof. vm_compute. reflexivity. Qed.

(** An entry of the built map comes from a property that is not
    managed, and its tier is null exactly when the value is. *)
Lemma buildConfidenceMap_entry p existing key tier :
  (key, tier) ∈ buildConfidenceMap p existing ->
  exists value,
    (key, value) ∈ own_properties p
    /\ has OBSERVATORY_MANAGED_FIELDS key = false
    /\ tier = if is_null value then None
              else match existing_tier existing key with
                   | Some t => Some t
                   | None => assignTier key false (defaultSourceForField key)
                   end.
Proof.
  unfold buildConfidenceMap, confidence_entries. intros Hin.
  apply list_elem_of_In, in_flat_map in Hin as ([k v] & Hprop & Hin).
  apply list_elem_of_In in Hprop. cbn [fst snd] in Hin.
  destruct (has OBSERVATORY_MANAGED_FIELDS k) eqn:Hm; [inversion Hin|].
  exists v.
  destruct (is_null v).
  - destruct Hin as [[= <- <-]|[]]. repeat split; assumption.
  - destruct (existing_tier existing k) eqn:He;
      destruct Hin as [[= <- <-]|[]]; rewrite ?He;
      repeat split; assumption || reflexivity.
Qed.

Lemma assignTier_not_null key source :
  has OBSERVATORY_MANAGED_FIELDS key = false ->
  assignTier key false source <> None.
Proof. intros Hm. unfold assignTier. rewrite Hm. destruct source; discriminate. Qed.

(** X5: a project that carries the map [buildConfidenceMap] builds for
    it passes [validateConfidenceMap], whatever the existing map was:
    every key is a non-managed field, and a tier is null exactly when
    the value is. *)
Theorem buildConfidenceMap_valid p existing :
  validateConfidenceMap (with_confidence p (buildConfidenceMap p existing))
  = [].
Proof.
  unfold validateConfidenceMap.
  change (data_confidence (with_confidence p (buildConfidenceMap p existing)))
    with (buildConfidenceMap p existing).
  apply flat_map_nil. apply Forall_forall. intros [key tier] Hin.
  apply buildConfidenceMap_entry in Hin as (value & Hprop & Hm & ->).
  cbn [fst snd]. rewrite Hm.
  assert (key <> "data_confidence") as Hne
    by (intros ->; rewrite managed_data_confidence in Hm; discriminate).
  rewrite (get_own _ key value
             (own_properties_with_confidence p _ key value Hne Hprop)).
  destruct (is_null value); [reflexivity|].
  destruct (existing_tier existing key); [reflexivity|].
  pose proof (assignTier_not_null key (defaultSourceForField key) Hm).
  destruct (assignTier key false (defaultSourceForField key));
    [reflexivity | contradiction].
Qed.

Lemma buildConfidenceMap_keys_filter p existing :
  map fst (buildConfidenceMap p existing)
  = List.filter (fun key => negb (has OBSERVATORY_MANAGED_FIELDS key))
                (map fst (own_properties p)).
Proof.
  unfold buildConfidenceMap, confidence_entries.
  induction (own_properties p) as [|[k v] l IH]; [reflexivity|].
  cbn [flat_map map List.filter fst snd]. rewrite map_app, IH.
  destruct (has OBSERVATORY_MANAGED_FIELDS k); [reflexivity|].
  destruct (is_null v); [reflexivity|].
  destruct (existing_tier existing k); reflexivity.
Qed.

(** X6: in whatever order the project object lists its properties, the
    built map has one entry for each property that is not
    observatory-managed, in that same order, and no other entry,
    whatever the properties hold and whatever the existing map was. *)
Theorem buildConfidenceMap_keys p record existing :
  Permutation record (own_properties p) ->
  map fst (confidence_entries record existing)
  = List.filter (fun key => negb (has OBSERVATORY_MANAGED_FIELDS key))
                (map fst record)
  /\ NoDup (map fst (confidence_entries record existing)).
Proof.
  intros Hperm.
  assert (Hkeys : map fst (confidence_entries record existing)
    = List.filter (fun key => negb (has OBSERVATORY_MANAGED_FIELDS key))
                  (map fst record)).
  { unfold confidence_entries.
    induction record as [|[k v] l IH] in |- *; [reflexivity|].
    cbn [flat_map map List.filter fst snd]. rewrite map_app, IH.
    destruct (has OBSERVATORY_MANAGED_FIELDS k); [reflexivity|].
    destruct (is_null v); [reflexivity|].
    destruct (existing_tier existing k); reflexivity. }
  split; [exact Hkeys|]. rewrite Hkeys.
  apply NoDup_ListNoDup, List.NoDup_filter, NoDup_ListNoDup.
  rewrite Hperm. apply own_property_names_NoDup.
Qed.

Lemma buildConfidenceMap_lookup p existing key value :
  (key, value) ∈ own_properties p ->
  has OBSERVATORY_MANAGED_FIELDS key = false ->
  assoc key (buildConfidenceMap p existing)
  = Some (if is_null value then None
          else match existing_tier existing key with
               | Some t => Some t
               | None => assignTier key false (defaultSourceForField key)
               end).
Proof.
  intros Hprop Hm. apply assoc_elem.
  - rewrite buildConfidenceMap_keys_filter, own_property_names.
    refine (bool_decide_unpack _ _). vm_compute. exact I.
  - unfold buildConfidenceMap, confidence_entries.
    apply list_elem_of_In, in_flat_map.
    exists (key, value). split; [apply list_elem_of_In, Hprop|].
    cbn [fst snd]. rewrite Hm.
    destruct (is_null value); [left; reflexivity|].
    destruct (existing_tier existing key); left; reflexivity.
Qed.

(** X7: building the map again from the map just built changes
    nothing: the tiers it assigned persist. *)
Theorem buildConfidenceMap_idempotent p existing :
  buildConfidenceMap p (Some (buildConfidenceMap p existing))
  = buildConfidenceMap p existing.
Proof.
  unfold buildConfidenceMap at 1 3. unfold confidence_entries.
  apply flat_map_ext_elem. intros [key value] Hprop. cbn [fst snd].
  destruct (has OBSERVATORY_MANAGED_FIELDS key) eqn:Hm; [reflexivity|].
  destruct (is_null value) eqn:Hnull; [reflexivity|].
  unfold existing_tier at 1.
  rewrite (buildConfidenceMap_lookup p existing key value Hprop Hm), Hnull.
  destruct (existing_tier existing key); [reflexivity|].
  pose proof (assignTier_not_null key (defaultSourceForField key) Hm).
  destruct (assignTier key false (defaultSourceForField key));
    [reflexivity | contradiction].
Qed.

(** X8: for a field of the project that is not observatory-managed, a
    field that holds null gets a null tier whatever the caller
    supplies; a tier the caller's map gives a field that holds a value
    is kept; and a field that holds a value for which the caller gives
    no tier (no map, no entry, or a null entry) gets the tier of its
    default source. *)
Theorem buildConfidenceMap_existing p existing key value :
  (key, value) ∈ own_properties p ->
  has OBSERVATORY_MANAGED_FIELDS key = false ->
  (is_null value = true ->
     assoc key (buildConfidenceMap p existing) = Some None)
  /\ (forall given tier,
        is_null value = false ->
        existing = Some given -> assoc key given = Some (Some tier) ->
        assoc key (buildConfidenceMap p existing) = Some (Some tier))
  /\ (is_null value = false ->
      (forall given, existing = Some given ->
         assoc key given = None \/ assoc key given = Some None) ->
      assoc key (buildConfidenceMap p existing)
      = Some (Some (default_tier key))).
Proof.
  intros Hprop Hm.
  rewrite (buildConfidenceMap_lookup p existing key value Hprop Hm).
  split; [|split].
  - intros ->. reflexivity.
  - intros given tier -> -> Hgiven. cbn [existing_tier].
    rewrite Hgiven. reflexivity.
  - intros -> Hnone.
    assert (Hex : existing_tier existing key = None).
    { destruct existing as [given|]; [|reflexivity]. cbn [existing_tier].
      destruct (Hnone given eq_refl) as [-> | ->]; reflexivity. }
    rewrite Hex. unfold assignTier, defaultSourceForField, default_tier.
    rewrite Hm.
    destruct (has AUTO_DETECTED_FIELDS key); [reflexivity|].
    destruct (has MANUALLY_VERIFIED_FIELDS key); reflexivity.
Qed.

(** X9: what [validateConfidenceMap] accepts, the confidence check of
    the dataset validator accepts too. *)
Theorem validateConfidenceMap_implies_checkConfidenceKeys p :
  validateConfidenceMap p = [] -> checkConfidenceKeys [p] = [].
Proof.
  intros Hvalid. unfold checkConfidenceKeys. cbn [flat_map].
  rewrite app_nil_r.
  assert (Hentry : forall key tier, (key, tier) ∈ data_confidence p ->
            has OBSERVATORY_MANAGED_FIELDS key = false
            /\ exists value, get p key = Some value
                 /\ (is_null value = true -> tier = None)).
  { intros key tier Hin.
    pose proof (ValidateFacts.flat_map_nil_inv _ _ Hvalid (key, tier) Hin)
      as Hone. cbn [fst snd] in Hone.
    destruct (has OBSERVATORY_MANAGED_FIELDS key); [discriminate Hone|].
    split; [reflexivity|].
    destruct (get p key) as [value|]; [|discriminate Hone].
    exists value. split; [reflexivity|]. intros Hnull.
    rewrite Hnull in Hone. destruct tier; [discriminate Hone | reflexivity]. }
  apply app_nil. split.
  - unfold confidence_key_errors. apply flat_map_nil, Forall_forall.
    intros key Hkey. apply list_elem_of_In, in_map_iff in Hkey
      as ([k tier] & <- & Hin). apply list_elem_of_In in Hin.
    destruct (Hentry k tier Hin) as (Hm & value & Hget & _).
    cbn [fst]. rewrite Hm. unfold has_property. rewrite Hget. reflexivity.
  - unfold confidence_null_errors. apply flat_map_nil, Forall_forall.
    intros [key tier] Hin.
    destruct (Hentry key tier Hin) as (Hm & value & Hget & Hnull).
    cbn [fst snd]. rewrite Hget.
    destruct value; try reflexivity.
    rewrite (Hnull eq_refl). reflexivity.
Qed.

(** The fixture with its properties listed in the opposite order. *)
Lemma buildConfidenceMap_keys_witness :
  map fst
    (confidence_entries (reverse (own_properties makeMinimalProject)) None)
  = List.filter (fun key => negb (has OBSERVATORY_MANAGED_FIELDS key))
                (map fst (reverse (own_properties makeMinimalProject)))
  /\ NoDup (map fst
              (confidence_entries
                 (reverse (own_properties makeMinimalProject)) None)).
Proof.
  apply (buildConfidenceMap_keys makeMinimalProject).
  apply reverse_Permutation.
Defined.

(** The fixture built against a map that rates its name, its entity
    name (which is null) and nothing else. *)
Lemma buildConfidenceMap_existing_witness :
  let existing :=
    Some [("display_name", Some self_reported);
          ("entity_name", Some verified);
          ("status", None)] in
  assoc "entity_name" (buildConfidenceMap makeMinimalProject existing)
  = Some None
  /\ assoc "display_name" (buildConfidenceMap makeMinimalProject existing)
     = Some (Some self_reported)
  /\ assoc "status" (buildConfidenceMap makeMinimalProject existing)
     = Some (Some (default_tier "status"))
  /\ assoc "description" (buildConfidenceMap makeMinimalProject existing)
     = Some (Some (default_tier "description")).
Proof.
  cbv zeta.
  set (existing := Some [("display_name", Some self_reported);
                         ("entity_name", Some verified);
                         ("status", None)]).
  split; [|split; [|split]].
  - refine (proj1 (buildConfidenceMap_existing makeMinimalProject existing
                     "entity_name" JNull _ eq_refl) eq_refl).
    apply list_elem_of_In. vm_compute. tauto.
  - refine (proj1 (proj2 (buildConfidenceMap_existing makeMinimalProject
                            existing "display_name" (JStr "Test Project")
                            _ eq_refl))
              _ self_reported eq_refl eq_refl eq_refl).
    apply list_elem_of_In. vm_compute. tauto.
  - refine (proj2 (proj2 (buildConfidenceMap_existing makeMinimalProject
                            existing "status" (JStr "unknown")
                            _ eq_refl))
              eq_refl _).
    + apply list_elem_of_In. vm_compute. tauto.
    + intros given [= <-]. right. reflexivity.
  - refine (proj2 (proj2 (buildConfidenceMap_existing makeMinimalProject
                            existing "description" (JStr "A test project")
                            _ eq_refl))
              eq_refl _).
    + apply list_elem_of_In. vm_compute. tauto.
    + intros given [= <-]. left. reflexivity.
Defined.

Lemma validateConfidenceMap_implies_checkConfidenceKeys_witness :
  checkConfidenceKeys
    [with_confidence makeMinimalProject
       (buildConfidenceMap makeMinimalProject None)]
  = [].
Proof.
  apply validateConfidenceMap_implies_checkConfidenceKeys.
  vm_compute. reflexivity.
Defined.

End ConfidenceMapFacts.

(** * Properties of the GitHub client *)

Module ClientMoreFacts.
Import Js Client ClientMore ClientFacts.

Lemma slept_app t1 t2 : slept (t1 ++ t2) = (slept t1 + slept t2)%Z.
Proof.
  unfold slept. rewrite flat_map_app.
  induction (flat_map _ t1) as [|x l IH]; cbn; [reflexivity|].
  cbn in IH. rewrite IH. lia.
Qed.

Lemma checkRateLimit_cases last now_ms :
  checkRateLimit last now_ms = []
  \/ exists r rs,
       remaining last = Some r /\ reset last = Some rs
       /\ (r < 100)%Z
       /\ (0 < rs - now_ms / 1000 + 1 < 3600)%Z
       /\ checkRateLimit last now_ms
          = [Sleep Pacing ((rs - now_ms / 1000 + 1) * 1000)].
Proof.
  unfold checkRateLimit, RATE_LIMIT_THRESHOLD.
  destruct (remaining last) as [r|]; [|left; reflexivity].
  destruct (Z.ltb_spec r 100); [|left; reflexivity].
  destruct (reset last) as [rs|]; [|left; reflexivity].
  cbv zeta.
  destruct (Z.ltb_spec 0 (Z.max 0 (rs - now_ms / 1000 + 1))) as [Hpos|];
    [|left; reflexivity].
  destruct (Z.ltb_spec (Z.max 0 (rs - now_ms / 1000 + 1)) 3600) as [Hlt|];
    [|left; reflexivity].
  right. exists r, rs. cbn [andb].
  rewrite Z.max_r in * by lia. repeat split; try assumption; lia.
Qed.

(** X10. The pacing check of [checkRateLimit] sleeps at most once, never
    when 100 or more requests remain, and only for a whole number of
    seconds between one second and 3599 seconds: the time until the
    reset of the quota, plus one second. *)
Theorem checkRateLimit_bounds (last : RateLimit) (now_ms : Z) :
  length (checkRateLimit last now_ms) <= 1
  /\ (forall e, e ∈ checkRateLimit last now_ms ->
        exists rs, reset last = Some rs
          /\ e = Sleep Pacing ((rs - now_ms / 1000 + 1) * 1000)
          /\ (1000 <= (rs - now_ms / 1000 + 1) * 1000 <= 3599000)%Z)
  /\ (forall r, remaining last = Some r -> (100 <= r)%Z ->
        checkRateLimit last now_ms = [])
  /\ (remaining last = None \/ reset last = None ->
        checkRateLimit last now_ms = []).
Proof.
  destruct (checkRateLimit_cases last now_ms)
    as [Hq | (r & rs & Hr & Hrs & Hlow & Hwait & Hq)]; rewrite Hq.
  - repeat split; cbn; try lia.
    intros e He. apply elem_of_nil in He. contradiction.
  - split; [cbn; lia|]. split; [|split].
    + intros e He. apply list_elem_of_singleton in He. subst e.
      exists rs. repeat split; try assumption; lia.
    + intros r' Hr' Hge. rewrite Hr in Hr'. injection Hr' as <-. lia.
    + intros [Hn | Hn]; congruence.
Qed.

Lemma slept_checkRateLimit last now_ms :
  (0 <= slept (checkRateLimit last now_ms) <= 3599000)%Z.
Proof.
  destruct (checkRateLimit_cases last now_ms)
    as [Hq | (r & rs & _ & _ & _ & Hwait & Hq)]; rewrite Hq; cbn; lia.
Qed.

Section GetMoreFacts.

Context {T : Type}.
Variable responses : nat -> FetchOutcome T.
Variable now : nat -> Z.

Local Abbreviation attempt_once := (attempt_once responses).
Local Abbreviation attempt_events := (attempt_events now).
Local Abbreviation get_loop := (get_loop responses now).

(** The responses among the outcomes of fetches [from], ..., [from + n - 1]. *)
Local Abbreviation received_from from n :=
  (flat_map
     (fun k => match responses k with
               | Responded r => [r]
               | Rejected _ => []
               end)
     (seq from n)).

Ltac loop_cases left attempt last lastError e last' Hstep :=
  destruct (get_loop_cases responses now left attempt last lastError)
    as [(? & last' & Hstep & ->) | (e & last' & Hstep & ->)];
  cbn [fst snd];
  rewrite ?requests_app, ?requests_attempt.

Lemma slept_attempt attempt last :
  (0 <= slept (attempt_events attempt last)
   <= (if (0 <? attempt)%nat then backoff_delay attempt else 0) + 3599000)%Z.
Proof.
  unfold Client.attempt_events. rewrite !slept_app.
  pose proof (slept_checkRateLimit last (now attempt)) as Hc.
  assert (Hr : slept [Request] = 0%Z) by reflexivity. rewrite Hr.
  destruct attempt as [|n]; cbn [Nat.ltb Nat.leb app slept flat_map fold_right].
  - fold (slept (checkRateLimit last (now 0))). lia.
  - assert (Hb : (0 < backoff_delay (S n))%Z).
    { unfold backoff_delay, INITIAL_BACKOFF_MS.
      apply Z.mul_pos_pos; [lia|]. apply Z.pow_pos_nonneg; lia. }
    fold (slept (checkRateLimit last (now (S n)))). lia.
Qed.

(** Each iteration folds the headers of the response it received, if it
    received one, into the snapshot. *)
Lemma attempt_once_snapshot attempt last :
  (attempt_once attempt last).2
  = fold_left updateRateLimit (received_from attempt 1) last.
Proof.
  unfold Client.attempt_once. cbn [seq flat_map].
  destruct (responses attempt) as [m|r]; reflexivity.
Qed.

Lemma received_from_S from n :
  received_from from (S n) = received_from from 1 ++ received_from (S from) n.
Proof. cbn [seq flat_map]. rewrite app_nil_r. reflexivity. Qed.

(** What iteration [k] of the loop sees and does, when the loop gets as
    far as [k]: it starts from the snapshot folded over the responses
    received so far, and either leaves the loop, or is followed by
    another iteration, or was the last iteration allowed. *)
Lemma get_loop_at left : forall attempt last lastError k,
  attempt <= k < attempt + requests (get_loop left attempt last lastError).2 ->
  let lastk :=
    fold_left updateRateLimit (received_from attempt (k - attempt)) last in
  match attempt_once k lastk with
  | (Leave outcome, last') =>
      (get_loop left attempt last lastError).1.1 = outcome
      /\ (get_loop left attempt last lastError).1.2 = last'
      /\ attempt + requests (get_loop left attempt last lastError).2 = S k
  | (Continue error, last') =>
      if S k <? attempt + left
      then S k < attempt + requests (get_loop left attempt last lastError).2
      else (get_loop left attempt last lastError).1.1 = Thrown error
           /\ (get_loop left attempt last lastError).1.2 = last'
           /\ attempt + requests (get_loop left attempt last lastError).2
              = S k
  end.
Proof.
  induction left as [|left IH]; intros attempt last lastError k.
  { rewrite get_loop_O. cbn. lia. }
  loop_cases left attempt last lastError e last' Hstep.
  - intros Hk. assert (k = attempt) as -> by lia.
    rewrite Nat.sub_diag. cbn [seq flat_map fold_left].
    rewrite Hstep. repeat split; reflexivity || lia.
  - intros Hk.
    destruct (Nat.eq_dec k attempt) as [-> | Hne].
    + rewrite Nat.sub_diag. cbn [seq flat_map fold_left]. rewrite Hstep.
      destruct left as [|left].
      * rewrite get_loop_O. cbn [fst snd requests List.filter length].
        destruct (Nat.ltb_spec (S attempt) (attempt + 1)); [lia|].
        repeat split; reflexivity || lia.
      * destruct (get_loop_requests responses now (S left) (S attempt) last'
                    (Some e)) as [_ Hpos].
        specialize (Hpos ltac:(lia)).
        destruct (Nat.ltb_spec (S attempt) (attempt + S (S left))); lia.
    + specialize (IH (S attempt) last' (Some e) k ltac:(lia)).
      cbv zeta in IH |- *.
      replace (k - attempt) with (S (k - S attempt)) by lia.
      rewrite received_from_S, fold_left_app, <- attempt_once_snapshot, Hstep.
      cbn [snd].
      destruct (attempt_once k _) as [[outcome | error] lastk'].
      * destruct IH as (-> & -> & Hreq). repeat split; try reflexivity. lia.
      * replace (S k <? attempt + S left) with (S k <? S attempt + left)
          by (f_equal; lia).
        destruct (S k <? S attempt + left); [lia|].
        destruct IH as (-> & -> & Hreq). repeat split; try reflexivity. lia.
Qed.

Lemma get_loop_slept left : forall attempt last lastError,
  (0 <= slept (get_loop left attempt last lastError).2
   <= fold_right Z.add 0 (backoffs (get_loop left attempt last lastError).2)
      + 3599000
        * Z.of_nat (requests (get_loop left attempt last lastError).2))%Z.
Proof.
  induction left as [|left IH]; intros attempt last lastError.
  { rewrite get_loop_O. cbn. lia. }
  pose proof (slept_attempt attempt last) as Hs.
  pose proof (backoffs_attempt now attempt last) as Hb.
  destruct (get_loop_cases responses now left attempt last lastError)
    as [(? & last' & Hstep & ->) | (e & last' & Hstep & ->)]; cbn [fst snd].
  - rewrite Hb, requests_attempt.
    destruct (0 <? attempt)%nat; cbn [fold_right]; lia.
  - specialize (IH (S attempt) last' (Some e)).
    rewrite slept_app, backoffs_app, requests_app, requests_attempt, Hb.
    rewrite fold_right_app.
    assert (Hfold : forall l a,
      fold_right Z.add a l = (fold_right Z.add 0 l + a)%Z).
    { induction l as [|x l IHl]; intros a; cbn; [lia|]. rewrite IHl. lia. }
    rewrite Hfold.
    destruct (0 <? attempt)%nat; cbn [fold_right] in *; lia.
Qed.

Lemma get_at (last : RateLimit) (k : nat) :
  k < requests (get responses now last).2 ->
  match attempt_once k
          (fold_left updateRateLimit (received responses k) last) with
  | (Leave outcome, last') =>
      (get responses now last).1.1 = outcome
      /\ (get responses now last).1.2 = last'
      /\ requests (get responses now last).2 = S k
  | (Continue error, last') =>
      if S k <? 4
      then S k < requests (get responses now last).2
      else (get responses now last).1.1 = Thrown error
           /\ (get responses now last).1.2 = last'
           /\ requests (get responses now last).2 = S k
  end.
Proof.
  intros Hk.
  pose proof (get_loop_at (MAX_RETRIES + 1) 0 last None k) as H.
  cbv zeta in H. rewrite Nat.sub_0_r in H. cbn [Nat.add] in H.
  apply H. unfold get in Hk. lia.
Qed.

(** X11. One call of [get] sleeps, backoff and pacing together, for at
    most seven seconds plus 3599 seconds for each request it makes:
    never more than 14403 seconds. *)
Theorem get_sleep_bound (last : RateLimit) :
  (0 <= slept (get responses now last).2
   <= 7000 + 3599000 * Z.of_nat (requests (get responses now last).2))%Z
  /\ (slept (get responses now last).2 <= 14403000)%Z.
Proof.
  unfold get.
  pose proof (get_loop_slept (MAX_RETRIES + 1) 0 last None) as Hs.
  pose proof (get_loop_backoffs responses now (MAX_RETRIES + 1) 0 last None)
    as Hb.
  destruct (get_loop_requests responses now (MAX_RETRIES + 1) 0 last None)
    as [Hle _].
  rewrite Hb in Hs. clear Hb.
  set (n := requests _) in *.
  assert (Hsum :
    (fold_right Z.add 0
       (map backoff_delay (List.filter (fun k => (0 <? k)%nat) (seq 0 n)))
     <= 7000)%Z).
  { cbn in Hle.
    destruct n as [|[|[|[|[|n]]]]]; [vm_compute; discriminate..|lia]. }
  cbn in Hle. lia.
Qed.

(** The response behind a result of [get]. *)
Lemma get_returns (last : RateLimit) (r : GitHubResponse T) :
  (get responses now last).1.1 = Returned r ->
  exists resp,
    responses (requests (get responses now last).2 - 1) = Responded resp
    /\ ok resp = true
    /\ response_status r = http_status resp
    /\ json resp = Parsed (data r)
    /\ rateLimit r = (get responses now last).1.2.
Proof.
  intros Hret.
  destruct (get_loop_requests responses now (MAX_RETRIES + 1) 0 last None)
    as [_ Hpos].
  specialize (Hpos ltac:(cbn; lia)). fold (get responses now last) in Hpos.
  pose proof (get_at last (requests (get responses now last).2 - 1)
                ltac:(lia)) as H.
  set (k := requests _ - 1) in *.
  set (lastk := fold_left _ _ _) in H.
  unfold Client.attempt_once in H.
  destruct (responses k) as [m | resp].
  - destruct (k =? MAX_RETRIES)%nat.
    + destruct H as (H & _). congruence.
    + destruct (S k <? 4); [lia|]. destruct H as (H & _). congruence.
  - exists resp. split; [reflexivity|].
    destruct (http_status resp =? 404)%Z; [destruct H; congruence|].
    destruct (http_status resp =? 403)%Z.
    { destruct (exhausted _); [|destruct H; congruence].
      destruct (S k <? 4); [lia|]. destruct H as (H & _). congruence. }
    destruct (http_status resp =? 409)%Z; [destruct H; congruence|].
    destruct (http_status resp >=? 500)%Z.
    { destruct (S k <? 4); [lia|]. destruct H as (H & _). congruence. }
    destruct (ok resp); cbn [negb] in H; [|destruct H; congruence].
    destruct (json resp) as [d | m].
    + destruct H as (H & Hlast & _). rewrite Hret in H.
      injection H as ->. cbn [data response_status rateLimit].
      repeat split; try reflexivity. symmetry. exact Hlast.
    + destruct (k =? MAX_RETRIES)%nat.
      * destruct H as (H & _). congruence.
      * destruct (S k <? 4); [lia|]. destruct H as (H & _). congruence.
Qed.

(** X12. What [get] returns is the response to its last request: that
    response had a status from 200 to 299 and a body that parsed, and
    the result carries this status, this body, and the rate-limit
    snapshot as the client holds it when the call ends. *)
Theorem get_returns_last_response (last : RateLimit) (r : GitHubResponse T) :
  (get responses now last).1.1 = Returned r ->
  exists resp,
    responses (requests (get responses now last).2 - 1) = Responded resp
    /\ ok resp = true
    /\ response_status r = http_status resp
    /\ json resp = Parsed (data r)
    /\ rateLimit r = (get responses now last).1.2.
Proof. apply get_returns. Qed.

(** X13. A response that is not a success, with a status below 500
    other than 403, ends the call at once: [get] throws an error that
    carries that status and is not retryable, and makes no further
    request. *)
Theorem get_client_error_not_retried (last : RateLimit) (k : nat)
    (resp : Response T) :
  k < requests (get responses now last).2 ->
  responses k = Responded resp ->
  ok resp = false -> (http_status resp < 500)%Z ->
  http_status resp <> 403%Z ->
  exists e,
    (get responses now last).1.1 = Thrown e
    /\ status e = http_status resp
    /\ retryable e = false
    /\ requests (get responses now last).2 = S k.
Proof.
  intros Hk Hresp Hok Hlt Hne.
  pose proof (get_at last k Hk) as H.
  unfold Client.attempt_once in H. rewrite Hresp in H.
  destruct (Z.eqb_spec (http_status resp) 404) as [E|_].
  { destruct H as (-> & _ & ->). exists not_found.
    rewrite E. repeat split; reflexivity. }
  destruct (Z.eqb_spec (http_status resp) 403); [contradiction|].
  destruct (Z.eqb_spec (http_status resp) 409) as [E|_].
  { destruct H as (-> & _ & ->). exists conflict.
    rewrite E. repeat split; reflexivity. }
  destruct (Z.geb_spec (http_status resp) 500); [lia|].
  rewrite Hok in H. cbn [negb] in H.
  destruct H as (-> & _ & ->). exists (http_error (http_status resp)).
  repeat split; reflexivity.
Qed.

(** X14. A 403 is a rate-limit error exactly when the headers received
    so far, those of the 403 included, leave no request remaining: then
    it is retried while attempts are left, and thrown as retryable
    after the fourth; otherwise it is thrown at once as [Forbidden]. *)
Theorem get_forbidden_or_rate_limited (last : RateLimit) (k : nat)
    (resp : Response T) :
  k < requests (get responses now last).2 ->
  responses k = Responded resp ->
  http_status resp = 403%Z ->
  if exhausted
       (fold_left updateRateLimit (received responses (S k)) last)
  then (k < 3 -> S k < requests (get responses now last).2)
       /\ (k = 3 ->
           (get responses now last).1.1 = Thrown rate_limit_exceeded)
  else (get responses now last).1.1 = Thrown forbidden
       /\ requests (get responses now last).2 = S k.
Proof.
  intros Hk Hresp Hst.
  pose proof (get_at last k Hk) as H.
  assert (Hsnap :
    fold_left updateRateLimit (received responses (S k)) last
    = updateRateLimit
        (fold_left updateRateLimit (received responses k) last) resp).
  { unfold received. rewrite seq_S, flat_map_app, fold_left_app.
    cbn [flat_map Nat.add]. rewrite Hresp. reflexivity. }
  rewrite Hsnap.
  unfold Client.attempt_once in H. rewrite Hresp, Hst in H.
  cbn [Z.eqb Pos.eqb] in H.
  destruct (exhausted _).
  - destruct (Nat.ltb_spec (S k) 4).
    + split; [intros _; exact H | lia].
    + destruct H as (H & _). split; [lia | intros _; exact H].
  - destruct H as (H & _ & Hreq). split; assumption.
Qed.

(** X15. A fetch that is rejected, and a successful response whose body
    is not JSON, are handled alike: another request follows while
    attempts are left, and after the fourth [get] throws a retryable
    error with status 0 that carries the message of the failure. *)
Theorem get_network_failure_retried (last : RateLimit) (k : nat) :
  k < requests (get responses now last).2 ->
  (forall m, responses k = Rejected m ->
     (k < 3 -> S k < requests (get responses now last).2)
     /\ (k = 3 ->
         (get responses now last).1.1 = Thrown (network_error m)))
  /\ (forall resp m, responses k = Responded resp ->
        ok resp = true -> json resp = Malformed m ->
        (k < 3 -> S k < requests (get responses now last).2)
        /\ (k = 3 ->
            (get responses now last).1.1
            = Thrown (network_error (Some m)))).
Proof.
  intros Hk. pose proof (get_at last k Hk) as H.
  unfold Client.attempt_once, MAX_RETRIES in H.
  split.
  - intros m Hresp. rewrite Hresp in H.
    destruct (Nat.eqb_spec k 3) as [-> | Hne].
    + destruct H as (H & _). split; [lia | intros _; exact H].
    + destruct (Nat.ltb_spec (S k) 4); [|lia].
      split; [intros _; exact H | lia].
  - intros resp m Hresp Hok Hjson. rewrite Hresp, Hok, Hjson in H.
    unfold ok in Hok. apply andb_prop in Hok as [Hlo Hhi].
    apply Z.leb_le in Hlo, Hhi.
    destruct (Z.eqb_spec (http_status resp) 404); [lia|].
    destruct (Z.eqb_spec (http_status resp) 403); [lia|].
    destruct (Z.eqb_spec (http_status resp) 409); [lia|].
    destruct (Z.geb_spec (http_status resp) 500); [lia|].
    cbn [negb] in H.
    destruct (Nat.eqb_spec k 3) as [-> | Hne].
    + destruct H as (H & _). split; [lia | intros _; exact H].
    + destruct (Nat.ltb_spec (S k) 4); [|lia].
      split; [intros _; exact H | lia].
Qed.

End GetMoreFacts.

Lemma get_throws_404 {T} (responses : nat -> FetchOutcome T) now last e :
  (get responses now last).1.1 = Thrown e -> status e = 404%Z ->
  exists resp,
    responses (requests (get responses now last).2 - 1) = Responded resp
    /\ http_status resp = 404%Z.
Proof.
  intros Hthrown Hstatus.
  destruct (get_loop_requests responses now (MAX_RETRIES + 1) 0 last None)
    as [_ Hpos].
  specialize (Hpos ltac:(cbn; lia)). fold (get responses now last) in Hpos.
  pose proof (get_at responses now last
                (requests (get responses now last).2 - 1) ltac:(lia)) as H.
  set (k := requests _ - 1) in *.
  unfold Client.attempt_once in H.
  assert (Hend : forall error lastk,
    (if S k <? 4
     then S k < requests (get responses now last).2
     else (get responses now last).1.1 = Thrown error
          /\ (get responses now last).1.2 = lastk
          /\ requests (get responses now last).2 = S k) ->
    status error <> 404%Z -> False).
  { intros error lastk Hif Hne. destruct (S k <? 4); [lia|].
    destruct Hif as (Hif & _). congruence. }
  destruct (responses k) as [m | resp].
  - destruct (k =? MAX_RETRIES)%nat.
    + destruct H as (H & _). rewrite Hthrown in H. injection H as ->.
      discriminate Hstatus.
    + exfalso. eapply Hend; [exact H | discriminate].
  - exists resp. split; [reflexivity|].
    destruct (Z.eqb_spec (http_status resp) 404) as [E|Hne]; [exact E|].
    exfalso.
    destruct (http_status resp =? 403)%Z.
    { destruct (exhausted _).
      - eapply Hend; [exact H | discriminate].
      - destruct H as (H & _). rewrite Hthrown in H. injection H as ->.
        discriminate Hstatus. }
    destruct (http_status resp =? 409)%Z.
    { destruct H as (H & _). rewrite Hthrown in H. injection H as ->.
      discriminate Hstatus. }
    destruct (Z.geb_spec (http_status resp) 500).
    { eapply Hend; [exact H | cbn; lia]. }
    destruct (ok resp); cbn [negb] in H.
    + destruct (json resp) as [d | m].
      * destruct H as (H & _). congruence.
      * destruct (k =? MAX_RETRIES)%nat.
        -- destruct H as (H & _). rewrite Hthrown in H. injection H as ->.
           discriminate Hstatus.
        -- eapply Hend; [exact H | discriminate].
    + destruct H as (H & _). rewrite Hthrown in H. injection H as ->.
      cbn in Hstatus. contradiction.
Qed.

(** X17. [getFileContent] turns a 404, and nothing else, into the
    answer null: it never throws an error with status 404; it returns
    null when a request of the call is answered with 404, and only
    when the last one was; and a string it returns is the content of
    the last response, decoded when the encoding is [base64]. *)
Theorem getFileContent_null_iff_404
    (responses : nat -> FetchOutcome FileContent) (now : nat -> Z)
    (decode_base64 : string -> string) (last : RateLimit) :
  let run := getFileContent responses now decode_base64 last in
  (forall e, run.1.1 = inr e -> status e <> 404%Z)
  /\ (forall k resp, k < requests run.2 ->
        responses k = Responded resp -> http_status resp = 404%Z ->
        run.1.1 = inl None)
  /\ (run.1.1 = inl None ->
        exists resp,
          responses (requests run.2 - 1) = Responded resp
          /\ http_status resp = 404%Z)
  /\ (forall s, run.1.1 = inl (Some s) ->
        exists resp file,
          responses (requests run.2 - 1) = Responded resp
          /\ ok resp = true /\ json resp = Parsed file
          /\ s = if String.eqb (encoding file) "base64"
                 then decode_base64 (content file)
                 else content file).
Proof.
  cbv zeta. unfold getFileContent.
  pose proof (get_throws_404 responses now last) as H404.
  pose proof (get_returns responses now last) as Hret.
  pose proof (get_loop_404 responses now (MAX_RETRIES + 1) 0 last None)
    as Hnf.
  fold (get responses now last) in Hnf.
  destruct (get responses now last) as [[outcome last'] trace].
  cbn [fst snd] in *.
  destruct outcome as [r | e].
  - split; [|split; [|split]].
    + intros e He. destruct (String.eqb _ _); discriminate He.
    + intros k resp Hk Hresp Hst.
      destruct (Hnf k resp ltac:(lia) Hresp Hst) as [Hno _].
      discriminate Hno.
    + intros He. destruct (String.eqb _ _); discriminate He.
    + intros s Hs.
      destruct (Hret r eq_refl) as (resp & Hresp & Hok & _ & Hjson & _).
      exists resp, (data r). repeat split; try assumption.
      destruct (String.eqb _ _); injection Hs as <-; reflexivity.
  - split; [|split; [|split]].
    + intros e' He'. destruct (Z.eqb_spec (status e) 404); [discriminate|].
      injection He' as <-. assumption.
    + intros k resp Hk Hresp Hst.
      destruct (Hnf k resp ltac:(lia) Hresp Hst) as [Hno _].
      injection Hno as ->. reflexivity.
    + intros He. destruct (Z.eqb_spec (status e) 404) as [E|]; [|discriminate].
      exact (H404 e eq_refl E).
    + intros s Hs. destruct (status e =? 404)%Z; discriminate Hs.
Qed.

(** A 500 followed by a 200. *)
Lemma get_returns_last_response_witness :
  exists resp : Response nat,
    ok resp = true /\ json resp = Parsed 7.
Proof.
  destruct (get_returns_last_response
              (fun k => if (k =? 0)%nat then respond 500 (Parsed 0)
                        else respond 200 (Parsed 7))
              (fun _ => 0%Z) initialRateLimit
              {| data := 7; response_status := 200;
                 rateLimit := {| remaining := Some 4999%Z;
                                 reset := Some 0%Z |} |}
              ltac:(vm_compute; reflexivity))
    as (resp & _ & Hok & _ & Hjson & _).
  exists resp. split; assumption.
Defined.

(** A 503 followed by a 422. *)
Lemma get_client_error_not_retried_witness :
  exists e,
    (get (fun k => if (k =? 0)%nat then respond 503 (Parsed tt)
                   else respond 422 (Parsed tt))
         (fun _ => 0%Z) initialRateLimit).1.1 = Thrown e
    /\ status e = 422%Z /\ retryable e = false.
Proof.
  destruct (get_client_error_not_retried
              (fun k => if (k =? 0)%nat then respond 503 (Parsed tt)
                        else respond 422 (Parsed tt))
              (fun _ => 0%Z) initialRateLimit 1
              {| http_status := 422;
                 x_ratelimit_remaining := Some (Some 4999%Z);
                 x_ratelimit_reset := Some (Some 0%Z);
                 json := Parsed tt |})
    as (e & He & Hstatus & Hretry & _).
  - vm_compute. lia.
  - reflexivity.
  - reflexivity.
  - vm_compute. reflexivity.
  - discriminate.
  - exists e. repeat split; assumption.
Defined.

(** A 403 whose headers leave 4999 requests. *)
Lemma get_forbidden_or_rate_limited_witness :
  (get (fun _ => respond 403 (Parsed tt)) (fun _ => 0%Z)
       initialRateLimit).1.1 = Thrown forbidden.
Proof.
  pose proof (get_forbidden_or_rate_limited
                (fun _ => respond 403 (Parsed tt)) (fun _ => 0%Z)
                initialRateLimit 0
                {| http_status := 403;
                   x_ratelimit_remaining := Some (Some 4999%Z);
                   x_ratelimit_reset := Some (Some 0%Z);
                   json := Parsed tt |}
                ltac:(vm_compute; lia) eq_refl eq_refl) as H.
  cbn in H. exact (proj1 H).
Defined.

(** Four fetches rejected. *)
Lemma get_network_failure_retried_witness :
  (get (T := unit) (fun _ => Rejected (Some "fetch failed")) (fun _ => 0%Z)
       initialRateLimit).1.1
  = Thrown (network_error (Some "fetch failed")).
Proof.
  destruct (get_network_failure_retried
              (T := unit) (fun _ => Rejected (Some "fetch failed"))
              (fun _ => 0%Z) initialRateLimit 3 ltac:(vm_compute; lia))
    as [H _].
  exact (proj2 (H (Some "fetch failed") eq_refl) eq_refl).
Defined.

End ClientMoreFacts.

(** * Properties of [parseRepoUrl] *)

Module RepoUrlFacts.
Import Js ClientMore StringFacts.

Local Abbreviation not_slash := (fun c => negb (is_slash c)).

Lemma append_cons c s t : String c s +:+ t = String c (s +:+ t).
Proof. reflexivity. Qed.

Lemma is_slash_true c : is_slash c = true -> c = "/"%char.
Proof. apply Ascii.eqb_eq. Qed.

Lemma ends_component_cases t :
  ends_component t = true <-> t = "" \/ exists rest, t = "/" +:+ rest.
Proof.
  destruct t as [|c t]; cbn.
  - split; [left; reflexivity | reflexivity].
  - split.
    + intros ->%is_slash_true. right. exists t. reflexivity.
    + intros [H | [rest H]]; [discriminate H|].
      injection H as -> _. reflexivity.
Qed.

Lemma startsWith_git z :
  startsWith z ".git" = true ->
  exists u, z = String "." (String "g" (String "i" (String "t" u))).
Proof. intros [u ->]%startsWith_true. exists u. reflexivity. Qed.

(** [segment] splits at the first [/]. *)
Lemma segment_spec s :
  s = (segment s).1 +:+ (segment s).2
  /\ all_chars not_slash (segment s).1 = true
  /\ ends_component (segment s).2 = true.
Proof.
  induction s as [|c s (IH1 & IH2 & IH3)]; cbn [segment]; [auto|].
  destruct (is_slash c) eqn:E.
  - cbn. rewrite E. auto.
  - destruct (segment s) as [run rest]. cbn [fst snd all_chars] in *.
    rewrite append_cons, <- IH1, E, IH2. auto.
Qed.

Lemma segment_app run rest :
  all_chars not_slash run = true -> ends_component rest = true ->
  segment (run +:+ rest) = (run, rest).
Proof.
  intros Hrun Hrest. induction run as [|c run IH].
  - destruct rest as [|d rest]; [reflexivity|].
    cbn [ends_component] in Hrest.
    change ("" +:+ String d rest) with (String d rest).
    cbn [segment]. rewrite Hrest. reflexivity.
  - cbn in Hrun. apply andb_prop in Hrun as [Hc Hrun].
    rewrite append_cons. cbn [segment].
    apply negb_true_iff in Hc. rewrite Hc, (IH Hrun). reflexivity.
Qed.

(** What [lazy_repo] finds is a non-empty run without [/], after which
    the rest of the pattern matches. *)
Lemma lazy_repo_sound s : forall repo,
  lazy_repo s = Some repo ->
  repo <> ""
  /\ all_chars not_slash repo = true
  /\ exists after, s = repo +:+ after /\ ends_repo after = true.
Proof.
  induction s as [|c s IH]; intros repo; cbn; [discriminate|].
  destruct (is_slash c) eqn:Ec; [discriminate|].
  destruct (ends_repo s) eqn:Ee.
  - intros [= <-]. cbn. rewrite Ec. repeat split; [discriminate|].
    exists s. auto.
  - destruct (lazy_repo s) as [r|]; [|discriminate].
    intros [= <-]. destruct (IH r eq_refl) as (_ & Hr & after & -> & Hafter).
    cbn. rewrite Ec, Hr. repeat split; [discriminate|].
    exists after. auto.
Qed.

(** It is the shortest such run. *)
Lemma lazy_repo_shortest repo : forall after,
  repo <> "" -> all_chars not_slash repo = true ->
  ends_repo after = true ->
  (forall x y, repo = x +:+ y -> x <> "" -> y <> "" ->
     ends_repo (y +:+ after) = false) ->
  lazy_repo (repo +:+ after) = Some repo.
Proof.
  induction repo as [|c repo IH]; intros after Hne Hrun Hafter Hshort;
    [contradiction|].
  cbn in Hrun. apply andb_prop in Hrun as [Hc Hrun].
  apply negb_true_iff in Hc. rewrite append_cons. cbn [lazy_repo].
  rewrite Hc. destruct repo as [|d repo].
  - change ("" +:+ after) with after. rewrite Hafter. reflexivity.
  - rewrite (Hshort (String c "") (String d repo) eq_refl) by discriminate.
    rewrite IH; [reflexivity | discriminate | assumption..|].
    intros x y Hxy Hx Hy. apply (Hshort (String c x) y);
      [rewrite append_cons, <- Hxy; reflexivity | discriminate | assumption].
Qed.

(** After an explicit [.git] no shorter run will do. *)
Lemma not_ends_repo_before_git y after :
  y <> "" -> all_chars not_slash y = true ->
  ends_component after = true ->
  ends_repo (y +:+ ".git" +:+ after) = false.
Proof.
  intros Hne Hrun Hafter.
  destruct (ends_repo _) eqn:E; [exfalso | reflexivity].
  unfold ends_repo in E. apply orb_prop in E as [E | E].
  - apply andb_prop in E as [[u Hu]%startsWith_git E].
    rewrite Hu in E. cbn [drop_chars] in E.
    destruct y as [|c1 [|c2 [|c3 [|c4 [|c5 y]]]]];
      try contradiction; rewrite ?append_cons in Hu; cbn in Hu;
      try discriminate Hu.
    + injection Hu as -> -> -> -> <-. discriminate E.
    + injection Hu as -> -> -> -> <-. rewrite ?append_cons in E. cbn in E.
      cbn in Hrun. rewrite E in Hrun. cbn in Hrun.
      discriminate Hrun.
  - destruct y as [|c y]; [contradiction|]. rewrite append_cons in E.
    cbn in E, Hrun. rewrite E in Hrun. discriminate Hrun.
Qed.

(** Nor does one before the end of the component, unless what is left
    of it is [.git]. *)
Lemma not_ends_repo_before_end y after :
  y <> "" -> all_chars not_slash y = true -> y <> ".git" ->
  ends_component after = true ->
  ends_repo (y +:+ after) = false.
Proof.
  intros Hne Hrun Hgit Hafter.
  assert (Hafter' : after = "" \/ exists rest, after = String "/" rest).
  { apply ends_component_cases in Hafter as [-> | [rest ->]]; eauto. }
  destruct (ends_repo _) eqn:E; [exfalso | reflexivity].
  unfold ends_repo in E. apply orb_prop in E as [E | E].
  - apply andb_prop in E as [[u Hu]%startsWith_git E].
    rewrite Hu in E. cbn [drop_chars] in E.
    destruct y as [|c1 [|c2 [|c3 [|c4 [|c5 y]]]]];
      try contradiction; rewrite ?append_cons in Hu; cbn in Hu;
      try (destruct Hafter' as [-> | [rest ->]]; discriminate Hu).
    + injection Hu as -> -> -> -> _. contradiction.
    + injection Hu as -> -> -> -> <-. rewrite ?append_cons in E. cbn in E.
      cbn in Hrun. rewrite E in Hrun. cbn in Hrun.
      discriminate Hrun.
  - destruct y as [|c y]; [contradiction|]. rewrite append_cons in E.
    cbn in E, Hrun. rewrite E in Hrun. discriminate Hrun.
Qed.

Lemma repo_url_at_sound s owner repo :
  repo_url_at s = Some (owner, repo) ->
  owner <> "" /\ repo <> ""
  /\ all_chars not_slash owner = true
  /\ all_chars not_slash repo = true
  /\ exists after,
       s = "github.com/" +:+ owner +:+ "/" +:+ repo +:+ after
       /\ ends_repo after = true.
Proof.
  unfold repo_url_at.
  destruct (startsWith s "github.com/") eqn:Es; [|discriminate].
  apply startsWith_true in Es as [t ->].
  change (drop_chars 11 ("github.com/" +:+ t)) with t.
  destruct (segment_spec t) as (Ht & Hrun & Hrest).
  destruct (segment t) as [[|c o] [|d rest]]; try discriminate.
  cbn [fst snd] in *.
  destruct (lazy_repo rest) as [r|] eqn:Er; [|discriminate].
  intros [= <- <-].
  destruct (lazy_repo_sound _ _ Er) as (Hne & Hr & after & -> & Hafter).
  cbn [ends_component] in Hrest. apply is_slash_true in Hrest as ->.
  repeat split; try assumption; [discriminate|].
  exists after. split; [|assumption]. rewrite Ht. reflexivity.
Qed.

Lemma repo_url_at_found owner repo rest :
  owner <> "" -> all_chars not_slash owner = true ->
  lazy_repo rest = Some repo ->
  repo_url_at ("github.com/" +:+ owner +:+ "/" +:+ rest)
  = Some (owner, repo).
Proof.
  intros Hne Hrun Hrepo. unfold repo_url_at.
  assert (Hs : startsWith ("github.com/" +:+ owner +:+ "/" +:+ rest)
                 "github.com/" = true).
  { apply startsWith_true. eauto. }
  rewrite Hs.
  change (drop_chars 11 ("github.com/" +:+ owner +:+ "/" +:+ rest))
    with (owner +:+ "/" +:+ rest).
  rewrite (segment_app owner ("/" +:+ rest) Hrun eq_refl).
  destruct owner as [|c owner]; [contradiction|].
  change ("/" +:+ rest) with (String "/" rest). cbv beta iota.
  rewrite Hrepo. reflexivity.
Qed.

(** The pattern cannot match where the text does not start with [g]. *)
Lemma parseRepoUrl_skip c s :
  Ascii.eqb c "g" = false -> parseRepoUrl (String c s) = parseRepoUrl s.
Proof.
  intros Hc. cbn [parseRepoUrl]. unfold repo_url_at, startsWith.
  cbn [String.prefix].
  destruct (ascii_dec "g" c) as [<- | _]; [discriminate Hc | reflexivity].
Qed.

Lemma parseRepoUrl_https s :
  repo_url_at s <> None ->
  parseRepoUrl ("https://" +:+ s) = repo_url_at s.
Proof.
  intros Hfound.
  change ("https://" +:+ s)
    with (String "h" (String "t" (String "t" (String "p" (String "s"
           (String ":" (String "/" (String "/" s)))))))).
  rewrite !parseRepoUrl_skip by reflexivity.
  destruct s as [|c s]; cbn [parseRepoUrl];
    destruct (repo_url_at _); congruence.
Qed.

(** X18. [parseRepoUrl] reads back the owner and the repository of an
    https URL made from them: with a final [.git] always, which it
    leaves out, and without one when the repository name does not
    itself end in [.git]; the URL may end there or go on after a [/]. *)
Theorem parseRepoUrl_round_trip (owner repo after : string) :
  owner <> "" -> repo <> "" ->
  all_chars (fun c => negb (is_slash c)) owner = true ->
  all_chars (fun c => negb (is_slash c)) repo = true ->
  after = "" \/ (exists rest, after = "/" +:+ rest) ->
  parseRepoUrl
    ("https://" +:+ "github.com/" +:+ owner +:+ "/" +:+ repo +:+ ".git"
     +:+ after)
  = Some (owner, repo)
  /\ (endsWith repo ".git" = false ->
      parseRepoUrl
        ("https://" +:+ "github.com/" +:+ owner +:+ "/" +:+ repo +:+ after)
      = Some (owner, repo)).
Proof.
  intros Howner Hrepo Hrun_owner Hrun_repo Hafter.
  apply ends_component_cases in Hafter.
  assert (Hgit : ends_repo (".git" +:+ after) = true).
  { unfold ends_repo.
    change (drop_chars 4 (".git" +:+ after)) with after.
    rewrite Hafter.
    assert (Hs : startsWith (".git" +:+ after) ".git" = true)
      by (apply startsWith_true; eauto).
    rewrite Hs. reflexivity. }
  assert (Hend : ends_repo after = true).
  { unfold ends_repo. rewrite Hafter. apply orb_true_r. }
  split.
  - rewrite parseRepoUrl_https.
    + apply repo_url_at_found; try assumption.
      apply lazy_repo_shortest; try assumption.
      intros x y -> Hx Hy.
      rewrite all_chars_app in Hrun_repo.
      apply andb_prop in Hrun_repo as [_ Hy_run].
      apply not_ends_repo_before_git; assumption.
    + erewrite repo_url_at_found; [discriminate | assumption..|].
      apply lazy_repo_shortest; try assumption.
      intros x y -> Hx Hy.
      rewrite all_chars_app in Hrun_repo.
      apply andb_prop in Hrun_repo as [_ Hy_run].
      apply not_ends_repo_before_git; assumption.
  - intros Hno_git.
    assert (Hlazy : lazy_repo (repo +:+ after) = Some repo).
    { apply lazy_repo_shortest; try assumption.
      intros x y -> Hx Hy.
      rewrite all_chars_app in Hrun_repo.
      apply andb_prop in Hrun_repo as [_ Hy_run].
      apply not_ends_repo_before_end; try assumption.
      intros ->.
      assert (Hends : endsWith (x +:+ ".git") ".git" = true)
        by (apply endsWith_true; eauto).
      congruence. }
    rewrite parseRepoUrl_https.
    + apply repo_url_at_found; assumption.
    + erewrite repo_url_at_found; [discriminate | eassumption..].
Qed.

(** X19. What [parseRepoUrl] returns are a non-empty owner and a
    non-empty repository name without [/], which stand in the URL
    after [github.com/], separated by [/], and are followed by the end
    of the URL or a [/], with or without [.git] before it. *)
Theorem parseRepoUrl_sound (url owner repo : string) :
  parseRepoUrl url = Some (owner, repo) ->
  owner <> "" /\ repo <> ""
  /\ all_chars (fun c => negb (is_slash c)) owner = true
  /\ all_chars (fun c => negb (is_slash c)) repo = true
  /\ exists before after,
       url = before +:+ "github.com/" +:+ owner +:+ "/" +:+ repo +:+ after
       /\ (after = "" \/ (exists rest, after = "/" +:+ rest)
           \/ after = ".git" \/ (exists rest, after = ".git/" +:+ rest)).
Proof.
  assert (Hat : forall s, repo_url_at s = Some (owner, repo) ->
    owner <> "" /\ repo <> ""
    /\ all_chars not_slash owner = true
    /\ all_chars not_slash repo = true
    /\ exists before after,
         s = before +:+ "github.com/" +:+ owner +:+ "/" +:+ repo +:+ after
         /\ (after = "" \/ (exists rest, after = "/" +:+ rest)
             \/ after = ".git" \/ (exists rest, after = ".git/" +:+ rest))).
  { intros s Hs.
    destruct (repo_url_at_sound _ _ _ Hs)
      as (Ho & Hr & Hro & Hrr & after & -> & Hafter).
    repeat split; try assumption. exists "", after.
    split; [reflexivity|].
    unfold ends_repo in Hafter. apply orb_prop in Hafter as [H | H].
    - apply andb_prop in H as [[u ->]%startsWith_true H].
      change (drop_chars 4 (".git" +:+ u)) with u in H.
      apply ends_component_cases in H as [-> | [rest ->]]; eauto.
    - apply ends_component_cases in H as [-> | [rest ->]]; eauto. }
  induction url as [|c url IH]; cbn [parseRepoUrl].
  - destruct (repo_url_at "") as [found|] eqn:E; [|discriminate].
    intros [= ->]. apply Hat, E.
  - destruct (repo_url_at (String c url)) as [found|] eqn:E.
    + intros [= ->]. apply Hat, E.
    + intros H.
      destruct (IH H) as (Ho & Hr & Hro & Hrr & before & after & -> & Hafter).
      repeat split; try assumption.
      exists (String c before), after. split; [reflexivity | assumption].
Qed.

Lemma parseRepoUrl_round_trip_witness :
  parseRepoUrl "https://github.com/digital-asset/daml.git/tree/main"
  = Some ("digital-asset", "daml")
  /\ parseRepoUrl "https://github.com/digital-asset/daml/tree/main"
     = Some ("digital-asset", "daml").
Proof.
  destruct (parseRepoUrl_round_trip "digital-asset" "daml" "/tree/main")
    as [Hgit Hplain].
  - discriminate.
  - discriminate.
  - reflexivity.
  - reflexivity.
  - right. exists "tree/main". reflexivity.
  - split; [exact Hgit | exact (Hplain eq_refl)].
Defined.

Lemma parseRepoUrl_sound_witness :
  all_chars (fun c => negb (is_slash c)) "canton-foundry" = true
  /\ exists before after,
       "git+https://github.com/JohnLilic/canton-foundry.git"
       = before +:+ "github.com/" +:+ "JohnLilic" +:+ "/"
         +:+ "canton-foundry" +:+ after
       /\ (after = "" \/ (exists rest, after = "/" +:+ rest)
           \/ after = ".git" \/ (exists rest, after = ".git/" +:+ rest)).
Proof.
  destruct (parseRepoUrl_sound
              "git+https://github.com/JohnLilic/canton-foundry.git"
              "JohnLilic" "canton-foundry" ltac:(vm_compute; reflexivity))
    as (_ & _ & _ & Hrepo & Hplace).
  split; assumption.
Defined.

End RepoUrlFacts.

(** * Properties of the collectors *)

Module CollectMoreFacts.
Import Js JsMore Collect CollectMore.

(** Unfolds the monad of the collectors. *)
Ltac run_collector :=
  unfold try_catch, mbind, M_bind, bind, call, mret, M_ret, ret, push,
    throw in *;
  cbn [client notes fst snd] in *.

Section LicenseFacts.

Variable C : Type.
Variable get_license :
  string -> C -> Completion (Client.GitHubResponse LicenseResponse) * C.

Local Abbreviation collectLicense := (collectLicense C get_license).

(** X20. [collectLicense] makes one request and never throws a GitHub
    error. The licence it reports is never [NOASSERTION]; it is null
    exactly when the request failed, and then exactly one note says
    why; otherwise the notes are left as they were. *)
Theorem collectLicense_outcomes owner repo (w : World C) :
  let request := get_license (repos owner repo "/license") (client w) in
  let run := collectLicense owner repo w in
  client run.2 = request.2
  /\ (forall err, run.1 = Throws err -> isGitHubError err = false)
  /\ (forall res, run.1 = Normal res ->
        license_type res <> Some "NOASSERTION"
        /\ (license_type res = None <->
            exists e, request.1 = Throws (GitHubErr e))
        /\ (license_type res = None ->
            exists note, notes run.2 = notes w ++ [note])
        /\ (license_type res <> None -> notes run.2 = notes w)).
Proof.
  cbv zeta. unfold CollectMore.collectLicense. run_collector.
  destruct (get_license _ (client w)) as [[response | [e | d]] c'];
    cbn [fst snd].
  - destruct (String.eqb_spec
                (license_spdx_id (Client.data response)) "NOASSERTION")
      as [E | E]; cbn [fst snd client notes].
    + split; [reflexivity|]. split; [discriminate|].
      intros res [= <-]. cbn. repeat split; try discriminate.
      intros [e He]. discriminate He.
    + split; [reflexivity|]. split; [discriminate|].
      intros res [= <-]. cbn. repeat split; try discriminate.
      * congruence.
      * intros [e He]. discriminate He.
  - destruct (Client.status e =? 404)%Z; cbn [fst snd client notes];
      (split; [reflexivity|]); (split; [discriminate|]);
      intros res [= <-]; cbn; repeat split; eauto; congruence.
  - split; [reflexivity|]. split; [|discriminate].
    intros err [= <-]. reflexivity.
Qed.

End LicenseFacts.

Section TestsFacts.

Variable C : Type.

(** X21. [collectTests] never throws and never touches the client. It
    reports no knowledge only for an empty tree, and tests exactly when
    some entry of the tree is a test file; a count is given only for a
    tree that was not truncated and is then the number of test files,
    at least one; a note is added exactly when tests were found. *)
Theorem collectTests_outcomes (tree : list TreeEntry) (truncated : bool)
    (w : World C) :
  exists res added,
    collectTests C tree truncated w
    = (Normal res, {| client := client w; notes := notes w ++ added |})
    /\ (has_tests res = None <-> tree = [])
    /\ (has_tests res = Some true <->
        exists e, e ∈ tree /\ is_test_file e = true)
    /\ (test_count res
        = if truncated || negb (bool_decide (has_tests res = Some true))
          then None
          else Some (length (List.filter is_test_file tree)))
    /\ (forall n, test_count res = Some n -> 0 < n)
    /\ length added
       = if bool_decide (has_tests res = Some true) then 1 else 0.
Proof.
  assert (Hfilter : forall l : list TreeEntry,
    List.filter is_test_file l = [] <->
    ~ exists e, e ∈ l /\ is_test_file e = true).
  { induction l as [|x l IH]; cbn.
    - split; [|reflexivity]. intros _ (e & He & _).
      apply elem_of_nil in He. contradiction.
    - destruct (is_test_file x) eqn:Ex; split.
      + discriminate.
      + intros H. exfalso. apply H. exists x. split; [left | exact Ex].
      + intros Hl (e & He & Hte). apply elem_of_cons in He as [-> | He].
        * congruence.
        * apply IH in Hl. apply Hl. eauto.
      + intros H. apply IH. intros (e & He & Hte). apply H.
        exists e. split; [right; exact He | exact Hte]. }
  unfold collectTests. destruct tree as [|entry tree].
  { exists {| has_tests := None; test_count := None |}, [].
    cbn. rewrite app_nil_r. destruct w. repeat split; try discriminate.
    - intros (e & He & _). apply elem_of_nil in He. contradiction.
    - rewrite orb_true_r. reflexivity. }
  change (length (entry :: tree) =? 0)%nat with false. cbv iota.
  specialize (Hfilter (entry :: tree)).
  destruct (List.filter is_test_file (entry :: tree)) as [|t tests] eqn:Ef.
  { exists {| has_tests := Some false; test_count := None |}, [].
    cbn. rewrite app_nil_r. destruct w. repeat split; try discriminate.
    - intros H. exfalso. apply (proj1 Hfilter eq_refl), H.
    - rewrite orb_true_r. reflexivity. }
  assert (Hsome : exists e, e ∈ entry :: tree /\ is_test_file e = true).
  { assert (Hin : In t (List.filter is_test_file (entry :: tree)))
      by (rewrite Ef; left; reflexivity).
    apply filter_In in Hin as [Hin Ht]. exists t.
    split; [apply list_elem_of_In, Hin | exact Ht]. }
  change (length (t :: tests) =? 0)%nat with false. cbv iota.
  destruct truncated.
  - exists {| has_tests := Some true; test_count := None |},
      ["Test count may be incomplete due to large repo"].
    run_collector. cbn. repeat split; try discriminate; auto.
  - exists {| has_tests := Some true;
              test_count := Some (length (t :: tests)) |},
      ["Found " +:+ string_of_nat (length (t :: tests))
       +:+ " test files (approximate count)"].
    run_collector. cbn. repeat split; try discriminate; auto.
    intros n [= <-]. lia.
Qed.

End TestsFacts.

Lemma filter_nil_iff {A} (f : A -> bool) (l : list A) :
  List.filter f l = [] <-> ~ exists e, e ∈ l /\ f e = true.
Proof.
  induction l as [|x l IH]; cbn.
  - split; [|reflexivity]. intros _ (e & He & _).
    apply elem_of_nil in He. contradiction.
  - destruct (f x) eqn:Ex; split.
    + discriminate.
    + intros H. exfalso. apply H. exists x. split; [left | exact Ex].
    + intros Hl (e & He & Hte). apply elem_of_cons in He as [-> | He].
      * congruence.
      * apply IH in Hl. apply Hl. eauto.
    + intros H. apply IH. intros (e & He & Hte). apply H.
      exists e. split; [right; exact He | exact Hte].
Qed.

Lemma filter_cons_ex {A} (f : A -> bool) (l : list A) x xs :
  List.filter f l = x :: xs -> exists e, e ∈ l /\ f e = true.
Proof.
  intros E.
  assert (Hin : In x (List.filter f l)) by (rewrite E; left; reflexivity).
  apply filter_In in Hin as [Hin Hx]. exists x.
  split; [apply list_elem_of_In, Hin | exact Hx].
Qed.

Section CiFacts.

Variable C : Type.
Variable get_runs :
  string -> C -> Completion (Client.GitHubResponse WorkflowRunsResponse) * C.
Variable Date_parse : string -> jsnum.
Variable now : Z.

Local Abbreviation collectCi := (collectCi C get_runs Date_parse now).

(** X22. [collectCi] never throws, whatever the request for the
    workflow runs does. It reports no knowledge only for an empty tree
    and CI exactly when some entry of the tree is a CI configuration;
    it gives a status exactly when it reports CI; it leaves the client
    alone unless one of the configurations is a GitHub Actions
    workflow; and it adds at most one note. *)
Theorem collectCi_outcomes owner repo (tree : list TreeEntry)
    (w : World C) :
  exists res added,
    (collectCi owner repo tree w).1 = Normal res
    /\ notes (collectCi owner repo tree w).2 = notes w ++ added
    /\ length added <= 1
    /\ (has_ci res = None <-> tree = [])
    /\ (has_ci res = Some true <->
        exists e, e ∈ tree /\ is_ci_file e = true)
    /\ (ci_status res = None <-> has_ci res <> Some true)
    /\ (hasGitHubActions (List.filter is_ci_file tree) = false ->
        client (collectCi owner repo tree w).2 = client w).
Proof.
  unfold Collect.collectCi. destruct tree as [|entry tree].
  { exists {| has_ci := None; ci_status := None |}, [].
    cbn. rewrite app_nil_r.
    split; [reflexivity|]. split; [reflexivity|]. split; [lia|].
    split; [split; reflexivity|].
    split; [split; [discriminate|]|].
    { intros (e & He & _). apply elem_of_nil in He. contradiction. }
    split; [split; [discriminate | reflexivity] | reflexivity]. }
  change (length (entry :: tree) =? 0)%nat with false. cbv iota.
  pose proof (filter_nil_iff is_ci_file (entry :: tree)) as Hnil.
  pose proof (filter_cons_ex is_ci_file (entry :: tree)) as Hcons.
  destruct (List.filter is_ci_file (entry :: tree)) as [|f files].
  { exists {| has_ci := Some false; ci_status := None |}, [].
    cbn. rewrite app_nil_r.
    split; [reflexivity|]. split; [reflexivity|]. split; [lia|].
    split; [split; discriminate|].
    split; [split; [discriminate|]|].
    { intros H. exfalso. apply (proj1 Hnil eq_refl), H. }
    split; [split; [discriminate | reflexivity] | reflexivity]. }
  specialize (Hcons f files eq_refl).
  change (length (f :: files) =? 0)%nat with false. cbv iota.
  assert (Hres : forall st : CiStatus,
    (has_ci {| has_ci := Some true; ci_status := Some st |} = None
     <-> entry :: tree = [])
    /\ (has_ci {| has_ci := Some true; ci_status := Some st |} = Some true
        <-> exists e, e ∈ entry :: tree /\ is_ci_file e = true)
    /\ (ci_status {| has_ci := Some true; ci_status := Some st |} = None
        <-> has_ci {| has_ci := Some true; ci_status := Some st |}
            <> Some true)).
  { intros st. cbn.
    split; [split; discriminate|].
    split; [split; [intros _; exact Hcons | reflexivity]|].
    split; [discriminate | intros H; contradiction H; reflexivity]. }
  destruct (hasGitHubActions (f :: files)) eqn:Ea; cbn [negb]; cbv iota.
  - run_collector.
    destruct (get_runs _ (client w)) as [[response | [e | d]] c'].
    + destruct (workflow_runs (Client.data response)) as [|run runs].
      * exists {| has_ci := Some true; ci_status := Some unknown |}, [].
        cbn [fst snd notes]. rewrite app_nil_r.
        split; [reflexivity|]. split; [reflexivity|]. split; [cbn; lia|].
        destruct (Hres unknown) as (H1 & H2 & H3).
        split; [exact H1|]. split; [exact H2|]. split; [exact H3|].
        discriminate.
      * destruct (exceeds _ _).
        -- eexists {| has_ci := Some true; ci_status := Some stale |}, [_].
           cbn [fst snd notes].
           split; [reflexivity|]. split; [reflexivity|]. split; [cbn; lia|].
           destruct (Hres stale) as (H1 & H2 & H3).
           split; [exact H1|]. split; [exact H2|]. split; [exact H3|].
           discriminate.
        -- eexists {| has_ci := Some true; ci_status := Some _ |}, [].
           cbn [fst snd notes]. rewrite app_nil_r.
           split; [reflexivity|]. split; [reflexivity|]. split; [cbn; lia|].
           destruct (Hres (status_of_conclusion (conclusion run)))
             as (H1 & H2 & H3).
           split; [exact H1|]. split; [exact H2|]. split; [exact H3|].
           discriminate.
    + eexists {| has_ci := Some true; ci_status := Some unknown |}, [_].
      cbn [fst snd notes].
      split; [reflexivity|]. split; [reflexivity|]. split; [cbn; lia|].
      destruct (Hres unknown) as (H1 & H2 & H3).
      split; [exact H1|]. split; [exact H2|]. split; [exact H3|].
      discriminate.
    + exists {| has_ci := Some true; ci_status := Some unknown |}, [].
      cbn [fst snd notes]. rewrite app_nil_r.
      split; [reflexivity|]. split; [reflexivity|]. split; [cbn; lia|].
      destruct (Hres unknown) as (H1 & H2 & H3).
      split; [exact H1|]. split; [exact H2|]. split; [exact H3|].
      discriminate.
  - run_collector.
    eexists {| has_ci := Some true; ci_status := Some unknown |}, [_].
    cbn [fst snd notes client].
    split; [reflexivity|]. split; [reflexivity|]. split; [cbn; lia|].
    destruct (Hres unknown) as (H1 & H2 & H3).
    split; [exact H1|]. split; [exact H2|]. split; [exact H3|].
    reflexivity.
Qed.

End CiFacts.

Section TechStackMoreFacts.

Variable C : Type.
Variable get_languages :
  string -> C -> Completion (Client.GitHubResponse LanguagesResponse) * C.
Variable inherited_text : string -> string.

Local Abbreviation collectTechStack :=
  (collectTechStack C get_languages inherited_text).

Lemma add_languages_NoDup languages : NoDup (add_languages languages).
Proof.
  unfold add_languages. destruct (0 <? _)%Z; [|constructor].
  apply CollectFacts.languages_loop_NoDup. constructor.
Qed.

(** X23. [collectTechStack] never throws, whatever the request for the
    languages does. The stack it reports has no duplicates, is sorted
    by the texts of its values, and holds the framework of every
    framework file in the tree; when the request fails it holds nothing
    else, and a GitHub error is noted. *)
Theorem collectTechStack_outcomes owner repo (tree : list TreeEntry)
    (w : World C) :
  let request := get_languages (repos owner repo "/languages") (client w) in
  exists stack,
    collectTechStack owner repo tree w
    = (Normal {| tech_stack := stack |},
       {| client := request.2;
          notes := notes w
                   ++ match request.1 with
                      | Throws (GitHubErr e) =>
                          ["Could not fetch languages: "
                           +:+ Client.message e]
                      | _ => []
                      end |})
    /\ NoDup stack
    /\ StronglySorted (ordered (text_in_order inherited_text)) stack
    /\ (forall entry framework,
          entry ∈ tree -> type entry = "blob" ->
          framework_of (basename_of (path entry)) = Some framework ->
          framework ∈ stack)
    /\ (forall error, request.1 = Throws error ->
        forall x, x ∈ stack ->
          exists entry, entry ∈ tree /\ type entry = "blob"
            /\ framework_of (basename_of (path entry)) = Some x).
Proof.
  cbv zeta. unfold Collect.collectTechStack. run_collector.
  destruct (get_languages _ (client w)) as [[response | error] c'];
    cbn [fst snd].
  - eexists. split; [rewrite app_nil_r; reflexivity|].
    split; [|split; [|split]].
    + rewrite (SortFacts.sort_perm _ _).
      apply CollectFacts.add_frameworks_NoDup, add_languages_NoDup.
    + apply CollectFacts.sort_text_sorted.
    + intros entry framework He Hb Hf.
      apply SortFacts.sort_elem, CollectFacts.elem_of_add_frameworks.
      right. eauto.
    + discriminate.
  - assert (Hstack : forall added : list string,
      exists stack,
        (Normal {| tech_stack :=
                     sort (text_in_order inherited_text)
                       (add_frameworks tree []) |},
         {| client := c'; notes := notes w ++ added |})
        = (Normal {| tech_stack := stack |},
           {| client := c'; notes := notes w ++ added |})
        /\ NoDup stack
        /\ StronglySorted (ordered (text_in_order inherited_text)) stack
        /\ (forall entry framework,
              entry ∈ tree -> type entry = "blob" ->
              framework_of (basename_of (path entry)) = Some framework ->
              framework ∈ stack)
        /\ (forall err, Throws (A := Client.GitHubResponse LanguagesResponse)
                          error = Throws err ->
            forall x, x ∈ stack ->
              exists entry, entry ∈ tree /\ type entry = "blob"
                /\ framework_of (basename_of (path entry)) = Some x)).
    { intros added. eexists. split; [reflexivity|].
      split; [|split; [|split]].
      - rewrite (SortFacts.sort_perm _ _).
        apply CollectFacts.add_frameworks_NoDup. constructor.
      - apply CollectFacts.sort_text_sorted.
      - intros entry framework He Hb Hf.
        apply SortFacts.sort_elem, CollectFacts.elem_of_add_frameworks.
        right. eauto.
      - intros _ _ x Hx.
        apply SortFacts.sort_elem, CollectFacts.elem_of_add_frameworks in Hx
          as [Hx | Hx]; [|exact Hx].
        apply elem_of_nil in Hx. contradiction. }
    destruct error as [e | d]; cbn [fst snd client notes].
    + apply Hstack.
    + destruct (Hstack []) as (stack & Heq & H).
      exists stack. split; [|exact H].
      rewrite app_nil_r in *. exact Heq.
Qed.

End TechStackMoreFacts.

(** A version that counts is a non-empty string that
    [parseSdkVersion] reads from some text. *)
Lemma found_version_parsed fileContent v :
  found_version fileContent = Some v ->
  v <> "" /\ exists yamlContent, parseSdkVersion yamlContent = Some v.
Proof.
  unfold found_version.
  destruct fileContent as [[|c yamlContent]|]; cbn [truthy default from_option id];
    cbv zeta; try (intros H; discriminate H).
  destruct (parseSdkVersion (String c yamlContent)) as [[|d v']|] eqn:E;
    cbn [truthy]; try (intros H; discriminate H).
  intros [= <-]. split; [discriminate | eauto].
Qed.

Section SdkMoreFacts.

Variable C : Type.
Variable getFileContent :
  string -> string -> string -> C -> Completion (option string) * C.
Variable Number : string -> jsnum.

Local Abbreviation scan_versions := (scan_versions C getFileContent).
Local Abbreviation collectSdkVersion :=
  (collectSdkVersion C getFileContent Number).

(** The scan adds no note, and only versions that count. *)
Lemma scan_versions_parsed owner repo paths : forall versions w found w',
  scan_versions owner repo paths versions w = (Normal found, w') ->
  notes w' = notes w
  /\ forall v, v ∈ found ->
       v ∈ versions
       \/ (v <> "" /\ exists yamlContent, parseSdkVersion yamlContent = Some v).
Proof.
  induction paths as [|p paths IH]; intros versions w found w';
    cbn [Collect.scan_versions].
  - intros [= <- <-]. auto.
  - run_collector.
    destruct (getFileContent owner repo p (client w))
      as [[fileContent | error] c']; [|discriminate].
    intros Hscan. apply IH in Hscan as [Hnotes Hfound].
    split; [exact Hnotes|]. intros v Hv.
    destruct (Hfound v Hv) as [Hin | Hparsed]; [|right; exact Hparsed].
    destruct (found_version fileContent) as [v'|] eqn:E; [|left; exact Hin].
    apply elem_of_app in Hin as [Hin | Hin]; [left; exact Hin|].
    apply list_elem_of_singleton in Hin as ->. right.
    exact (found_version_parsed _ _ E).
Qed.

(** X24. A root daml.yaml with content decides alone: its version is
    reported when [parseSdkVersion] finds a non-empty one, and
    otherwise null with the note that it could not be parsed; the
    daml.yaml files below the root are not requested, whatever they
    hold. *)
Theorem collectSdkVersion_root_decides owner repo (tree : list TreeEntry)
    (w : World C) (yamlContent : string) (c1 : C) :
  getFileContent owner repo "daml.yaml" (client w)
  = (Normal (Some yamlContent), c1) ->
  yamlContent <> "" ->
  collectSdkVersion owner repo tree w
  = if truthy (parseSdkVersion yamlContent)
    then (Normal {| canton_sdk_version := parseSdkVersion yamlContent |},
          {| client := c1; notes := notes w |})
    else (Normal {| canton_sdk_version := None |},
          {| client := c1;
             notes := notes w ++ ["Could not parse daml.yaml"] |}).
Proof.
  intros Hroot Hne. unfold Collect.collectSdkVersion. run_collector.
  rewrite Hroot. destruct yamlContent as [|c text]; [contradiction|].
  cbn [truthy default from_option id].
  destruct (truthy (parseSdkVersion (String c text))); reflexivity.
Qed.

(** X25. A version [collectSdkVersion] reports is never the empty
    string, and is one that [parseSdkVersion] read from some text; the
    collector adds at most one note. *)
Theorem collectSdkVersion_reports_parsed owner repo (tree : list TreeEntry)
    (w : World C) (res : SdkVersion) (w' : World C) :
  collectSdkVersion owner repo tree w = (Normal res, w') ->
  (forall v, canton_sdk_version res = Some v ->
     v <> "" /\ exists yamlContent, parseSdkVersion yamlContent = Some v)
  /\ exists added, notes w' = notes w ++ added /\ length added <= 1.
Proof.
  unfold Collect.collectSdkVersion. run_collector.
  destruct (getFileContent owner repo "daml.yaml" (client w))
    as [[content | error] c1]; [|discriminate].
  destruct (truthy content) eqn:Econtent.
  - destruct content as [[|c text]|]; try discriminate Econtent.
    cbn [default from_option id].
    destruct (parseSdkVersion (String c text)) as [[|d v']|] eqn:E;
      cbn [truthy]; intros [= <- <-]; cbn [canton_sdk_version notes].
    + split; [discriminate|]. eexists [_]. split; [reflexivity | cbn; lia].
    + split; [|exists []; rewrite app_nil_r; split; [reflexivity | cbn; lia]].
      intros v [= <-]. split; [discriminate | eauto].
    + split; [discriminate|]. eexists [_]. split; [reflexivity | cbn; lia].
  - destruct (length (damlYamls tree) =? 0)%nat.
    { intros [= <- <-]. cbn [canton_sdk_version notes].
      split; [discriminate|].
      exists []. rewrite app_nil_r. split; [reflexivity | cbn; lia]. }
    destruct (Collect.scan_versions C getFileContent owner repo
                (damlYamls tree) [] {| client := c1; notes := notes w |})
      as [[found | error] w2] eqn:Escan; [|discriminate].
    apply scan_versions_parsed in Escan as [Hnotes Hfound].
    cbn [notes] in Hnotes.
    destruct (length found =? 0)%nat.
    { intros [= <- <-]. cbn [canton_sdk_version notes].
      split; [discriminate|]. rewrite Hnotes.
      eexists [_]. split; [reflexivity | cbn; lia]. }
    assert (Hlast : forall v,
      last (sort (semver_in_order Number) found) = Some v ->
      v <> "" /\ exists yamlContent, parseSdkVersion yamlContent = Some v).
    { intros v Hv. apply last_Some_elem_of, SortFacts.sort_elem in Hv.
      destruct (Hfound v Hv) as [Hin | H]; [|exact H].
      apply elem_of_nil in Hin. contradiction. }
    destruct ((1 <? length found)%nat && (1 <? length (unique found))%nat);
      intros [= <- <-]; cbn [canton_sdk_version notes]; rewrite Hnotes.
    + split; [exact Hlast|]. eexists [_]. split; [reflexivity | cbn; lia].
    + split; [exact Hlast|].
      exists []. rewrite app_nil_r. split; [reflexivity | cbn; lia].
Qed.

End SdkMoreFacts.

Lemma trimStart_length s :
  String.length (trimStart s) <= String.length s.
Proof.
  induction s as [|c s IH]; cbn; [lia|].
  destruct (is_white_space c); cbn; lia.
Qed.

Lemma trimStart_fixed s :
  String.length (trimStart s) = String.length s -> trimStart s = s.
Proof.
  destruct s as [|c s]; cbn; [reflexivity|].
  destruct (is_white_space c); [|reflexivity].
  pose proof (trimStart_length s). lia.
Qed.

Lemma length_rev s : String.length (String.rev s) = String.length s.
Proof.
  rewrite !StringFacts.length_chars, StringFacts.chars_rev.
  apply length_reverse.
Qed.

(** A trimmed string does not start with white space. *)
Lemma trim_fixed s : trim s = s -> trimStart s = s.
Proof.
  intros H. apply trimStart_fixed.
  pose proof (trimStart_length s) as H1.
  pose proof (trimStart_length (String.rev (trimStart s))) as H2.
  rewrite length_rev in H2.
  assert (H3 : String.length (trim s) = String.length s) by (rewrite H; lia).
  unfold trim in H3. rewrite length_rev in H3. lia.
Qed.

Lemma skip_white_space_app ws s :
  all_chars is_white_space ws = true -> trimStart s = s ->
  skip_white_space (ws +:+ s) = s.
Proof.
  intros Hws Hs. induction ws as [|c ws IH].
  - change ("" +:+ s) with s.
    destruct s as [|c s]; [reflexivity|]. cbn in Hs |- *.
    destruct (is_white_space c); [|reflexivity].
    pose proof (trimStart_length s) as Hl. rewrite Hs in Hl. cbn in Hl. lia.
  - cbn [all_chars] in Hws. apply andb_prop in Hws as [Hc Hws].
    change (String c ws +:+ s) with (String c (ws +:+ s)).
    cbn [skip_white_space]. rewrite Hc. exact (IH Hws).
Qed.

Lemma line_of_app v tail :
  no_line_terminator v = true ->
  match tail with
  | EmptyString => True
  | String c _ => is_line_terminator c = true
  end ->
  line_of (v +:+ tail) = v.
Proof.
  unfold no_line_terminator. intros Hv Htail.
  induction v as [|c v IH].
  - change ("" +:+ tail) with tail.
    destruct tail as [|c tail]; [reflexivity|]. cbn. rewrite Htail.
    reflexivity.
  - cbn [all_chars] in Hv. apply andb_prop in Hv as [Hc Hv].
    apply negb_true_iff in Hc.
    change (String c v +:+ tail) with (String c (v +:+ tail)).
    cbn [line_of]. rewrite Hc, (IH Hv). reflexivity.
Qed.

(** X26. [parseSdkVersion] reads back a version written on the first
    line: for a non-empty version that is trimmed and has no line
    terminator, put after [sdk-version:] and any white space, and
    followed by the end of the text or by a line terminator and
    anything, it returns that version. *)
Theorem parseSdkVersion_first_line (ws v tail : string) :
  v <> "" -> trim v = v -> no_line_terminator v = true ->
  all_chars is_white_space ws = true ->
  match tail with
  | EmptyString => True
  | String c _ => is_line_terminator c = true
  end ->
  parseSdkVersion ("sdk-version:" +:+ ws +:+ v +:+ tail) = Some v.
Proof.
  intros Hne Htrim Hline Hws Htail.
  assert (Hat : sdk_version_at ("sdk-version:" +:+ ws +:+ v +:+ tail)
                = Some v).
  { unfold sdk_version_at.
    assert (Hs : startsWith ("sdk-version:" +:+ ws +:+ v +:+ tail)
                   "sdk-version:" = true)
      by (apply StringFacts.startsWith_true; eauto).
    rewrite Hs.
    change (drop_chars 12 ("sdk-version:" +:+ ws +:+ v +:+ tail))
      with (ws +:+ v +:+ tail).
    cbv zeta. rewrite skip_white_space_app; [|exact Hws|].
    - destruct v as [|c v]; [contradiction|].
      change (String c v +:+ tail) with (String c (v +:+ tail)).
      cbv iota. change (String c (v +:+ tail)) with (String c v +:+ tail).
      rewrite line_of_app by assumption. reflexivity.
    - apply trim_fixed in Htrim. destruct v as [|c v]; [contradiction|].
      change (String c v +:+ tail) with (String c (v +:+ tail)).
      cbn [trimStart] in Htrim |- *.
      destruct (is_white_space c); [|reflexivity].
      pose proof (trimStart_length v) as Hl. rewrite Htrim in Hl.
      cbn in Hl. lia. }
  unfold parseSdkVersion.
  change ("sdk-version:" +:+ ws +:+ v +:+ tail)
    with (String "s" ("dk-version:" +:+ ws +:+ v +:+ tail)) in *.
  cbn [sdk_version_match]. rewrite Hat.
  destruct v as [|c v]; [contradiction|]. rewrite Htrim. reflexivity.
Qed.

Lemma parseSdkVersion_first_line_witness :
  parseSdkVersion
    ("sdk-version:" +:+ "  " +:+ "2.9.0" +:+ String "010" "name: my-app")
  = Some "2.9.0".
Proof.
  apply (parseSdkVersion_first_line "  " "2.9.0"
           (String "010" "name: my-app"));
    [discriminate | reflexivity..].
Defined.

Lemma collectSdkVersion_root_decides_witness :
  collectSdkVersion unit
    (Fixtures.serving [ ("daml.yaml", "name: my-app");
                        ("a/daml.yaml", "sdk-version: 3.0.0") ])
    Fixtures.decimal_Number "owner" "repo" [Fixtures.blob "a/daml.yaml"]
    Fixtures.start
  = (Normal {| canton_sdk_version := None |},
     {| client := tt; notes := ["Could not parse daml.yaml"] |}).
Proof.
  apply (collectSdkVersion_root_decides unit
           (Fixtures.serving [ ("daml.yaml", "name: my-app");
                               ("a/daml.yaml", "sdk-version: 3.0.0") ])
           Fixtures.decimal_Number "owner" "repo"
           [Fixtures.blob "a/daml.yaml"] Fixtures.start "name: my-app" tt);
    [reflexivity | discriminate].
Defined.

Lemma collectSdkVersion_reports_parsed_witness :
  exists yamlContent, parseSdkVersion yamlContent = Some "2.9.0".
Proof.
  destruct (collectSdkVersion_reports_parsed unit
              (Fixtures.serving
                 [ ("a/daml.yaml", "sdk-version: 2.7.0");
                   ("b/daml.yaml", "sdk-version: 2.9.0") ])
              Fixtures.decimal_Number "owner" "repo"
              [Fixtures.blob "a/daml.yaml"; Fixtures.blob "b/daml.yaml"]
              Fixtures.start
              {| canton_sdk_version := Some "2.9.0" |}
              {| client := tt;
                 notes := ["Multiple SDK versions detected: 2.7.0, 2.9.0"] |}
              ltac:(vm_compute; reflexivity)) as [H _].
  exact (proj2 (H "2.9.0" eq_refl)).
Defined.

Section DocumentationFacts.

Variable C : Type.
Variable get_contents :
  string -> C -> Completion (Client.GitHubResponse FileContentResponse) * C.

Local Abbreviation collectDocumentation :=
  (collectDocumentation C get_contents).

Lemma find_none {A} (f : A -> bool) (l : list A) :
  (forall e, e ∈ l -> f e = false) -> List.find f l = None.
Proof.
  induction l as [|x l IH]; intros H; cbn; [reflexivity|].
  rewrite (H x) by left. apply IH. intros e He. apply H. right. exact He.
Qed.

(** X27. [collectDocumentation] never throws and adds no note. It
    gives a URL only together with documentation, and then the GitHub
    Pages address of a repository whose metadata say it has pages. An
    empty tree has no documentation and a tree with a content file
    under [docs/] has; in both cases, and whenever the tree has no
    README.md, no request is made. *)
Theorem collectDocumentation_outcomes owner repo (tree : list TreeEntry)
    (repoMeta : option RepoResponse) (w : World C) :
  exists res c',
    collectDocumentation owner repo tree repoMeta w
    = (Normal res, {| client := c'; notes := notes w |})
    /\ (documentation_url res = None
        \/ (documentation_url res
            = Some ("https://" +:+ owner +:+ ".github.io/" +:+ repo)
            /\ has_documentation res = true
            /\ exists meta, repoMeta = Some meta /\ has_pages meta = true))
    /\ (tree = [] -> has_documentation res = false /\ c' = client w)
    /\ ((exists e, e ∈ tree /\ is_docs_file e = true) ->
        has_documentation res = true /\ documentation_url res = None
        /\ c' = client w)
    /\ ((forall e, e ∈ tree -> is_readme e = false) -> c' = client w).
Proof.
  unfold CollectMore.collectDocumentation.
  destruct tree as [|entry tree].
  { exists {| has_documentation := false; documentation_url := None |},
      (client w).
    cbn. destruct w. split; [reflexivity|]. split; [left; reflexivity|].
    split; [auto|]. split; [|reflexivity].
    intros (e & He & _). apply elem_of_nil in He. contradiction. }
  change (length (entry :: tree) =? 0)%nat with false. cbv iota.
  pose proof (filter_nil_iff is_docs_file (entry :: tree)) as Hnil.
  destruct (List.filter is_docs_file (entry :: tree)) as [|d docs].
  2:{ exists {| has_documentation := true; documentation_url := None |},
        (client w).
      cbn. destruct w. split; [reflexivity|]. split; [left; reflexivity|].
      split; [discriminate|]. auto. }
  change (0 <? length (@nil TreeEntry))%nat with false. cbv iota.
  assert (Hdocs : forall P : Prop,
    (exists e, e ∈ entry :: tree /\ is_docs_file e = true) -> P).
  { intros P H. exfalso. exact (proj1 Hnil eq_refl H). }
  assert (Hrest : forall c',
    ((forall e, e ∈ entry :: tree -> is_readme e = false) -> c' = client w) ->
    exists res c'',
      (if (0 <? length (List.filter is_api_spec (entry :: tree)))%nat
       then (mret {| has_documentation := true; documentation_url := None |}
             : M C Documentation)
       else if match repoMeta with
               | Some meta => has_pages meta
               | None => false
               end
       then mret {| has_documentation := true;
                    documentation_url :=
                      Some ("https://" +:+ owner +:+ ".github.io/"
                            +:+ repo) |}
       else mret {| has_documentation := false;
                    documentation_url := None |})
        {| client := c'; notes := notes w |}
      = (Normal res, {| client := c''; notes := notes w |})
      /\ (documentation_url res = None
          \/ (documentation_url res
              = Some ("https://" +:+ owner +:+ ".github.io/" +:+ repo)
              /\ has_documentation res = true
              /\ exists meta, repoMeta = Some meta
                              /\ has_pages meta = true))
      /\ (entry :: tree = [] -> has_documentation res = false
                                /\ c'' = client w)
      /\ ((exists e, e ∈ entry :: tree /\ is_docs_file e = true) ->
          has_documentation res = true /\ documentation_url res = None
          /\ c'' = client w)
      /\ ((forall e, e ∈ entry :: tree -> is_readme e = false) ->
          c'' = client w)).
  { intros c' Hc'. run_collector.
    destruct (0 <? length (List.filter is_api_spec (entry :: tree)))%nat.
    { eexists _, c'. split; [reflexivity|]. cbn.
      split; [left; reflexivity|]. split; [discriminate|].
      split; [apply Hdocs | exact Hc']. }
    destruct repoMeta as [meta|].
    - destruct (has_pages meta) eqn:Ep.
      + eexists _, c'. split; [reflexivity|]. cbn.
        split; [right; eauto|]. split; [discriminate|].
      split; [apply Hdocs | exact Hc'].
      + eexists _, c'. split; [reflexivity|]. cbn.
        split; [left; reflexivity|]. split; [discriminate|].
      split; [apply Hdocs | exact Hc'].
    - eexists _, c'. split; [reflexivity|]. cbn.
      split; [left; reflexivity|]. split; [discriminate|].
      split; [apply Hdocs | exact Hc']. }
  unfold readme_is_long.
  destruct (List.find is_readme (entry :: tree)) as [readme|] eqn:Efind.
  - assert (Hreadme : ~ forall e, e ∈ entry :: tree -> is_readme e = false).
    { intros H. rewrite (find_none _ _ H) in Efind. discriminate Efind. }
    run_collector.
    destruct (get_contents _ (client w)) as [[response | error] c1].
    + destruct (500 <? file_size (Client.data response))%Z.
      * eexists _, c1. split; [reflexivity|]. cbn.
        split; [left; reflexivity|]. split; [discriminate|].
        split; [apply Hdocs|]. intros H. contradiction.
      * apply (Hrest c1). intros H. contradiction.
    + apply (Hrest c1). intros H. contradiction.
  - run_collector. destruct w as [c notes]. apply (Hrest c). reflexivity.
Qed.

End DocumentationFacts.

End CollectMoreFacts.

(** * Properties of the migration scripts *)

Module MigrateFacts.
Import Js JsMore Validate Migrate.

Lemma is_id_char_not_hyphen c :
  is_id_char c = true -> Ascii.eqb c "-" = false.
Proof.
  rewrite ValidateMoreFacts.is_id_char_inner.
  intros [_ H]%andb_prop. apply negb_true_iff, H.
Qed.

Lemma is_id_inner_not_hyphen c :
  is_id_inner c = true -> Ascii.eqb c "-" = false -> is_id_char c = true.
Proof.
  intros Hinner Hne. rewrite ValidateMoreFacts.is_id_char_inner, Hinner, Hne.
  reflexivity.
Qed.

Lemma hyphenate_hyphenated s : forall b,
  hyphenated b (hyphenate b s) = true.
Proof.
  induction s as [|c s IH]; intros b; cbn [hyphenate]; [reflexivity|].
  destruct (is_id_char c) eqn:Ec.
  - cbn [hyphenated]. rewrite (is_id_char_not_hyphen c Ec), Ec. apply IH.
  - destruct b; [apply IH|].
    cbn [hyphenated]. change (Ascii.eqb "-" "-") with true. cbv iota.
    apply IH.
Qed.

Lemma keep_id_chars_all s : all_chars is_id_inner (keep_id_chars s) = true.
Proof.
  induction s as [|c s IH]; cbn [keep_id_chars]; [reflexivity|].
  destruct (is_id_inner c) eqn:Ec; [|exact IH].
  cbn [all_chars]. rewrite Ec. exact IH.
Qed.

Lemma collapse_hyphenated s : forall b,
  all_chars is_id_inner s = true ->
  hyphenated b (collapse_hyphens b s) = true.
Proof.
  induction s as [|c s IH]; intros b; cbn [collapse_hyphens all_chars];
    [reflexivity|].
  intros [Hc Hs]%andb_prop.
  destruct (Ascii.eqb c "-") eqn:Ec.
  - destruct b; [apply IH, Hs|].
    cbn [hyphenated]. rewrite Ec. apply IH, Hs.
  - cbn [hyphenated]. rewrite Ec, (is_id_inner_not_hyphen c Hc Ec).
    apply IH, Hs.
Qed.

Lemma hyphenated_weaken s : hyphenated true s = true -> hyphenated false s = true.
Proof.
  destruct s as [|c s]; cbn [hyphenated]; [reflexivity|].
  destruct (Ascii.eqb c "-"); [discriminate | auto].
Qed.

Lemma strip_leading_hyphenated s :
  hyphenated false s = true -> hyphenated true (strip_leading s) = true.
Proof.
  destruct s as [|c s]; cbn [hyphenated strip_leading]; [reflexivity|].
  destruct (Ascii.eqb c "-") eqn:Ec; [auto|].
  intros H. cbn [hyphenated]. rewrite Ec. exact H.
Qed.

Lemma strip_trailing_hyphenated s : forall b,
  hyphenated b s = true -> hyphenated b (strip_trailing s) = true.
Proof.
  induction s as [|c s IH]; intros b; [reflexivity|].
  cbn [strip_trailing]. destruct s as [|d s].
  - destruct (Ascii.eqb c "-"); [reflexivity | auto].
  - cbn [hyphenated]. destruct (Ascii.eqb c "-").
    + intros [Hb H]%andb_prop. rewrite Hb. apply IH, H.
    + intros [Hc H]%andb_prop. rewrite Hc. apply IH, H.
Qed.

Lemma hyphenated_all s : forall b,
  hyphenated b s = true -> all_chars is_id_inner s = true.
Proof.
  induction s as [|c s IH]; intros b; cbn [hyphenated all_chars];
    [reflexivity|].
  unfold is_id_inner at 1. destruct (Ascii.eqb c "-").
  - intros [_ H]%andb_prop. rewrite orb_true_r. exact (IH _ H).
  - intros [Hc H]%andb_prop. rewrite Hc. exact (IH _ H).
Qed.

Lemma hyphenated_start s :
  hyphenated true s = true -> startsWith s "-" = false.
Proof.
  destruct s as [|c s]; [reflexivity|].
  rewrite ValidateMoreFacts.startsWith_hyphen. cbn [hyphenated].
  destruct (Ascii.eqb c "-"); [discriminate | reflexivity].
Qed.

Lemma strip_trailing_nil s :
  strip_trailing s = "" -> s = "" \/ s = "-".
Proof.
  destruct s as [|c [|d s]]; cbn [strip_trailing]; [auto | | discriminate].
  destruct (Ascii.eqb_spec c "-") as [-> | _]; [auto | discriminate].
Qed.

Lemma strip_trailing_end s : forall b t,
  hyphenated b s = true -> strip_trailing s <> t +:+ "-".
Proof.
  induction s as [|c s IH]; intros b t Hs.
  - destruct t; discriminate.
  - cbn [strip_trailing]. destruct s as [|d s].
    + destruct (Ascii.eqb_spec c "-") as [-> | Hne].
      * destruct t; discriminate.
      * destruct t as [|c' [|d' t]]; try discriminate.
        intros [= ->]. contradiction.
    + cbn [hyphenated] in Hs.
      destruct t as [|c' t].
      * change ("" +:+ "-") with "-". intros [= -> Hnil].
        apply (strip_trailing_nil (String d s)) in Hnil as [Hnil | Hnil];
          [discriminate Hnil|].
        injection Hnil as -> ->.
        cbn in Hs. destruct b; discriminate Hs.
      * change (String c' t +:+ "-") with (String c' (t +:+ "-")).
        intros [= -> Hrest].
        destruct (Ascii.eqb c' "-");
          apply andb_prop in Hs as [_ Hs]; exact (IH _ t Hs Hrest).
Qed.

(** What is left of a hyphenated string is empty or an identifier. *)
Lemma strip_hyphens_id s :
  hyphenated false s = true ->
  strip_hyphens s = "" \/ id_pattern_test (strip_hyphens s) = true.
Proof.
  intros Hs. unfold strip_hyphens.
  pose proof (strip_trailing_hyphenated _ _ (strip_leading_hyphenated s Hs))
    as Hr.
  destruct (strip_trailing (strip_leading s)) as [|c r] eqn:E; [left; auto|].
  right. rewrite <- E in *. apply ValidateMoreFacts.id_pattern_test_iff.
  split; [rewrite E; discriminate|].
  split; [exact (hyphenated_all _ _ Hr)|].
  split; [exact (hyphenated_start _ Hr)|].
  destruct (endsWith _ "-") eqn:Eend; [|reflexivity].
  apply StringFacts.endsWith_true in Eend as [t Ht].
  exfalso.
  exact (strip_trailing_end _ _ t (strip_leading_hyphenated s Hs) Ht).
Qed.

Local Abbreviation no_id_char := (fun c => negb (is_id_char c)).

Lemma hyphenate_no_id_char s : forall b,
  all_chars no_id_char (hyphenate b s) = all_chars no_id_char s.
Proof.
  induction s as [|c s IH]; intros b; cbn [hyphenate all_chars];
    [reflexivity|].
  destruct (is_id_char c) eqn:Ec; cbn [negb andb].
  - cbn [all_chars]. rewrite Ec. reflexivity.
  - destruct b; [apply IH|]. cbn [all_chars]. apply IH.
Qed.

Lemma toLowerCase_no_id_char s :
  all_chars no_id_char (toLowerCase s)
  = all_chars (fun c => negb (is_id_char (lower c))) s.
Proof.
  induction s as [|c s IH]; cbn [toLowerCase all_chars]; [reflexivity|].
  rewrite IH. reflexivity.
Qed.

(** Nothing is left exactly when there was no letter or digit. *)
Lemma strip_hyphens_nil s b :
  hyphenated b s = true ->
  strip_hyphens s = "" <-> all_chars no_id_char s = true.
Proof.
  intros Hs. unfold strip_hyphens. split.
  - intros [Hnil | Hnil]%strip_trailing_nil.
    + destruct s as [|c [|d s]]; [reflexivity | |].
      * cbn in Hnil |- *. destruct (Ascii.eqb_spec c "-") as [-> | _];
          [reflexivity | discriminate Hnil].
      * cbn in Hnil. destruct (Ascii.eqb c "-"); discriminate Hnil.
    + destruct s as [|c s]; [discriminate Hnil|].
      cbn [strip_leading] in Hnil.
      destruct (Ascii.eqb_spec c "-") as [-> | _].
      * subst s. reflexivity.
      * injection Hnil as -> ->. reflexivity.
  - intros Hno. destruct s as [|c s]; [reflexivity|].
    cbn [all_chars] in Hno. apply andb_prop in Hno as [Hc Hno].
    apply negb_true_iff in Hc. cbn [hyphenated] in Hs.
    destruct (Ascii.eqb_spec c "-") as [-> | _].
    + apply andb_prop in Hs as [_ Hs]. cbn [strip_leading].
      change (Ascii.eqb "-" "-") with true. cbv iota.
      destruct s as [|d s]; [reflexivity|].
      cbn [all_chars] in Hno. apply andb_prop in Hno as [Hd _].
      apply negb_true_iff in Hd. cbn [hyphenated] in Hs.
      destruct (Ascii.eqb d "-"); [discriminate Hs|].
      rewrite Hd in Hs. discriminate Hs.
    + rewrite Hc in Hs. discriminate Hs.
Qed.

(** X28. [slugify] gives the empty string or a [project_id] that the
    validator's format check accepts, and the empty string exactly for
    a name without a letter or digit. *)
Theorem slugify_valid_id (name_ : string) :
  (slugify name_ = "" \/ id_pattern_test (slugify name_) = true)
  /\ (slugify name_ = ""
      <-> all_chars (fun c => negb (is_id_char (lower c))) name_ = true).
Proof.
  unfold slugify. split.
  - apply strip_hyphens_id, hyphenate_hyphenated.
  - rewrite (strip_hyphens_nil _ false (hyphenate_hyphenated _ _)),
      hyphenate_no_id_char, toLowerCase_no_id_char.
    reflexivity.
Qed.

Lemma hyphenated_no_run r : forall b,
  hyphenated b r = true -> includes r "--" = false.
Proof.
  induction r as [|c r IH]; intros b Hr; [reflexivity|].
  cbn [includes]. cbn [hyphenated] in Hr.
  assert (Hpre : String.prefix "--" (String c r) = false).
  { destruct (String.prefix "--" (String c r)) eqn:E; [|reflexivity].
    apply StringFacts.prefix_true in E as [t Ht].
    injection Ht as -> ->.
    destruct b; cbn in Hr; discriminate Hr. }
  rewrite Hpre.
  destruct (Ascii.eqb c "-"); apply andb_prop in Hr as [_ Hr];
    exact (IH _ Hr).
Qed.

(** X29. [sanitizeSlug] gives the empty string or a [project_id] that
    the validator's format check accepts, in which no hyphen follows a
    hyphen. *)
Theorem sanitizeSlug_valid_id (slug : string) :
  (sanitizeSlug slug = "" \/ id_pattern_test (sanitizeSlug slug) = true)
  /\ includes (sanitizeSlug slug) "--" = false.
Proof.
  unfold sanitizeSlug.
  pose proof (collapse_hyphenated _ false
                (keep_id_chars_all (dots_to_hyphens slug))) as Hs.
  split; [apply strip_hyphens_id, Hs|].
  pose proof (strip_trailing_hyphenated _ _
                (strip_leading_hyphenated _ Hs)) as Hr.
  exact (hyphenated_no_run _ _ Hr).
Qed.

Section ConvertFacts.

Variable Date_parse : string -> jsnum.

Lemma convertProject_fields src now p :
  convertProject src now = Some p ->
  Types.project_id p = slugify (name src)
  /\ Types.partnerships p = []
  /\ confidence_key_errors p = []
  /\ confidence_null_errors p = []
  /\ Confidence.validateConfidenceMap p <> []
  /\ (isNaN (Date_parse now) = false ->
      date_errors Date_parse "date" dateFields p = []
      /\ date_errors Date_parse "datetime" datetimeFields p = []).
Proof.
  unfold convertProject.
  destruct (mapCategory (category src)) as [category_|];
    [|discriminate].
  cbn [mbind option_bind]. intros [= <-].
  split; [reflexivity|]. split; [reflexivity|].
  destruct src as [name_ description_ cat url_ github_ status_ openSource_
                   cantonFoundry_ stack_ relatedTo_ installCommand_
                   mcpConfig_ addedDate_ featuredApp_].
  cbn [name description category url github status openSource
       cantonFoundry stack featuredApp].
  split; [destruct featuredApp_ as [[|]|]; vm_compute; reflexivity|].
  split.
  { destruct url_, github_, featuredApp_ as [[|]|], stack_;
      vm_compute; reflexivity. }
  split.
  { destruct url_ as [[|]|], github_ as [[|]|], featuredApp_ as [[|]|];
      vm_compute; discriminate. }
  intros Hnow. unfold date_errors, dateFields, datetimeFields.
  cbn [flat_map].
  destruct cantonFoundry_;
    repeat match goal with
           | |- context [Types.get ?p ?field] =>
               let v := eval vm_compute in (Types.get p field) in
               change (Types.get p field) with v
           end;
    cbv beta iota; rewrite Hnow; split; reflexivity.
Qed.

(** X30. For projects that [convertProject] of the ecosystem migration
    made, from names with a letter or digit and a timestamp that
    [Date.parse] reads, the validator's checks of the id format, the
    partnerships, the confidence keys and the dates report nothing;
    yet [validateConfidenceMap] reports an error for each of them,
    since [network] holds a value under a null tier. *)
Theorem convertProject_passes_checks
    (projects : list Types.ObservatoryProject) (now : string) :
  isNaN (Date_parse now) = false ->
  (forall p, p ∈ projects ->
     exists src, convertProject src now = Some p
                 /\ slugify (name src) <> "") ->
  checkIdFormat projects = []
  /\ checkPartnershipRefs projects = []
  /\ checkConfidenceKeys projects = []
  /\ checkDateFields Date_parse projects = []
  /\ Forall (fun p => Confidence.validateConfidenceMap p <> []) projects.
Proof.
  intros Hnow Hmade.
  assert (Hall : Forall
    (fun p => exists src, convertProject src now = Some p
                          /\ slugify (name src) <> "") projects).
  { apply Forall_forall. exact Hmade. }
  clear Hmade.
  unfold checkIdFormat, checkPartnershipRefs, checkConfidenceKeys,
    checkDateFields.
  cbv zeta. generalize (list_to_set (map Types.project_id projects)
                        : gset string).
  intros ids.
  induction Hall as [|p ps (src & Hp & Hname) _ IH]; cbn [flat_map].
  { repeat split; constructor. }
  destruct (convertProject_fields src now p Hp)
    as (Hid & Hpartners & Hkeys & Hnulls & Hmap & Hdates).
  destruct (Hdates Hnow) as [Hd Hdt].
  destruct IH as (IH1 & IH2 & IH3 & IH4 & IH5).
  rewrite IH1, IH2, IH3, IH4, Hpartners, Hkeys, Hnulls, Hd, Hdt, Hid.
  destruct (strip_hyphens_id _
              (hyphenate_hyphenated (toLowerCase (name src)) false))
    as [Hnil | Hok]; [contradiction|].
  fold (slugify (name src)) in Hok.
  rewrite Hok. repeat split. constructor; assumption.
Qed.

End ConvertFacts.

Lemma convertProject_passes_checks_witness :
  exists p,
    convertProject example_source "2025-06-01T00:00:00.000Z" = Some p
    /\ Types.project_id p = "canton-foundry-cli"
    /\ checkConfidenceKeys [p] = []
    /\ Confidence.validateConfidenceMap p <> [].
Proof.
  eexists. split; [vm_compute; reflexivity|].
  split; [reflexivity|].
  match goal with
  | |- checkConfidenceKeys [?p] = [] /\ _ =>
      destruct (convertProject_passes_checks JsDate.Date_parse [p]
                  "2025-06-01T00:00:00.000Z")
        as (_ & _ & Hkeys & _ & Hmap)
  end.
  - vm_compute. reflexivity.
  - intros p Hp. apply list_elem_of_singleton in Hp as ->.
    exists example_source. split; [vm_compute; reflexivity|].
    vm_compute. discriminate.
  - split; [exact Hkeys|]. exact (Forall_inv Hmap).
Defined.

End MigrateFacts.

(** * Properties of the validator on unchecked arrays *)

Module ValidateUnknownFacts.
Import Types Js Validate ValidateUnknown.










Lemma checkUniqueIds_from_throws els : forall seen,
  Null ∈ els -> checkUniqueIds_from seen els = ThrowsTypeError.
Proof.
  induction els as [|x els IH]; intros seen He.
  - apply elem_of_nil in He. contradiction.
  - cbn [checkUniqueIds_from]. apply elem_of_cons in He as [<- | He].
    + reflexivity.
    + destruct (project_id_of x) as [id|]; [|reflexivity].
      cbn [mbind Outcome_bind]. rewrite (IH _ He). reflexivity.
Qed.




End ValidateUnknownFacts.
